(** * Asistente-voice: the conversational orchestration core of [src/index.tsx]

    A shallow embedding of the chat front-end of the mobile tyre service
    assistant: the tool-name rename ([camelCaseToDash]), the confirmation
    block grammar (the three regular expressions of [sendMessageHandler]),
    the turn handler itself, [MapApp.sendMessageAction], the map-query
    router [MapApp.handleMapQuery] and the service-history operations of
    the admin panel.

    Conventions of the embedding.
    - A JavaScript string is a [string]: a sequence of code units below 256
      (the ISO-8859-1 range, which covers the Spanish text of the
      application).  On that range [String.prototype.toLowerCase],
      [String.prototype.trim] and the regular-expression classes [\s], [.],
      [[a-z]] and [[A-Z]] are the functions written out in [JS].
    - An optional property ([message?: string]) is an [option string]; the
      truthiness test of the source ([if (params.location)]) is [truthy].
    - The DOM is a list of [Message] records; [innerHTML] of an element
      reads back the string that was assigned to it.  The handles returned
      by [addMessage] are the index of the message in [messages].
    - The external collaborators are parameters: the markdown renderer
      [marked.parse], the DOM's [textContent] and [JSON.stringify]; the
      model stream, the clock, [Math.random] and the answer given to
      [prompt] are inputs.
    - Effects that leave the component (speech output, the model
      invocation, the map operations) are recorded as a list of events. *)

From Stdlib Require Import NArith Ascii String List Bool Lia DecimalString.
From stdpp Require Import base list.
Import ListNotations.

Local Open Scope list_scope.
Local Open Scope string_scope.

(** ** JavaScript string primitives on code units below 256 *)

Module JS.

Definition code (c : ascii) : N := N_of_ascii c.

Definition between (lo hi : N) (c : ascii) : bool :=
  ((lo <=? code c) && (code c <=? hi))%N.

(** [[a-z]] and [[A-Z]] of the regular expressions. *)
Definition isAsciiLower (c : ascii) : bool := between 97 122 c.
Definition isAsciiUpper (c : ascii) : bool := between 65 90 c.

(** The letters that have a lower-case mapping: A-Z and the accented
    capitals U+00C0..U+00DE without the multiplication sign U+00D7. *)
Definition isUpperCase (c : ascii) : bool :=
  isAsciiUpper c || (between 192 222 c && negb (code c =? 215)%N).

Definition toLowerChar (c : ascii) : ascii :=
  if isUpperCase c then ascii_of_N (code c + 32) else c.

(** [\s], which is also the set that [trim] strips: TAB, LF, VT, FF, CR,
    SPACE and NO-BREAK SPACE. *)
Definition isWhiteSpace (c : ascii) : bool :=
  between 9 13 c || (code c =? 32)%N || (code c =? 160)%N.

(** The characters that [.] does not match: LF and CR. *)
Definition isLineTerminator (c : ascii) : bool :=
  (code c =? 10)%N || (code c =? 13)%N.

Fixpoint toLowerCase (s : string) : string :=
  match s with
  | EmptyString => EmptyString
  | String c r => String (toLowerChar c) (toLowerCase r)
  end.

Fixpoint trimStart (s : string) : string :=
  match s with
  | EmptyString => EmptyString
  | String c r => if isWhiteSpace c then trimStart r else s
  end.

Fixpoint trimEnd (s : string) : string :=
  match s with
  | EmptyString => EmptyString
  | String c r =>
      match trimEnd r with
      | EmptyString => if isWhiteSpace c then EmptyString else String c EmptyString
      | r' => String c r'
      end
  end.

Definition trim (s : string) : string := trimEnd (trimStart s).

(** [s.startsWith(p)], returning what follows the prefix. *)
Fixpoint stripPrefix (p s : string) : option string :=
  match p with
  | EmptyString => Some s
  | String a p' =>
      match s with
      | EmptyString => None
      | String b s' => if Ascii.eqb a b then stripPrefix p' s' else None
      end
  end.

(** [s.includes(p)]. *)
Fixpoint includes (p s : string) : bool :=
  match stripPrefix p s with
  | Some _ => true
  | None =>
      match s with
      | EmptyString => false
      | String _ r => includes p r
      end
  end.

(** [s.slice(n)] for [0 <= n]. *)
Fixpoint slice (n : nat) (s : string) : string :=
  match n, s with
  | O, _ => s
  | S n', String _ r => slice n' r
  | S _, EmptyString => EmptyString
  end.

(** An optional string in a condition: [undefined] and [''] are falsy. *)
Definition truthy (o : option string) : bool :=
  match o with
  | Some s => negb (s =? "")
  | None => false
  end.

(** [String(n)] for a non-negative integer. *)
Definition decimal (n : N) : string := NilZero.string_of_uint (N.to_uint n).

Definition LF : string := String (ascii_of_nat 10) EmptyString.
Definition QUOTE : string := String (ascii_of_nat 34) EmptyString.

Fixpoint noUpperCase (s : string) : bool :=
  match s with
  | EmptyString => true
  | String c r => negb (isUpperCase c) && noUpperCase r
  end.

End JS.

(** ** The tool-name rename *)

(** [str.replace(/([a-z])([A-Z])/g, '$1-$2')]: the scan resumes after the
    two characters of a match. *)
Fixpoint replaceLowerUpper (s : string) : string :=
  match s with
  | EmptyString => EmptyString
  | String c1 s' =>
      match s' with
      | String c2 r =>
          if JS.isAsciiLower c1 && JS.isAsciiUpper c2
          then String c1 (String "-" (String c2 (replaceLowerUpper r)))
          else String c1 (replaceLowerUpper s')
      | EmptyString => String c1 EmptyString
      end
  end.

(** [str.replace(/([A-Z])([A-Z][a-z])/g, '$1-$2')]: the scan resumes after
    the three characters of a match. *)
Fixpoint replaceUpperUpperLower (s : string) : string :=
  match s with
  | EmptyString => EmptyString
  | String c1 s' =>
      match s' with
      | String c2 (String c3 r) =>
          if JS.isAsciiUpper c1 && JS.isAsciiUpper c2 && JS.isAsciiLower c3
          then String c1 (String "-" (String c2 (String c3 (replaceUpperUpperLower r))))
          else String c1 (replaceUpperUpperLower s')
      | _ => String c1 (replaceUpperUpperLower s')
      end
  end.

Definition camelCaseToDash (str : string) : string :=
  JS.toLowerCase (replaceUpperUpperLower (replaceLowerUpper str)).

(** ** The confirmation block grammar *)

Definition OPEN_TAG : string := "<service_confirmation>".
Definition CLOSE_TAG : string := "</service_confirmation>".

(** The lazy [[\s\S]*?] followed by a literal: the shortest run of arbitrary
    characters after which [pat] is found.  Returns the run and what follows
    the literal. *)
Fixpoint lazyUntil (pat s : string) : option (string * string) :=
  match JS.stripPrefix pat s with
  | Some post => Some (EmptyString, post)
  | None =>
      match s with
      | EmptyString => None
      | String c r =>
          match lazyUntil pat r with
          | Some (body, post) => Some (String c body, post)
          | None => None
          end
      end
  end.

(** The result of [s.match(/<service_confirmation>([\s\S]*?)<\/service_confirmation>/)]:
    the text before the match, group 1, and the text after the match.  The
    engine tries the start positions from left to right. *)
Fixpoint matchConfirmation (s : string) : option (string * string * string) :=
  let here :=
    match JS.stripPrefix OPEN_TAG s with
    | Some after =>
        match lazyUntil CLOSE_TAG after with
        | Some (body, post) => Some (EmptyString, body, post)
        | None => None
        end
    | None => None
    end in
  match here with
  | Some m => Some m
  | None =>
      match s with
      | EmptyString => None
      | String c r =>
          match matchConfirmation r with
          | Some (pre, body, post) => Some (String c pre, body, post)
          | None => None
          end
      end
  end.

(** [s.replace(/<service_confirmation>[\s\S]*?<\/service_confirmation>/, '')]:
    the redaction used while streaming, for the spoken text and in
    [speakMessage]. *)
Definition redactConfirmation (s : string) : string :=
  match matchConfirmation s with
  | Some (pre, _, post) => pre ++ post
  | None => s
  end.

(** Greedy [\s*]. *)
Fixpoint skipWhiteSpace (s : string) : string :=
  match s with
  | EmptyString => EmptyString
  | String c r => if JS.isWhiteSpace c then skipWhiteSpace r else s
  end.

(** The greedy capture group of any characters but line terminators: up to
    the next line terminator. *)
Fixpoint restOfLine (s : string) : string :=
  match s with
  | EmptyString => EmptyString
  | String c r => if JS.isLineTerminator c then EmptyString else String c (restOfLine r)
  end.

(** Group 1 of [text.match(re)] for a field expression [re]: the label,
    [\s*], then the capture group; [None] when there is no match.  The white
    space run and the group both match the empty string, so the match starts
    at the first occurrence of the label. *)
Fixpoint matchField (label text : string) : option string :=
  match JS.stripPrefix label text with
  | Some after => Some (restOfLine (skipWhiteSpace after))
  | None =>
      match text with
      | EmptyString => None
      | String _ r => matchField label r
      end
  end.

(** The argument of [addServiceToHistory]. *)
Record ConfirmationRecord := {
  cr_name : string;
  cr_address : string;
  cr_phone : string;
  cr_details : string
}.

Definition NOT_SPECIFIED : string := "No especificado".

(** [m ? m[1].trim() : null] for the match [m] of a field expression;
    [null] is [None]. *)
Definition trimmedField (label text : string) : option string :=
  match matchField label text with
  | Some v => Some (JS.trim v)
  | None => None
  end.

(** The post-processing of [sendMessageHandler], lines 220-244: the record
    handed to [addServiceToHistory], if any. *)
Definition extractConfirmation (newCode : string) : option ConfirmationRecord :=
  match matchConfirmation newCode with
  | Some (_, detailsText, _) =>
      if negb (detailsText =? "") then
        let name := trimmedField "Name:" detailsText in
        let phone := trimmedField "Phone:" detailsText in
        let details := trimmedField "Details:" detailsText in
        let address := trimmedField "Address:" detailsText in
        if JS.truthy name && JS.truthy address && JS.truthy phone then
          Some {| cr_name := default "" name;
                  cr_address := default "" address;
                  cr_phone := default "" phone;
                  cr_details := if JS.truthy details then default "" details
                                else NOT_SPECIFIED |}
        else None
      else None
  | None => None
  end.

(** ** The application state *)

Inductive ChatState := IDLE | GENERATING | THINKING | EXECUTING.

Inductive View := ViewChat | ViewAdmin.

Inductive AdminTab := TabHistory | TabInventory.

Inductive ServiceStatus := Pendiente | Aprobado | EnProceso | Terminado.

Record ServiceHistoryItem := {
  svc_id : string;
  svc_name : string;
  svc_phone : string;
  svc_address : string;
  svc_details : option string;
  svc_timestamp : N;
  svc_status : ServiceStatus;
  svc_price : option string
}.

(** One [div.turn] of the chat: the token after [role-] in its class list,
    the [details.thinking] element with its [hidden] class and [open]
    attribute, and the [innerHTML] of the thinking and text elements. *)
Record Message := {
  msg_role : string;
  msg_thinkingHidden : bool;
  msg_thinkingOpen : bool;
  msg_thinking : string;
  msg_text : string
}.

Record MapApp := {
  chatState : ChatState;
  inputMessage : string;
  messages : list Message;
  currentView : View;
  currentAdminTab : AdminTab;
  serviceHistory : list ServiceHistoryItem;
  isLocationSelectionMode : bool;
  locationSelectionMessage : string;
  isMuted : bool;
  selectionMarker : bool;
  sendMessageHandlerSet : bool
}.

(** The model stream of one turn.  A part carries any of a function call,
    a thought and a text; the nested loops over chunks, candidates and parts
    visit the parts in order. *)
Record FunctionCall := {
  fc_name : string;
  fc_args : string
}.

Record Part := {
  part_functionCall : option FunctionCall;
  part_thought : option string;
  part_text : option string
}.

(** What the [catch] clause receives: an [Error] with its message, or any
    other value with its [String(e)]. *)
Inductive Thrown :=
  | ThrownError (message : string)
  | ThrownValue (asString : string).

Inductive StreamEnd :=
  | Completed
  | Failed (e : Thrown).

Record Stream := {
  parts : list Part;
  ending : StreamEnd
}.

(** The inputs of one turn: the stream, the two readings of the clock and
    the value of [Math.random().toString(36)] used by [addServiceToHistory]. *)
Record TurnEnv := {
  stream : Stream;
  clockId : N;
  randomBase36 : string;
  clockTimestamp : N
}.

(** One entry of the history handed to [ai.chats.create]. *)
Record Content := {
  content_role : string;
  content_text : string
}.

Inductive Event :=
  | SpeechCancel
  | Speak (text : string)
  | ModelTurn (history : list Content) (message : string).

(** The external collaborators: [marked.parse], the [textContent] of an
    element given its [innerHTML], and [JSON.stringify(mcpCall, null, 2)]
    given the name and the arguments of the call. *)
Class Collaborators := {
  marked_parse : string -> string;
  textContent : string -> string;
  stringifyCall : string -> string -> string
}.

(** *** Field updates *)

Definition setChatState (state : ChatState) (a : MapApp) : MapApp :=
  {| chatState := state; inputMessage := inputMessage a; messages := messages a;
     currentView := currentView a; currentAdminTab := currentAdminTab a;
     serviceHistory := serviceHistory a;
     isLocationSelectionMode := isLocationSelectionMode a;
     locationSelectionMessage := locationSelectionMessage a;
     isMuted := isMuted a; selectionMarker := selectionMarker a;
     sendMessageHandlerSet := sendMessageHandlerSet a |}.

Definition setInputMessage (v : string) (a : MapApp) : MapApp :=
  {| chatState := chatState a; inputMessage := v; messages := messages a;
     currentView := currentView a; currentAdminTab := currentAdminTab a;
     serviceHistory := serviceHistory a;
     isLocationSelectionMode := isLocationSelectionMode a;
     locationSelectionMessage := locationSelectionMessage a;
     isMuted := isMuted a; selectionMarker := selectionMarker a;
     sendMessageHandlerSet := sendMessageHandlerSet a |}.

Definition setMessages (v : list Message) (a : MapApp) : MapApp :=
  {| chatState := chatState a; inputMessage := inputMessage a; messages := v;
     currentView := currentView a; currentAdminTab := currentAdminTab a;
     serviceHistory := serviceHistory a;
     isLocationSelectionMode := isLocationSelectionMode a;
     locationSelectionMessage := locationSelectionMessage a;
     isMuted := isMuted a; selectionMarker := selectionMarker a;
     sendMessageHandlerSet := sendMessageHandlerSet a |}.

Definition openAdmin (a : MapApp) : MapApp :=
  {| chatState := chatState a; inputMessage := inputMessage a; messages := messages a;
     currentView := ViewAdmin; currentAdminTab := TabHistory;
     serviceHistory := serviceHistory a;
     isLocationSelectionMode := isLocationSelectionMode a;
     locationSelectionMessage := locationSelectionMessage a;
     isMuted := isMuted a; selectionMarker := selectionMarker a;
     sendMessageHandlerSet := sendMessageHandlerSet a |}.

Definition setServiceHistory (v : list ServiceHistoryItem) (a : MapApp) : MapApp :=
  {| chatState := chatState a; inputMessage := inputMessage a; messages := messages a;
     currentView := currentView a; currentAdminTab := currentAdminTab a;
     serviceHistory := v;
     isLocationSelectionMode := isLocationSelectionMode a;
     locationSelectionMessage := locationSelectionMessage a;
     isMuted := isMuted a; selectionMarker := selectionMarker a;
     sendMessageHandlerSet := sendMessageHandlerSet a |}.

Definition LOCATION_PROMPT : string :=
  "Haga clic en el mapa para establecer su ubicaci" ++ String (ascii_of_nat 243) "n".

Definition enableLocationSelectionMode (a : MapApp) : MapApp :=
  {| chatState := chatState a; inputMessage := inputMessage a; messages := messages a;
     currentView := currentView a; currentAdminTab := currentAdminTab a;
     serviceHistory := serviceHistory a;
     isLocationSelectionMode := true;
     locationSelectionMessage := LOCATION_PROMPT;
     isMuted := isMuted a; selectionMarker := false;
     sendMessageHandlerSet := sendMessageHandlerSet a |}.

Definition disableLocationSelectionMode (a : MapApp) : MapApp :=
  {| chatState := chatState a; inputMessage := inputMessage a; messages := messages a;
     currentView := currentView a; currentAdminTab := currentAdminTab a;
     serviceHistory := serviceHistory a;
     isLocationSelectionMode := false;
     locationSelectionMessage := "";
     isMuted := isMuted a; selectionMarker := selectionMarker a;
     sendMessageHandlerSet := sendMessageHandlerSet a |}.

Definition setText (v : string) (m : Message) : Message :=
  {| msg_role := msg_role m; msg_thinkingHidden := msg_thinkingHidden m;
     msg_thinkingOpen := msg_thinkingOpen m; msg_thinking := msg_thinking m;
     msg_text := v |}.

(** [thinkingElement.innerHTML = v], then the container loses [hidden] and
    gets [open]. *)
Definition showThinking (v : string) (m : Message) : Message :=
  {| msg_role := msg_role m; msg_thinkingHidden := false;
     msg_thinkingOpen := true; msg_thinking := v;
     msg_text := msg_text m |}.

(** Lines 246-251: an open container is closed, and hidden when there was
    no thought. *)
Definition closeThinking (thoughtAccumulator : string) (m : Message) : Message :=
  if msg_thinkingOpen m then
    {| msg_role := msg_role m;
       msg_thinkingHidden :=
         if thoughtAccumulator =? "" then true else msg_thinkingHidden m;
       msg_thinkingOpen := false; msg_thinking := msg_thinking m;
       msg_text := msg_text m |}
  else m.

Definition alterMessage (i : nat) (f : Message -> Message) (a : MapApp) : MapApp :=
  setMessages (alter f i (messages a)) a.

Definition setTextAt (i : nat) (v : string) (a : MapApp) : MapApp :=
  alterMessage i (setText v) a.

(** [textElement.innerHTML] through the handle [i]. *)
Definition textAt (i : nat) (a : MapApp) : string :=
  match messages a !! i with
  | Some m => msg_text m
  | None => ""
  end.

(** [addMessage(role, message)]: the new turn is appended; the handles it
    returns are the index of the turn. *)
Definition addMessage (a : MapApp) (role message : string) : MapApp * nat :=
  (setMessages (messages a ++ [ {| msg_role := JS.trim role;
                                   msg_thinkingHidden := false;
                                   msg_thinkingOpen := false;
                                   msg_thinking := "";
                                   msg_text := message |} ]) a,
   length (messages a)).

(** [el.classList.contains(cls)] for a turn, whose classes are [turn] and
    [role-...]. *)
Definition hasClass (cls : string) (m : Message) : bool :=
  (cls =? "turn") || (cls =? "role-" ++ msg_role m).

(** [el.innerHTML] of a turn: the serialized [details] and text elements. *)
Definition elInnerHTML (m : Message) : string :=
  "<details class=" ++ JS.QUOTE ++ "thinking"
    ++ (if msg_thinkingHidden m then " hidden" else "") ++ JS.QUOTE
    ++ " aria-label=" ++ JS.QUOTE ++ "Model thinking process" ++ JS.QUOTE
    ++ (if msg_thinkingOpen m then " open=" ++ JS.QUOTE ++ "true" ++ JS.QUOTE else "")
    ++ "><summary>Thinking process</summary><div>" ++ msg_thinking m
    ++ "</div></details><div class=" ++ JS.QUOTE ++ "text" ++ JS.QUOTE ++ ">"
    ++ msg_text m ++ "</div>".

Definition FUNCTION_CALL_MARKER : string := "Calling function:".

Definition hasFunctionCallMessage (ms : list Message) : bool :=
  existsb (fun el => JS.includes FUNCTION_CALL_MARKER (elInnerHTML el)) ms.

(** The record [addServiceToHistory] builds from its argument. *)
Definition newService (d : ConfirmationRecord) (env : TurnEnv) : ServiceHistoryItem :=
  {| svc_id := JS.decimal (clockId env) ++ "-" ++ JS.slice 2 (randomBase36 env);
     svc_name := cr_name d;
     svc_phone := cr_phone d;
     svc_address := cr_address d;
     svc_details := Some (cr_details d);
     svc_timestamp := clockTimestamp env;
     svc_status := Pendiente;
     svc_price := None |}.

(** [addServiceToHistory]: the new record goes in front. *)
Definition addServiceToHistory (a : MapApp) (d : ConfirmationRecord) (env : TurnEnv) : MapApp :=
  setServiceHistory (newService d env :: serviceHistory a) a.

(** [speakMessage], with [speechSynthesis] available; the choice of a voice
    is left out. *)
Definition speakMessage (a : MapApp) (text : string) : list Event :=
  if isMuted a || (text =? "") then []
  else
    let cleanText := JS.trim (redactConfirmation text) in
    if cleanText =? "" then [] else [SpeechCancel; Speak cleanText].

(** ** The turn handler installed by [index.tsx] *)

Section TurnHandler.

Context `{Ext : Collaborators}.

(** Lines 131-141: the history is rebuilt from the turns on display. *)
Definition projectMessage (el : Message) : Content :=
  let textContent := JS.trim (textContent (msg_text el)) in
  if hasClass "role-user" el
  then {| content_role := "user"; content_text := textContent |}
  else {| content_role := "model"; content_text := textContent |}.

Definition chatHistory (ms : list Message) : list Content :=
  map projectMessage (List.filter (fun el => negb (hasClass "role-error" el)) ms).

(** The local variables of the handler that outlive a part. *)
Record Turn := {
  app : MapApp;
  newCode : string;
  thoughtAccumulator : string
}.

(** Lines 159-179: the explanation of a function call is a turn of its own. *)
Definition explainFunctionCall (t : Turn) (fc : FunctionCall) : Turn :=
  let explanation :=
    "Calling function:" ++ JS.LF ++ "```json" ++ JS.LF
      ++ stringifyCall (camelCaseToDash (fc_name fc)) (fc_args fc)
      ++ JS.LF ++ "```" in
  let '(a, functionCallText) := addMessage (app t) "assistant" "" in
  {| app := setTextAt functionCallText (marked_parse explanation) a;
     newCode := newCode t;
     thoughtAccumulator := thoughtAccumulator t |}.

(** The body of the innermost loop, lines 159-198, for the turn whose
    placeholder has the handle [idx]. *)
Definition processPart (idx : nat) (t : Turn) (part : Part) : Turn :=
  let t1 :=
    match part_functionCall part with
    | Some fc => explainFunctionCall t fc
    | None => t
    end in
  if JS.truthy (part_thought part) then
    let acc := thoughtAccumulator t1 ++ " " ++ default "" (part_thought part) in
    {| app := alterMessage idx (showThinking (marked_parse acc))
                (setChatState THINKING (app t1));
       newCode := newCode t1;
       thoughtAccumulator := acc |}
  else if JS.truthy (part_text part) then
    let code := newCode t1 ++ default "" (part_text part) in
    let userVisibleText := redactConfirmation code in
    {| app := setTextAt idx (marked_parse userVisibleText)
                (setChatState EXECUTING (app t1));
       newCode := code;
       thoughtAccumulator := thoughtAccumulator t1 |}
  else t1.

(** Lines 98-105: the placeholder of the reply. *)
Definition openTurn (a : MapApp) : MapApp * nat :=
  let '(a1, idx) := addMessage a "assistant" "" in
  (setTextAt idx "..." (setChatState GENERATING a1), idx).

(** The state when the stream is exhausted, or when it throws after the
    parts it has delivered. *)
Definition streamed (a : MapApp) (ps : list Part) : Turn :=
  let '(a2, idx) := openTurn a in
  fold_left (processPart idx) ps
    {| app := a2; newCode := ""; thoughtAccumulator := "" |}.

(** Lines 253-265. *)
Definition completionNotice (idx : nat) (a : MapApp) : MapApp :=
  let shown := JS.trim (textAt idx a) in
  if (shown =? "...") || (String.length shown =? 0)%nat then
    if negb (hasFunctionCallMessage (messages a))
    then setTextAt idx (marked_parse "Done.") a
    else if shown =? "..." then setTextAt idx "" a else a
  else a.

(** Lines 203-251: the spoken text, the location-selection mode, the
    confirmation record and the thinking container. *)
Definition spokenText (t : Turn) : list Event :=
  let finalUserVisibleText := JS.trim (redactConfirmation (newCode t)) in
  if finalUserVisibleText =? "" then []
  else speakMessage (app t) finalUserVisibleText.

Definition settle (idx : nat) (t : Turn) (env : TurnEnv) : MapApp :=
  let a1 :=
    if JS.includes "click on the map" (JS.toLowerCase (newCode t))
       || JS.includes "clic en el mapa" (JS.toLowerCase (newCode t))
    then enableLocationSelectionMode (app t)
    else app t in
  let a2 :=
    match extractConfirmation (newCode t) with
    | Some d => addServiceToHistory a1 d env
    | None => a1
    end in
  alterMessage idx (closeThinking (thoughtAccumulator t)) a2.

(** Lines 203-265: what follows a completed stream. *)
Definition completeTurn (idx : nat) (t : Turn) (env : TurnEnv) : MapApp * list Event :=
  (completionNotice idx (settle idx t env), spokenText t).

Definition errorMessage (e : Thrown) : string :=
  match e with
  | ThrownError message => message
  | ThrownValue asString => asString
  end.

(** Lines 266-277: the [catch] clause. *)
Definition reportError (a : MapApp) (e : Thrown) : MapApp :=
  let '(a1, errorTextElement) := addMessage a "error" "" in
  setTextAt errorTextElement (marked_parse ("Error: " ++ errorMessage e)) a1.

(** [mapApp.sendMessageHandler]; the system instruction given to the model
    is left out of the recorded invocation. *)
Definition sendMessageHandler (a : MapApp) (input role : string) (env : TurnEnv)
  : MapApp * list Event :=
  let '(a2, idx) := openTurn a in
  let history := removelast (chatHistory (messages a2)) in
  let t := streamed a (parts (stream env)) in
  let '(a3, evs) :=
    match ending (stream env) with
    | Completed => completeTurn idx t env
    | Failed e => (reportError (app t) e, [])
    end in
  (setChatState IDLE a3, ModelTurn history input :: evs).

(** ** [MapApp.sendMessageAction] *)

Definition isIdle (s : ChatState) : bool :=
  match s with
  | IDLE => true
  | _ => false
  end.

Definition ADMIN_KEYWORD : string := "soy administrador".

(** Lines 1066-1084, once [msg] and [msgRole] are known. *)
Definition deliver (a : MapApp) (msg msgRole : string) (env : TurnEnv)
  : MapApp * list Event :=
  if (String.length msg =? 0)%nat then (a, [])
  else
    let a1 :=
      if (msgRole =? "user") || ((msgRole =? "system") && negb (msg =? ""))
      then
        let '(a', textElement) :=
          addMessage a (if msgRole =? "system" then "assistant" else msgRole) "..." in
        setTextAt textElement (marked_parse msg) a'
      else a in
    if sendMessageHandlerSet a1
    then sendMessageHandler a1 msg (if msgRole =? "system" then "user" else msgRole) env
    else (a1, []).

Definition sendMessageAction (a : MapApp) (message role : option string) (env : TurnEnv)
  : MapApp * list Event :=
  if negb (isIdle (chatState a)) then (a, [])
  else
    let a1 :=
      if isLocationSelectionMode a && negb (JS.truthy message)
      then disableLocationSelectionMode a
      else a in
    let msgRole :=
      if JS.truthy role then JS.toLowerCase (default "" role) else "user" in
    let '(a2, evs) :=
      if JS.truthy message then deliver a1 (JS.trim (default "" message)) msgRole env
      else
        let msg := JS.trim (inputMessage a1) in
        if JS.toLowerCase msg =? ADMIN_KEYWORD
        then (setInputMessage "" (openAdmin a1), [])
        else
          deliver (if (0 <? String.length msg)%nat then setInputMessage "" a1 else a1)
            msg msgRole env in
    (a2, SpeechCancel :: evs).

End TurnHandler.

(** ** The map-query router *)

Record MapParams := {
  location : option string;
  origin : option string;
  destination : option string
}.

(** The two map operations the router invokes. *)
Inductive MapOperation :=
  | ViewLocation (locationQuery : string)
  | Directions (originQuery destinationQuery : string).

(** [MapApp.handleMapQuery]: the operations it invokes, in order. *)
Definition handleMapQuery (params : MapParams) : list MapOperation :=
  if JS.truthy (location params) then
    [ViewLocation (default "" (location params))]
  else if JS.truthy (origin params) && JS.truthy (destination params) then
    [Directions (default "" (origin params)) (default "" (destination params))]
  else if JS.truthy (destination params) then
    [ViewLocation (default "" (destination params))]
  else [].

(** ** The service history of the admin panel *)

Definition setStatus (st : ServiceStatus) (s : ServiceHistoryItem) : ServiceHistoryItem :=
  {| svc_id := svc_id s; svc_name := svc_name s; svc_phone := svc_phone s;
     svc_address := svc_address s; svc_details := svc_details s;
     svc_timestamp := svc_timestamp s; svc_status := st; svc_price := svc_price s |}.

Definition setTerminado (price : string) (s : ServiceHistoryItem) : ServiceHistoryItem :=
  {| svc_id := svc_id s; svc_name := svc_name s; svc_phone := svc_phone s;
     svc_address := svc_address s; svc_details := svc_details s;
     svc_timestamp := svc_timestamp s; svc_status := Terminado;
     svc_price := Some price |}.

(** [this.serviceHistory.find((s) => s.id === serviceId)]. *)
Definition findService (serviceId : string) (a : MapApp) : option ServiceHistoryItem :=
  List.find (fun s => svc_id s =? serviceId) (serviceHistory a).

(** [this.serviceHistory = this.serviceHistory.map((service) =>
    service.id === serviceId ? f(service) : service)]. *)
Definition mapService (serviceId : string) (f : ServiceHistoryItem -> ServiceHistoryItem)
    (a : MapApp) : MapApp :=
  setServiceHistory
    (map (fun service => if svc_id service =? serviceId then f service else service)
       (serviceHistory a)) a.

(** The three handlers; the [alert] of the first and the [window.open] of
    the second are left out. *)
Definition _handleApprove (a : MapApp) (serviceId : string) : MapApp :=
  match findService serviceId a with
  | None => a
  | Some item => mapService serviceId (setStatus Aprobado) a
  end.

Definition _handleProcess (a : MapApp) (serviceId : string) : MapApp :=
  match findService serviceId a with
  | None => a
  | Some item => mapService serviceId (setStatus EnProceso) a
  end.

(** [promptAnswer] is what [prompt] returns: [None] when it is dismissed. *)
Definition _handleFinish (a : MapApp) (serviceId : string) (promptAnswer : option string)
  : MapApp :=
  match findService serviceId a with
  | None => a
  | Some item =>
      match promptAnswer with
      | Some price =>
          if negb (JS.trim price =? "")
          then mapService serviceId (setTerminado price) a
          else a
      | None => a
      end
  end.

(** The buttons of [renderServiceHistory], lines 1377-1399. *)
Inductive AdminButton := Aprobar | BotonEnProceso | Terminar.

Definition statusEqb (x y : ServiceStatus) : bool :=
  match x, y with
  | Pendiente, Pendiente | Aprobado, Aprobado
  | EnProceso, EnProceso | Terminado, Terminado => true
  | _, _ => false
  end.

Definition buttonEqb (x y : AdminButton) : bool :=
  match x, y with
  | Aprobar, Aprobar | BotonEnProceso, BotonEnProceso | Terminar, Terminar => true
  | _, _ => false
  end.

(** The buttons rendered in the row of a service. *)
Definition serviceActions (service : ServiceHistoryItem) : list AdminButton :=
  (if statusEqb (svc_status service) Pendiente then [Aprobar] else [])
  ++ (if statusEqb (svc_status service) Aprobado then [BotonEnProceso] else [])
  ++ (if statusEqb (svc_status service) EnProceso then [Terminar] else []).

(** A click in the history tab: the row, the button, and the answer given
    to the price prompt should the button be [Terminar]. *)
Record Click := {
  click_row : nat;
  click_button : AdminButton;
  click_prompt : option string
}.

(** The listener of a rendered button runs the handler with the id of its
    row; a button that is not rendered cannot be clicked. *)
Definition click (a : MapApp) (c : Click) : MapApp :=
  match serviceHistory a !! click_row c with
  | Some service =>
      if existsb (buttonEqb (click_button c)) (serviceActions service) then
        match click_button c with
        | Aprobar => _handleApprove a (svc_id service)
        | BotonEnProceso => _handleProcess a (svc_id service)
        | Terminar => _handleFinish a (svc_id service) (click_prompt c)
        end
      else a
  | None => a
  end.

Definition clicks (a : MapApp) (cs : list Click) : MapApp := fold_left click cs a.

(** The place of a status in the chain. *)
Definition stage (st : ServiceStatus) : nat :=
  match st with
  | Pendiente => 0
  | Aprobado => 1
  | EnProceso => 2
  | Terminado => 3
  end.

(** ** Vocabulary of the statements *)

(** An optional field that is present with the non-empty value [v]. *)
Definition present (o : option string) (v : string) : Prop :=
  o = Some v /\ v <> "".

(** An optional field that is missing or empty. *)
Definition absent (o : option string) : Prop := JS.truthy o = false.

(** The model invocations among the events of a turn. *)
Fixpoint invocations (evs : list Event) : list (list Content * string) :=
  match evs with
  | [] => []
  | ModelTurn history message :: r => (history, message) :: invocations r
  | _ :: r => invocations r
  end.

Definition isAssistant (m : Message) : Prop := msg_role m = "assistant".

(** [ms] is [base] followed by assistant turns. *)
Definition extends (base ms : list Message) : Prop :=
  exists added, ms = (base ++ added)%list /\ Forall isAssistant added.

(** A segment of [s] delimited by the two tags: [s] is [pre], the opening
    tag, [body], the closing tag, [post]. *)
Definition isBlock (s pre body post : string) : Prop :=
  s = pre ++ OPEN_TAG ++ body ++ CLOSE_TAG ++ post.

(** [s] has at most one such segment. *)
Definition atMostOneBlock (s : string) : Prop :=
  forall pre body post pre' body' post',
    isBlock s pre body post -> isBlock s pre' body' post' ->
    pre = pre' /\ body = body' /\ post = post'.

(** All the ways of cutting [s] around an occurrence of [pat]. *)
Fixpoint splitsAt (pat s : string) : list (string * string) :=
  (match JS.stripPrefix pat s with
   | Some v => [(EmptyString, v)]
   | None => []
   end)
  ++ match s with
     | EmptyString => []
     | String c r => map (fun uv => (String c (fst uv), snd uv)) (splitsAt pat r)
     end.

(** All the delimited segments of [s]. *)
Definition blocks (s : string) : list (string * string * string) :=
  flat_map
    (fun pr => map (fun bp => (fst pr, fst bp, snd bp)) (splitsAt CLOSE_TAG (snd pr)))
    (splitsAt OPEN_TAG s).

(** What holds of the turn state from the placeholder on: earlier turns are
    untouched, what was added are assistant turns, the placeholder is among
    them, and the service history is the one the turn started with. *)
Definition turnInvariant (a : MapApp) (t : Turn) : Prop :=
  extends (messages a) (messages (app t))
  /\ (length (messages a) < length (messages (app t)))%nat
  /\ serviceHistory (app t) = serviceHistory a.

Section TurnVocabulary.

Context `{Ext : Collaborators}.

(** [p] occurs in [s]. *)
Definition occursIn (p s : string) : Prop := exists pre post, s = pre ++ p ++ post.

(** A turn whose markup shows the first line of the explanation of a
    function call. *)
Definition mentionsFunctionCall (m : Message) : Prop :=
  occursIn "Calling function:" (elInnerHTML m).

(** A part of the stream that carries a function call. *)
Definition callsFunction (p : Part) : Prop := part_functionCall p <> None.

(** The explanation written for a function call, lines 170-173. *)
Definition explanationOf (fc : FunctionCall) : string :=
  "Calling function:" ++ JS.LF ++ "```json" ++ JS.LF
    ++ stringifyCall (camelCaseToDash (fc_name fc)) (fc_args fc)
    ++ JS.LF ++ "```".

(** The renderer keeps the first line of an explanation as it is written,
    as [marked] does with a paragraph of plain words. *)
Definition rendersExplanations : Prop :=
  forall fc, occursIn "Calling function:" (marked_parse (explanationOf fc)).

(** The output with the handle [idx] is left empty: it is blank, being
    either cleared or what it was. *)
Definition outputLeftEmpty (idx : nat) (before final : MapApp) : Prop :=
  JS.trim (textAt idx final) = ""
  /\ (textAt idx final = "" \/ textAt idx final = textAt idx before).

(** The turn that the [catch] clause leaves in the chat. *)
Definition errorTurn (e : Thrown) : Message :=
  {| msg_role := "error";
     msg_thinkingHidden := false;
     msg_thinkingOpen := false;
     msg_thinking := "";
     msg_text := marked_parse ("Error: " ++ errorMessage e) |}.

(** The projection of a displayed turn as the history builder is described:
    the role from the role of the turn, the text from what is displayed. *)
Definition projected (el : Message) : Content :=
  {| content_role := if msg_role el =? "user" then "user" else "model";
     content_text := JS.trim (textContent (msg_text el)) |}.

Definition isErrorTurn (el : Message) : bool := msg_role el =? "error".

End TurnVocabulary.

(** The histories the application builds: the ids are distinct and a price
    is recorded on finished services only. *)
Definition wellFormedHistory (h : list ServiceHistoryItem) : Prop :=
  NoDup (map svc_id h)
  /\ Forall (fun s => svc_status s <> Terminado -> svc_price s = None) h.

(** What one operation may do to a service: nothing, or move it to the next
    stage of the chain; the price, unset before, is set exactly when the
    stage reached is [Terminado]. *)
Definition itemStep (s s' : ServiceHistoryItem) : Prop :=
  s' = s
  \/ (svc_id s' = svc_id s
      /\ stage (svc_status s') = S (stage (svc_status s))
      /\ svc_price s = None
      /\ (svc_price s' <> None <-> svc_status s' = Terminado)).

(** What a sequence of operations may do to a service: its stage does not
    decrease, and its price changes only from unset to set, with the service
    finished. *)
Definition itemProgress (s s' : ServiceHistoryItem) : Prop :=
  svc_id s' = svc_id s
  /\ (stage (svc_status s) <= stage (svc_status s'))%nat
  /\ (svc_price s' = svc_price s
      \/ (svc_price s = None /\ svc_status s' = Terminado)).

(** ** Sample inputs *)

Definition sampleService (id : string) (st : ServiceStatus) (price : option string)
  : ServiceHistoryItem :=
  {| svc_id := id; svc_name := "Juan"; svc_phone := "3334854080";
     svc_address := "Calle 5, Mazamitla"; svc_details := Some "llanta ponchada";
     svc_timestamp := 1730000000001; svc_status := st; svc_price := price |}.

Definition sampleHistory : list ServiceHistoryItem :=
  [sampleService "2-b" Pendiente None; sampleService "1-a" EnProceso None].

(** A confirmation block with the four fields in the order of the wire
    format; each value is what follows the colon on its line. *)
Definition confirmationBlock (name phone details address : string) : string :=
  OPEN_TAG ++ JS.LF
    ++ "Name:" ++ name ++ JS.LF
    ++ "Phone:" ++ phone ++ JS.LF
    ++ "Details:" ++ details ++ JS.LF
    ++ "Address:" ++ address ++ JS.LF
    ++ CLOSE_TAG.

(** The state of a fresh [MapApp], from its field initialisers, once
    [index.tsx] has installed the handler. *)
Definition initialApp : MapApp :=
  {| chatState := IDLE; inputMessage := ""; messages := [];
     currentView := ViewChat; currentAdminTab := TabHistory;
     serviceHistory := [];
     isLocationSelectionMode := false; locationSelectionMessage := "";
     isMuted := false; selectionMarker := false;
     sendMessageHandlerSet := true |}.

(** Stand-ins for the collaborators, to run the model on examples: a
    renderer that wraps a non-empty text in a paragraph, as [marked] does
    with a plain line, and leaves the empty text empty. *)
Definition sampleCollaborators : Collaborators :=
  {| marked_parse := fun s => if s =? "" then "" else "<p>" ++ s ++ "</p>" ++ JS.LF;
     textContent := fun html => html;
     stringifyCall := fun name args => "{ name: " ++ name ++ ", arguments: " ++ args ++ " }" |}.

Definition sampleEnv (ps : list Part) (e : StreamEnd) : TurnEnv :=
  {| stream := {| parts := ps; ending := e |};
     clockId := 1730000000000;
     randomBase36 := "0.k3j9x2";
     clockTimestamp := 1730000000001 |}.

Definition textPart (s : string) : Part :=
  {| part_functionCall := None; part_thought := None; part_text := Some s |}.

Definition functionCallPart (name args : string) : Part :=
  {| part_functionCall := Some {| fc_name := name; fc_args := args |};
     part_thought := None; part_text := None |}.

(** The state after a first message of the user, in whose turn the model
    calls the map tool and answers. *)
Definition afterToolTurn : MapApp :=
  fst (sendMessageAction (Ext := sampleCollaborators) initialApp
         (Some "Estoy en Mazamitla") (Some "user")
         (sampleEnv [functionCallPart "viewLocationGoogleMaps" "{ query: Mazamitla, Jalisco }";
                     textPart "Listo."] Completed)).

(** * Further vocabulary *)

(** [s] with its dashes taken out. *)
Fixpoint withoutDashes (s : string) : string :=
  match s with
  | EmptyString => EmptyString
  | String c r => if Ascii.eqb c "-" then withoutDashes r else String c (withoutDashes r)
  end.

(** [c] occurs in [s]. *)
Fixpoint charIn (c : ascii) (s : string) : bool :=
  match s with
  | EmptyString => false
  | String d r => Ascii.eqb c d || charIn c r
  end.

(** [s] is on one line. *)
Fixpoint singleLine (s : string) : bool :=
  match s with
  | EmptyString => true
  | String c r => negb (JS.isLineTerminator c) && singleLine r
  end.

(** What a part adds to [newCode]: its text, unless it carries a thought. *)
Definition partText (part : Part) : string :=
  if JS.truthy (part_thought part) then ""
  else if JS.truthy (part_text part) then default "" (part_text part)
  else "".

Fixpoint accumulatedText (ps : list Part) : string :=
  match ps with
  | [] => ""
  | part :: r => partText part ++ accumulatedText r
  end.

(** The state without its chat: what a stream cannot change. *)
Definition settings (a : MapApp) : MapApp := setMessages [] (setChatState IDLE a).

(** A value of the wire format: on one line, without the closing tag, and
    not blank. *)
Definition wireValue (v : string) : Prop :=
  singleLine v = true /\ JS.includes CLOSE_TAG v = false /\ JS.trim v <> "".

(** The two phrases that arm the location selection. *)
Definition asksForMapClick (newCode : string) : bool :=
  JS.includes "click on the map" (JS.toLowerCase newCode)
  || JS.includes "clic en el mapa" (JS.toLowerCase newCode).

(** What is between the tags of [confirmationBlock]. *)
Definition blockBody (name phone details address : string) : string :=
  JS.LF ++ ("Name:" ++ name) ++ JS.LF ++ ("Phone:" ++ phone) ++ JS.LF
    ++ ("Details:" ++ details) ++ JS.LF ++ ("Address:" ++ address) ++ JS.LF.

(** None of the values contains the label. *)
Definition noLabel (label : string) (values : list string) : Prop :=
  Forall (fun v => JS.includes label v = false) values.

(** The speech events among the events of a turn. *)
Definition isSpeech (ev : Event) : bool :=
  match ev with
  | SpeechCancel | Speak _ => true
  | ModelTurn _ _ => false
  end.

(** The turns a handler may add to the chat. *)
Definition isReplyTurn (m : Message) : Prop :=
  msg_role m = "assistant" \/ msg_role m = "error".

(** A committed record as [addServiceToHistory] leaves it: pending, without
    a price, and with its four fields filled. *)
Definition freshRecord (item : ServiceHistoryItem) : Prop :=
  svc_status item = Pendiente /\ svc_price item = None
  /\ svc_name item <> "" /\ svc_phone item <> "" /\ svc_address item <> ""
  /\ exists details, svc_details item = Some details /\ details <> "".

(** * Further parts of the component *)

(** ** The mute switch *)

(** [_toggleMute]: speech in progress is cancelled when the switch goes on. *)
Definition _toggleMute (a : MapApp) : MapApp * list Event :=
  let a' :=
    {| chatState := chatState a; inputMessage := inputMessage a; messages := messages a;
       currentView := currentView a; currentAdminTab := currentAdminTab a;
       serviceHistory := serviceHistory a;
       isLocationSelectionMode := isLocationSelectionMode a;
       locationSelectionMessage := locationSelectionMessage a;
       isMuted := negb (isMuted a); selectionMarker := selectionMarker a;
       sendMessageHandlerSet := sendMessageHandlerSet a |} in
  (a', if isMuted a' then [SpeechCancel] else []).

Definition mutedApp : MapApp := fst (_toggleMute initialApp).

(** ** The input area *)

(** The [disabled] property of the send button in [render]. *)
Definition sendButtonDisabled (a : MapApp) : bool :=
  negb (isIdle (chatState a)) || (JS.trim (inputMessage a) =? "").

Section InputArea.

Context `{Ext : Collaborators}.

(** [inputKeyDownAction]: Enter without Shift sends what is typed. *)
Definition inputKeyDownAction (a : MapApp) (key : string) (shiftKey : bool) (env : TurnEnv)
  : MapApp * list Event :=
  if (key =? "Enter") && negb shiftKey
  then sendMessageAction a None None env
  else (a, []).

(** The turn [sendMessageAction] renders for a message before the model is
    invoked. *)
Definition renderedTurn (role msg : string) : Message :=
  {| msg_role := role;
     msg_thinkingHidden := false;
     msg_thinkingOpen := false;
     msg_thinking := "";
     msg_text := marked_parse msg |}.

End InputArea.

(** Sample states of the input area. *)
Definition typingApp : MapApp := setInputMessage "  Necesito ayuda " initialApp.

Definition blankSelectingApp : MapApp :=
  setInputMessage "   " (enableLocationSelectionMode initialApp).

Definition unconnectedApp : MapApp :=
  {| chatState := IDLE; inputMessage := "hola"; messages := [];
     currentView := ViewChat; currentAdminTab := TabHistory;
     serviceHistory := [];
     isLocationSelectionMode := false; locationSelectionMessage := "";
     isMuted := false; selectionMarker := false;
     sendMessageHandlerSet := false |}.

(** ** Vocabulary of the service history *)

(** The data of a service that identify the request of the customer. *)
Definition customerData (s : ServiceHistoryItem)
  : string * string * string * string * option string * N :=
  (svc_id s, svc_name s, svc_phone s, svc_address s, svc_details s, svc_timestamp s).

(** A call of one of the three status handlers. *)
Inductive StatusCall :=
  | CallApprove (serviceId : string)
  | CallProcess (serviceId : string)
  | CallFinish (serviceId : string) (promptAnswer : option string).

Definition runStatusCall (a : MapApp) (c : StatusCall) : MapApp :=
  match c with
  | CallApprove serviceId => _handleApprove a serviceId
  | CallProcess serviceId => _handleProcess a serviceId
  | CallFinish serviceId promptAnswer => _handleFinish a serviceId promptAnswer
  end.

Definition calledId (c : StatusCall) : string :=
  match c with
  | CallApprove serviceId | CallProcess serviceId | CallFinish serviceId _ => serviceId
  end.

(** What the button [b] makes of the service of its row, given the answer
    to the price prompt. *)
Definition advanced (b : AdminButton) (promptAnswer : option string)
    (s : ServiceHistoryItem) : ServiceHistoryItem :=
  match b with
  | Aprobar => setStatus Aprobado s
  | BotonEnProceso => setStatus EnProceso s
  | Terminar =>
      match promptAnswer with
      | Some price => if negb (JS.trim price =? "") then setTerminado price s else s
      | None => s
      end
  end.

(** ** The map *)

(** A character of the ISO-8859-1 range by its code. *)
Definition latin1 (n : nat) : string := String (ascii_of_nat n) EmptyString.

(** The label of the marker of a viewed location, lines 783-786. *)
Definition markerLabel (locationQuery : string) : string :=
  if (30 <? String.length locationQuery)%nat
  then String.substring 0 27 locationQuery ++ "..."
  else locationQuery.

Section Map.

(** The positions the map services return, [google.maps.LatLng]; the
    component only passes them on. *)
Variable Position : Type.

Record Marker := {
  marker_position : Position;
  marker_label : string
}.

(** The fields of [MapApp] that belong to the map: whether the API is
    loaded and the map element ([map] in the source), the services and the
    element classes are there, and the elements
    currently on the map.  The route elements are set by the callback of
    the directions request only, which is not part of this development, so
    their presence is all that is kept of them. *)
Record MapSurface := {
  mapInitialized : bool;
  mapError : string;
  mapElement : bool;
  geocoder : bool;
  Marker3DElement : bool;
  Polyline3DElement : bool;
  directionsService : bool;
  marker : option Marker;
  routePolyline : bool;
  originMarker : bool;
  destinationMarker : bool
}.

(** The requests made to the map services and the camera; the fixed
    heading, tilt, range and duration of the camera flight are left out. *)
Inductive MapRequest :=
  | GeocodeAddress (address country : string)
  | GeocodeLocation (location : Position)
  | RouteRequest (origin destination : string)
  | FlyCameraTo (center : Position).

Definition setSelectionMarker (v : bool) (a : MapApp) : MapApp :=
  {| chatState := chatState a; inputMessage := inputMessage a; messages := messages a;
     currentView := currentView a; currentAdminTab := currentAdminTab a;
     serviceHistory := serviceHistory a;
     isLocationSelectionMode := isLocationSelectionMode a;
     locationSelectionMessage := locationSelectionMessage a;
     isMuted := isMuted a; selectionMarker := v;
     sendMessageHandlerSet := sendMessageHandlerSet a |}.

Definition setLocationSelectionMessage (v : string) (a : MapApp) : MapApp :=
  {| chatState := chatState a; inputMessage := inputMessage a; messages := messages a;
     currentView := currentView a; currentAdminTab := currentAdminTab a;
     serviceHistory := serviceHistory a;
     isLocationSelectionMode := isLocationSelectionMode a;
     locationSelectionMessage := v;
     isMuted := isMuted a; selectionMarker := selectionMarker a;
     sendMessageHandlerSet := sendMessageHandlerSet a |}.

Definition setMarker (v : option Marker) (m : MapSurface) : MapSurface :=
  {| mapInitialized := mapInitialized m; mapError := mapError m; mapElement := mapElement m;
     geocoder := geocoder m; Marker3DElement := Marker3DElement m;
     Polyline3DElement := Polyline3DElement m; directionsService := directionsService m;
     marker := v; routePolyline := routePolyline m; originMarker := originMarker m;
     destinationMarker := destinationMarker m |}.

(** [_clearMapElements]: the five elements are removed from the map. *)
Definition _clearMapElements (a : MapApp) (m : MapSurface) : MapApp * MapSurface :=
  (setSelectionMarker false a,
   {| mapInitialized := mapInitialized m; mapError := mapError m; mapElement := mapElement m;
      geocoder := geocoder m; Marker3DElement := Marker3DElement m;
      Polyline3DElement := Polyline3DElement m; directionsService := directionsService m;
      marker := None; routePolyline := false; originMarker := false;
      destinationMarker := false |}).

Context `{Ext : Collaborators}.

(** [addMessage('error', 'Processing error...')] followed by the rendering
    of [raw] into its text element. *)
Definition addErrorMessage (a : MapApp) (raw : string) : MapApp :=
  let '(a1, textElement) := addMessage a "error" "Processing error..." in
  setTextAt textElement (marked_parse raw) a1.

Definition VIEW_NOT_READY : string :=
  "Map is not ready to display locations. Please check configuration.".

Definition DIRECTIONS_NOT_READY : string :=
  "Map is not ready for directions. Please check configuration.".

(** [_handleViewLocation] up to the geocoding request. *)
Definition _handleViewLocation (a : MapApp) (m : MapSurface) (locationQuery : string)
  : MapApp * MapSurface * list MapRequest :=
  if negb (mapInitialized m) || negb (mapElement m) || negb (geocoder m)
     || negb (Marker3DElement m)
  then
    (if mapError m =? "" then addErrorMessage a VIEW_NOT_READY else a, m, [])
  else
    let '(a1, m1) := _clearMapElements a m in
    (a1, m1, [GeocodeAddress locationQuery "MX"]).

(** The text of the turn shown when the geocoding fails, line 793. *)
Definition geocodeFailureMessage (locationQuery status : string) : string :=
  "No pude encontrar la direcci" ++ latin1 243 ++ "n: " ++ JS.QUOTE ++ locationQuery
    ++ JS.QUOTE ++ ". Por favor, aseg" ++ latin1 250
    ++ "rate de que sea una direcci" ++ latin1 243
    ++ "n completa y vuelve a intentarlo. (Error: " ++ status ++ ")".

(** The callback of the geocoding request of [_handleViewLocation];
    [firstResult] is [results[0].geometry.location] when [results] and
    [results[0]] are there. *)
Definition viewLocationCallback (a : MapApp) (m : MapSurface) (locationQuery : string)
    (firstResult : option Position) (status : string)
  : MapApp * MapSurface * list MapRequest :=
  match firstResult with
  | Some location =>
      if (status =? "OK") && mapElement m then
        (a,
         setMarker (Some {| marker_position := location;
                            marker_label := markerLabel locationQuery |}) m,
         [FlyCameraTo location])
      else (addErrorMessage a (geocodeFailureMessage locationQuery status), m, [])
  | None => (addErrorMessage a (geocodeFailureMessage locationQuery status), m, [])
  end.

(** [_handleDirections] up to the directions request. *)
Definition _handleDirections (a : MapApp) (m : MapSurface)
    (originQuery destinationQuery : string)
  : MapApp * MapSurface * list MapRequest :=
  if negb (mapInitialized m) || negb (mapElement m) || negb (directionsService m)
     || negb (Marker3DElement m) || negb (Polyline3DElement m)
  then
    (if mapError m =? "" then addErrorMessage a DIRECTIONS_NOT_READY else a, m, [])
  else
    let '(a1, m1) := _clearMapElements a m in
    (a1, m1, [RouteRequest originQuery destinationQuery]).

(** [handleMapQuery] with the operations it invokes carried out. *)
Definition performMapQuery (a : MapApp) (m : MapSurface) (params : MapParams)
  : MapApp * MapSurface * list MapRequest :=
  fold_left
    (fun st op =>
       let '(a0, m0, requests) := st in
       let '(a1, m1, more) :=
         match op with
         | ViewLocation locationQuery => _handleViewLocation a0 m0 locationQuery
         | Directions originQuery destinationQuery =>
             _handleDirections a0 m0 originQuery destinationQuery
         end in
       (a1, m1, (requests ++ more)%list))
    (handleMapQuery params) (a, m, []).

Definition CONFIRMING_ADDRESS : string :=
  "Confirmando direcci" ++ latin1 243 ++ "n...".

(** [_handleMapClick] up to the reverse geocoding request. *)
Definition _handleMapClick (a : MapApp) (m : MapSurface) (latLng : Position)
  : MapApp * list MapRequest :=
  if negb (isLocationSelectionMode a) then (a, [])
  else if negb (geocoder m) || negb (Marker3DElement m) then (a, [])
  else
    (setSelectionMarker true (setLocationSelectionMessage CONFIRMING_ADDRESS a),
     [GeocodeLocation latLng]).

Definition reverseGeocodeFailureMessage (status : string) : string :=
  "No se pudo determinar la direcci" ++ latin1 243
    ++ "n. Por favor, intente hacer clic de nuevo. (Error: " ++ status ++ ")".

(** The callback of the reverse geocoding request of [_handleMapClick];
    [firstAddress] is [results[0].formatted_address] when [results] and
    [results[0]] are there. *)
Definition reverseGeocodeCallback (a : MapApp) (firstAddress : option string)
    (status : string) (env : TurnEnv) : MapApp * list Event :=
  match firstAddress with
  | Some address =>
      if status =? "OK" then
        sendMessageAction (disableLocationSelectionMode a) (Some address) (Some "user") env
      else
        (setSelectionMarker false
           (setLocationSelectionMessage (reverseGeocodeFailureMessage status) a), [])
  | None =>
      (setSelectionMarker false
         (setLocationSelectionMessage (reverseGeocodeFailureMessage status) a), [])
  end.

End Map.

Arguments marker_position {Position}.
Arguments marker_label {Position}.
Arguments GeocodeAddress {Position}.
Arguments GeocodeLocation {Position}.
Arguments RouteRequest {Position}.
Arguments FlyCameraTo {Position}.

(** A map whose API and services are loaded, with nothing on it. *)
Definition readyMap (Position : Type) : MapSurface Position :=
  {| mapInitialized := true; mapError := ""; mapElement := true; geocoder := true;
     Marker3DElement := true; Polyline3DElement := true; directionsService := true;
     marker := None; routePolyline := false; originMarker := false;
     destinationMarker := false |}.

(** The map before the API is loaded. *)
Definition unloadedMap (Position : Type) : MapSurface Position :=
  {| mapInitialized := false; mapError := ""; mapElement := false; geocoder := false;
     Marker3DElement := false; Polyline3DElement := false; directionsService := false;
     marker := None; routePolyline := false; originMarker := false;
     destinationMarker := false |}.

(** ** The inventory of the admin panel *)

Record InventoryItem := {
  inv_id : string;
  inv_name : string;
  inv_type : string;
  inv_price : string;
  inv_description : string
}.

(** The inventory fields of [MapApp], with what [localStorage] holds under
    the key [llantera-inventory]: [None] when nothing was saved, and
    otherwise the list whose JSON text is stored, which [JSON.parse] gives
    back as it was. *)
Record InventoryState := {
  inventory : list InventoryItem;
  editingInventoryItem : option InventoryItem;
  storedInventory : option (list InventoryItem)
}.

(** The fields of the inventory form as [FormData.get] returns them. *)
Record InventoryForm := {
  form_name : option string;
  form_type : option string;
  form_price : option string;
  form_description : option string
}.

(** [value || fallback] on an optional string. *)
Definition orElse (value : option string) (fallback : string) : string :=
  if JS.truthy value then default "" value else fallback.

Definition _saveInventory (st : InventoryState) : InventoryState :=
  {| inventory := inventory st;
     editingInventoryItem := editingInventoryItem st;
     storedInventory := Some (inventory st) |}.

Definition setInventory (v : list InventoryItem) (st : InventoryState) : InventoryState :=
  {| inventory := v;
     editingInventoryItem := editingInventoryItem st;
     storedInventory := storedInventory st |}.

Definition setEditing (v : option InventoryItem) (st : InventoryState) : InventoryState :=
  {| inventory := inventory st;
     editingInventoryItem := v;
     storedInventory := storedInventory st |}.

Definition DEFAULT_INVENTORY : list InventoryItem :=
  [ {| inv_id := "1";
       inv_name := "Reparaci" ++ latin1 243 ++ "n de Ponchadura";
       inv_type := "Servicio";
       inv_price := "150";
       inv_description :=
         "Reparaci" ++ latin1 243
           ++ "n de llanta ponchada. Tiempo estimado: 20-30 minutos." |};
    {| inv_id := "2";
       inv_name := "Cambio de Llanta";
       inv_type := "Servicio";
       inv_price := "100";
       inv_description :=
         "Montaje de llanta de refacci" ++ latin1 243
           ++ "n. Tiempo estimado: 15-25 minutos. No incluye costo de llanta nueva." |};
    {| inv_id := "3";
       inv_name := "Llanta Nueva - Rin 15";
       inv_type := "Producto";
       inv_price := "1200";
       inv_description :=
         "Precio por una llanta nueva de medida est" ++ latin1 225
           ++ "ndar para Rin 15. Marcas variadas." |} ].

Definition _addDefaultInventoryIfEmpty (st : InventoryState) : InventoryState :=
  match inventory st with
  | [] => _saveInventory (setInventory DEFAULT_INVENTORY st)
  | _ :: _ => st
  end.

Definition _loadInventory (st : InventoryState) : InventoryState :=
  match storedInventory st with
  | Some savedInventory => setInventory savedInventory st
  | None => _addDefaultInventoryIfEmpty st
  end.

Definition getInventory (st : InventoryState) : list InventoryItem := inventory st.

(** The item built from the form, lines 1285-1294; [now] and [random36]
    are [Date.now()] and [Math.random().toString(36)]. *)
Definition submittedItem (st : InventoryState) (form : InventoryForm) (now : N)
    (random36 : string) : InventoryItem :=
  {| inv_id :=
       match editingInventoryItem st with
       | Some editing =>
           if negb (inv_id editing =? "") then inv_id editing
           else JS.decimal now ++ "-" ++ JS.slice 2 random36
       | None => JS.decimal now ++ "-" ++ JS.slice 2 random36
       end;
     inv_name := orElse (form_name form) "";
     inv_type := orElse (form_type form) "Servicio";
     inv_price := orElse (form_price form) "0";
     inv_description := orElse (form_description form) "" |}.

Definition _handleInventorySubmit (st : InventoryState) (form : InventoryForm) (now : N)
    (random36 : string) : InventoryState :=
  let newItem := submittedItem st form now random36 in
  let st1 :=
    match editingInventoryItem st with
    | Some editing =>
        setInventory
          (map (fun item => if inv_id item =? inv_id editing then newItem else item)
             (inventory st)) st
    | None => setInventory (inventory st ++ [newItem]) st
    end in
  setEditing None (_saveInventory st1).

(** [_editInventoryItem]; the filling of the form at the next render is
    left out. *)
Definition _editInventoryItem (st : InventoryState) (itemToEdit : InventoryItem)
  : InventoryState :=
  setEditing (Some itemToEdit) st.

(** [confirmed] is the answer to [confirm]. *)
Definition _deleteInventoryItem (st : InventoryState) (itemId : string) (confirmed : bool)
  : InventoryState :=
  if confirmed
  then _saveInventory
         (setInventory
            (List.filter (fun item => negb (inv_id item =? itemId)) (inventory st)) st)
  else st.

Definition _cancelEdit (st : InventoryState) : InventoryState := setEditing None st.

(** The operations on the inventory, as the admin panel triggers them. *)
Inductive InventoryOp :=
  | OpLoad
  | OpSubmit (form : InventoryForm) (now : N) (random36 : string)
  | OpEdit (itemToEdit : InventoryItem)
  | OpDelete (itemId : string) (confirmed : bool)
  | OpCancelEdit.

Definition runInventoryOp (st : InventoryState) (op : InventoryOp) : InventoryState :=
  match op with
  | OpLoad => _loadInventory st
  | OpSubmit form now random36 => _handleInventorySubmit st form now random36
  | OpEdit itemToEdit => _editInventoryItem st itemToEdit
  | OpDelete itemId confirmed => _deleteInventoryItem st itemId confirmed
  | OpCancelEdit => _cancelEdit st
  end.

(** The inventory fields of a fresh component, over what a former session
    left in [localStorage]. *)
Definition freshInventory (stored : option (list InventoryItem)) : InventoryState :=
  {| inventory := []; editingInventoryItem := None; storedInventory := stored |}.

(** The component after [firstUpdated] and some operations. *)
Definition inventorySession (stored : option (list InventoryItem)) (ops : list InventoryOp)
  : InventoryState :=
  fold_left runInventoryOp ops (_loadInventory (freshInventory stored)).

(** Sample inputs of the map and of the inventory. *)
Definition sampleParams : MapParams :=
  {| location := Some "Mazamitla, Jalisco"; origin := None; destination := None |}.

Definition selectingApp : MapApp := enableLocationSelectionMode initialApp.

Definition sampleItem (id name : string) : InventoryItem :=
  {| inv_id := id; inv_name := name; inv_type := "Servicio"; inv_price := "150";
     inv_description := "" |}.

Definition sampleForm : InventoryForm :=
  {| form_name := Some "Parche"; form_type := None; form_price := Some "";
     form_description := None |}.

Definition editingState : InventoryState :=
  {| inventory := [sampleItem "1" "Ponchadura"; sampleItem "2" "Cambio"];
     editingInventoryItem := Some (sampleItem "2" "Cambio");
     storedInventory := Some [sampleItem "1" "Ponchadura"; sampleItem "2" "Cambio"] |}.

(** * Properties *)

(** ** The tool-name rename *)

Example camelCaseToDash_view :
  camelCaseToDash "viewLocationGoogleMaps" = "view-location-google-maps".
Proof. reflexivity. Qed.

Example camelCaseToDash_acronym :
  camelCaseToDash "getHTTPResponse" = "get-http-response".
Proof. reflexivity. Qed.

Lemma toLowerChar_not_upper (c : ascii) : JS.isUpperCase (JS.toLowerChar c) = false.
Proof. destruct c as [[] [] [] [] [] [] [] []]; reflexivity. Qed.

Lemma toLowerChar_fixed (c : ascii) :
  JS.isUpperCase c = false -> JS.toLowerChar c = c.
Proof. unfold JS.toLowerChar. intros ->. reflexivity. Qed.

Lemma asciiUpper_isUpperCase (c : ascii) :
  JS.isUpperCase c = false -> JS.isAsciiUpper c = false.
Proof. unfold JS.isUpperCase. intros Hc. apply orb_false_elim in Hc. tauto. Qed.

Lemma noUpperCase_toLowerCase (s : string) : JS.noUpperCase (JS.toLowerCase s) = true.
Proof.
  induction s as [|c r IH]; simpl; [reflexivity|].
  rewrite toLowerChar_not_upper, IH. reflexivity.
Qed.

Lemma toLowerCase_fixed (s : string) :
  JS.noUpperCase s = true -> JS.toLowerCase s = s.
Proof.
  induction s as [|c r IH]; simpl; [reflexivity|].
  intros Hs. apply andb_prop in Hs as [Hc Hr].
  apply negb_true_iff in Hc.
  rewrite (toLowerChar_fixed c Hc), (IH Hr). reflexivity.
Qed.

Lemma replaceLowerUpper_fixed (s : string) :
  JS.noUpperCase s = true -> replaceLowerUpper s = s.
Proof.
  induction s as [|c1 s' IH]; [reflexivity|].
  intros Hs. simpl in Hs. apply andb_prop in Hs as [_ Hs'].
  specialize (IH Hs').
  destruct s' as [|c2 r]; [reflexivity|].
  change (replaceLowerUpper (String c1 (String c2 r)))
    with (if JS.isAsciiLower c1 && JS.isAsciiUpper c2
          then String c1 (String "-" (String c2 (replaceLowerUpper r)))
          else String c1 (replaceLowerUpper (String c2 r))).
  simpl in Hs'. apply andb_prop in Hs' as [Hc2 _].
  apply negb_true_iff, asciiUpper_isUpperCase in Hc2.
  rewrite Hc2, andb_false_r, IH. reflexivity.
Qed.

Lemma replaceUpperUpperLower_fixed (s : string) :
  JS.noUpperCase s = true -> replaceUpperUpperLower s = s.
Proof.
  induction s as [|c1 s' IH]; [reflexivity|].
  intros Hs. simpl in Hs. apply andb_prop in Hs as [Hc1 Hs'].
  specialize (IH Hs').
  apply negb_true_iff, asciiUpper_isUpperCase in Hc1.
  destruct s' as [|c2 [|c3 r]]; simpl; simpl in IH;
    rewrite ?Hc1; simpl; rewrite ?IH; reflexivity.
Qed.

(** C4: whatever the string, [camelCaseToDash] returns a string with no
    upper-case character, and applied to its own result it returns that
    result unchanged. *)
Theorem camelCaseToDash_lower_idempotent (str : string) :
  JS.noUpperCase (camelCaseToDash str) = true
  /\ camelCaseToDash (camelCaseToDash str) = camelCaseToDash str.
Proof.
  assert (Hlow : JS.noUpperCase (camelCaseToDash str) = true)
    by apply noUpperCase_toLowerCase.
  split; [exact Hlow|].
  unfold camelCaseToDash at 1.
  rewrite (replaceLowerUpper_fixed _ Hlow), (replaceUpperUpperLower_fixed _ Hlow).
  apply toLowerCase_fixed, Hlow.
Qed.

(** ** The confirmation block grammar *)

Lemma append_nil_r (s : string) : s ++ "" = s.
Proof. induction s as [|c r IH]; simpl; [reflexivity | now rewrite IH]. Qed.

Lemma append_assoc (s1 s2 s3 : string) : (s1 ++ s2) ++ s3 = s1 ++ s2 ++ s3.
Proof. induction s1 as [|c r IH]; simpl; [reflexivity | now rewrite IH]. Qed.

Lemma length_append (s1 s2 : string) :
  String.length (s1 ++ s2) = (String.length s1 + String.length s2)%nat.
Proof. induction s1 as [|c r IH]; simpl; [reflexivity | now rewrite IH]. Qed.

Lemma stripPrefix_append (p r : string) : JS.stripPrefix p (p ++ r) = Some r.
Proof.
  induction p as [|a p IH]; simpl; [reflexivity|].
  now rewrite Ascii.eqb_refl.
Qed.

Lemma stripPrefix_sound (p s r : string) :
  JS.stripPrefix p s = Some r -> s = p ++ r.
Proof.
  revert s. induction p as [|a p IH]; simpl; intros s Hs.
  - now inversion Hs.
  - destruct s as [|b s]; [discriminate|].
    destruct (Ascii.eqb_spec a b) as [->|]; [|discriminate].
    now rewrite (IH _ Hs).
Qed.

Lemma includes_eq (p s : string) :
  JS.includes p s =
  match JS.stripPrefix p s with
  | Some _ => true
  | None =>
      match s with
      | EmptyString => false
      | String _ r => JS.includes p r
      end
  end.
Proof. destruct s; reflexivity. Qed.

Lemma includes_append_r (p u v : string) :
  JS.includes p v = true -> JS.includes p (u ++ v) = true.
Proof.
  intros Hv. induction u as [|c u IH]; [exact Hv|].
  rewrite includes_eq. destruct (JS.stripPrefix p (String c u ++ v)); [reflexivity|].
  exact IH.
Qed.

Lemma includes_prefixed (p v : string) : JS.includes p (p ++ v) = true.
Proof. rewrite includes_eq. now rewrite stripPrefix_append. Qed.

Lemma includes_sound (p s : string) :
  JS.includes p s = true -> exists pre post, s = pre ++ p ++ post.
Proof.
  induction s as [|c s IH]; rewrite includes_eq.
  - destruct (JS.stripPrefix p "") as [r|] eqn:Hp; [|discriminate].
    intros _. exists "", r. exact (stripPrefix_sound _ _ _ Hp).
  - destruct (JS.stripPrefix p (String c s)) as [r|] eqn:Hp.
    + intros _. exists "", r. exact (stripPrefix_sound _ _ _ Hp).
    + intros Hs. destruct (IH Hs) as (pre & post & ->).
      exists (String c pre), post. reflexivity.
Qed.

Lemma lazyUntil_eq (pat s : string) :
  lazyUntil pat s =
  match JS.stripPrefix pat s with
  | Some post => Some (EmptyString, post)
  | None =>
      match s with
      | EmptyString => None
      | String c r =>
          match lazyUntil pat r with
          | Some (body, post) => Some (String c body, post)
          | None => None
          end
      end
  end.
Proof. destruct s; reflexivity. Qed.

Lemma matchConfirmation_eq (s : string) :
  matchConfirmation s =
  match
    match JS.stripPrefix OPEN_TAG s with
    | Some after =>
        match lazyUntil CLOSE_TAG after with
        | Some (body, post) => Some (EmptyString, body, post)
        | None => None
        end
    | None => None
    end
  with
  | Some m => Some m
  | None =>
      match s with
      | EmptyString => None
      | String c r =>
          match matchConfirmation r with
          | Some (pre, body, post) => Some (String c pre, body, post)
          | None => None
          end
      end
  end.
Proof. destruct s; reflexivity. Qed.

(** What the engine reports is a delimited segment. *)
Lemma lazyUntil_sound (pat s body post : string) :
  lazyUntil pat s = Some (body, post) -> s = body ++ pat ++ post.
Proof.
  revert body post. induction s as [|c r IH]; intros body post;
    rewrite lazyUntil_eq.
  - destruct (JS.stripPrefix pat "") as [v|] eqn:Hp; [|discriminate].
    intros [= <- <-]. simpl. now apply stripPrefix_sound.
  - destruct (JS.stripPrefix pat (String c r)) as [v|] eqn:Hp.
    + intros [= <- <-]. simpl. now apply stripPrefix_sound.
    + destruct (lazyUntil pat r) as [[b q]|]; [|discriminate].
      intros [= <- <-]. simpl. now rewrite (IH b q eq_refl).
Qed.

Lemma matchConfirmation_sound (s pre body post : string) :
  matchConfirmation s = Some (pre, body, post) -> isBlock s pre body post.
Proof.
  unfold isBlock. revert pre body post.
  assert (Hhere : forall s pre body post,
    match JS.stripPrefix OPEN_TAG s with
    | Some after =>
        match lazyUntil CLOSE_TAG after with
        | Some (body, post) => Some (EmptyString, body, post)
        | None => None
        end
    | None => None
    end = Some (pre, body, post) -> s = pre ++ OPEN_TAG ++ body ++ CLOSE_TAG ++ post).
  { intros s0 pre body post.
    destruct (JS.stripPrefix OPEN_TAG s0) as [after|] eqn:Ho; [|discriminate].
    destruct (lazyUntil CLOSE_TAG after) as [[b q]|] eqn:Hc; [|discriminate].
    intros [= <- <- <-].
    apply stripPrefix_sound in Ho. apply lazyUntil_sound in Hc.
    now rewrite Ho, Hc. }
  induction s as [|c r IH]; intros pre body post; rewrite matchConfirmation_eq.
  - destruct (match JS.stripPrefix OPEN_TAG "" with Some _ => _ | None => _ end)
      as [m|] eqn:Hh; [|discriminate].
    intros [= ->]. now apply Hhere.
  - destruct (match JS.stripPrefix OPEN_TAG (String c r) with Some _ => _ | None => _ end)
      as [m|] eqn:Hh.
    + intros [= ->]. now apply Hhere.
    + destruct (matchConfirmation r) as [[[p b] q]|]; [|discriminate].
      intros [= <- <- <-]. simpl. now rewrite (IH p b q eq_refl).
Qed.

(** Where there is a delimited segment, the engine finds a match. *)
Lemma lazyUntil_complete (pat body post : string) :
  lazyUntil pat (body ++ pat ++ post) <> None.
Proof.
  induction body as [|c r IH]; rewrite lazyUntil_eq.
  - simpl. now rewrite stripPrefix_append.
  - destruct (JS.stripPrefix pat (String c r ++ pat ++ post)); [discriminate|].
    simpl. destruct (lazyUntil pat (r ++ pat ++ post)) as [[b q]|];
      [discriminate | contradiction].
Qed.

Lemma matchConfirmation_complete (s pre body post : string) :
  isBlock s pre body post -> matchConfirmation s <> None.
Proof.
  unfold isBlock. intros ->.
  induction pre as [|c r IH]; rewrite matchConfirmation_eq.
  - change ("" ++ OPEN_TAG ++ body ++ CLOSE_TAG ++ post)
      with (OPEN_TAG ++ body ++ CLOSE_TAG ++ post).
    rewrite stripPrefix_append.
    destruct (lazyUntil CLOSE_TAG (body ++ CLOSE_TAG ++ post)) as [[b q]|] eqn:Hc;
      [discriminate|].
    now apply lazyUntil_complete in Hc.
  - destruct (match JS.stripPrefix OPEN_TAG _ with Some _ => _ | None => _ end);
      [discriminate|].
    change (String c r ++ OPEN_TAG ++ body ++ CLOSE_TAG ++ post)
      with (String c (r ++ OPEN_TAG ++ body ++ CLOSE_TAG ++ post)).
    cbv iota.
    destruct (matchConfirmation (r ++ OPEN_TAG ++ body ++ CLOSE_TAG ++ post))
      as [[[p b] q]|]; [discriminate | congruence].
Qed.

(** C3: a text with no delimited segment is returned unchanged, and from a
    text with one delimited segment exactly that segment is removed, the
    characters before and after it staying as they are. *)
Theorem redactConfirmation_exact (s : string) :
  atMostOneBlock s ->
  (forall pre body post, isBlock s pre body post -> redactConfirmation s = pre ++ post)
  /\ ((forall pre body post, ~ isBlock s pre body post) -> redactConfirmation s = s).
Proof.
  intros Huniq. unfold redactConfirmation. split.
  - intros pre body post Hb.
    destruct (matchConfirmation s) as [[[p b] q]|] eqn:Hm.
    + apply matchConfirmation_sound in Hm.
      destruct (Huniq _ _ _ _ _ _ Hm Hb) as (-> & _ & ->). reflexivity.
    + now apply matchConfirmation_complete in Hb.
  - intros Hnone.
    destruct (matchConfirmation s) as [[[p b] q]|] eqn:Hm; [|reflexivity].
    apply matchConfirmation_sound in Hm. now apply Hnone in Hm.
Qed.

Lemma splitsAt_eq (pat s : string) :
  splitsAt pat s =
  ((match JS.stripPrefix pat s with
    | Some v => [(EmptyString, v)]
    | None => []
    end)
   ++ match s with
      | EmptyString => []
      | String c r => map (fun uv => (String c (fst uv), snd uv)) (splitsAt pat r)
      end)%list.
Proof. destruct s; reflexivity. Qed.

Lemma splitsAt_complete (pat u v : string) :
  In (u, v) (splitsAt pat (u ++ pat ++ v)).
Proof.
  induction u as [|c u IH]; rewrite splitsAt_eq; apply in_or_app.
  - left. change ("" ++ pat ++ v) with (pat ++ v).
    rewrite stripPrefix_append. now left.
  - right. change (String c u ++ pat ++ v) with (String c (u ++ pat ++ v)).
    cbv iota. apply in_map_iff. now exists (u, v).
Qed.

Lemma blocks_complete (s pre body post : string) :
  isBlock s pre body post -> In (pre, body, post) (blocks s).
Proof.
  unfold isBlock, blocks. intros ->. apply in_flat_map.
  exists (pre, body ++ CLOSE_TAG ++ post). split.
  - apply splitsAt_complete.
  - apply in_map_iff. exists (body, post). split; [reflexivity|].
    apply splitsAt_complete.
Qed.

Lemma atMostOneBlock_blocks (s : string) :
  (length (blocks s) <= 1)%nat -> atMostOneBlock s.
Proof.
  intros Hlen pre body post pre' body' post' H1 H2.
  apply blocks_complete in H1, H2.
  destruct (blocks s) as [|x [|y l]]; simpl in *; [tauto| |lia].
  destruct H1 as [H1|[]], H2 as [H2|[]].
  rewrite H1 in H2. now inversion H2.
Qed.

Lemma redactConfirmation_exact_witness :
  atMostOneBlock "Listo. <service_confirmation>Name: Juan</service_confirmation> Gracias."
  /\ redactConfirmation
       "Listo. <service_confirmation>Name: Juan</service_confirmation> Gracias."
     = "Listo.  Gracias.".
Proof.
  assert (Hone : atMostOneBlock
            "Listo. <service_confirmation>Name: Juan</service_confirmation> Gracias.")
    by (apply atMostOneBlock_blocks; vm_compute; lia).
  split; [exact Hone|].
  exact (proj1 (redactConfirmation_exact _ Hone) "Listo. " "Name: Juan" " Gracias." eq_refl).
Defined.

Example redactConfirmation_open_block :
  redactConfirmation "Un momento <service_confirmation>Name: Ju"
  = "Un momento <service_confirmation>Name: Ju".
Proof. reflexivity. Qed.

(** ** The map-query router *)

Lemma present_truthy (o : option string) (v : string) :
  present o v -> JS.truthy o = true /\ default "" o = v.
Proof.
  intros [-> Hv]. simpl. split; [|reflexivity].
  now destruct (String.eqb_spec v "").
Qed.

(** C1: a present location is viewed; failing that, a present origin and
    destination give a route; failing that, a present destination is viewed
    as a location; failing that, no operation is invoked. *)
Theorem handleMapQuery_dispatch (params : MapParams) :
  (forall loc, present (location params) loc ->
     handleMapQuery params = [ViewLocation loc])
  /\ (forall o d, absent (location params) ->
        present (origin params) o -> present (destination params) d ->
        handleMapQuery params = [Directions o d])
  /\ (forall d, absent (location params) -> absent (origin params) ->
        present (destination params) d ->
        handleMapQuery params = [ViewLocation d])
  /\ (absent (location params) -> absent (destination params) ->
        handleMapQuery params = []).
Proof.
  unfold handleMapQuery, absent. repeat split.
  - intros loc [Ht Hd]%present_truthy. now rewrite Ht, Hd.
  - intros o d Hl [Ho Hod]%present_truthy [Hd Hdd]%present_truthy.
    now rewrite Hl, Ho, Hd, Hod, Hdd.
  - intros d Hl Ho [Hd Hdd]%present_truthy. now rewrite Hl, Ho, Hd, Hdd.
  - intros Hl Hd. rewrite Hl, Hd. now rewrite andb_false_r.
Qed.

Lemma handleMapQuery_dispatch_witness :
  handleMapQuery {| location := Some "Mazamitla, Jalisco"; origin := None;
                    destination := Some "B" |}
    = [ViewLocation "Mazamitla, Jalisco"]
  /\ handleMapQuery {| location := None; origin := Some "A"; destination := Some "B" |}
    = [Directions "A" "B"]
  /\ handleMapQuery {| location := Some ""; origin := None; destination := Some "B" |}
    = [ViewLocation "B"]
  /\ handleMapQuery {| location := None; origin := Some "A"; destination := None |}
    = [].
Proof.
  split; [|split; [|split]].
  - apply (proj1 (handleMapQuery_dispatch _)). split; [reflexivity | discriminate].
  - apply (proj1 (proj2 (handleMapQuery_dispatch _))); try reflexivity;
      (split; [reflexivity | discriminate]).
  - apply (proj1 (proj2 (proj2 (handleMapQuery_dispatch _)))); try reflexivity.
    split; [reflexivity | discriminate].
  - apply (proj2 (proj2 (proj2 (handleMapQuery_dispatch _)))); reflexivity.
Defined.

(** ** The send action *)

Section SendAction.

Context `{Ext : Collaborators}.

(** C5: while the chat state is not [IDLE] the send action changes nothing:
    the state, with its message list and input field, is the one it was
    given, and no event, hence no model turn, is produced. *)
Theorem sendMessageAction_busy (a : MapApp) (message role : option string)
    (env : TurnEnv) :
  chatState a <> IDLE ->
  sendMessageAction a message role env = (a, []).
Proof.
  intros Hbusy. unfold sendMessageAction.
  destruct (chatState a); [contradiction | reflexivity..].
Qed.

(** C10: with the chat idle and no message argument, the typed input
    [soy administrador], in any case and with surrounding blanks, opens the
    admin panel on the history tab, clears the input field, leaves the
    message list as it is and invokes no model turn. *)
Theorem sendMessageAction_admin_keyword (a : MapApp) (message role : option string)
    (env : TurnEnv) :
  chatState a = IDLE ->
  absent message ->
  JS.toLowerCase (JS.trim (inputMessage a)) = ADMIN_KEYWORD ->
  let result := sendMessageAction a message role env in
  currentView (fst result) = ViewAdmin
  /\ currentAdminTab (fst result) = TabHistory
  /\ inputMessage (fst result) = ""
  /\ messages (fst result) = messages a
  /\ chatState (fst result) = IDLE
  /\ invocations (snd result) = [].
Proof.
  intros Hidle Hmsg Hkey. unfold absent in Hmsg.
  unfold sendMessageAction. rewrite Hidle, Hmsg. cbn [isIdle negb andb].
  rewrite andb_true_r.
  destruct (isLocationSelectionMode a); cbn [inputMessage disableLocationSelectionMode];
    rewrite Hkey, String.eqb_refl; cbn; repeat split; assumption.
Qed.

End SendAction.

(** ** The turn handler *)

Lemma extends_refl (base : list Message) : extends base base.
Proof. exists []. split; [now rewrite app_nil_r | constructor]. Qed.

Lemma extends_snoc (base ms : list Message) (m : Message) :
  extends base ms -> isAssistant m -> extends base (ms ++ [m]).
Proof.
  intros (added & -> & Hadded) Hm. exists (added ++ [m])%list. split.
  - now rewrite app_assoc.
  - apply Forall_app. split; [assumption | now constructor].
Qed.

Lemma extends_alter (base ms : list Message) (i : nat) (f : Message -> Message) :
  extends base ms -> (length base <= i)%nat ->
  (forall m, msg_role (f m) = msg_role m) ->
  extends base (alter f i ms).
Proof.
  intros (added & -> & Hadded) Hi Hf.
  exists (alter f (i - length base) added). split.
  - now apply alter_app_r_alt.
  - apply Forall_alter; [assumption|].
    intros m _ Hm. unfold isAssistant in *. now rewrite Hf.
Qed.

Lemma extends_length (base ms : list Message) :
  extends base ms -> (length base <= length ms)%nat.
Proof. intros (added & -> & _). rewrite length_app. lia. Qed.

Lemma extends_In (base ms : list Message) (m : Message) :
  extends base ms -> In m base -> In m ms.
Proof. intros (added & -> & _) Hm. apply in_or_app. now left. Qed.

Lemma textAt_setTextAt (i : nat) (v : string) (a : MapApp) :
  (i < length (messages a))%nat -> textAt i (setTextAt i v a) = v.
Proof.
  intros Hi. unfold textAt, setTextAt, alterMessage. cbn [messages setMessages].
  rewrite list_lookup_alter_eq.
  destruct (lookup_lt_is_Some_2 (messages a) i Hi) as [m ->]. reflexivity.
Qed.

Lemma textAt_alter_keep (i : nat) (f : Message -> Message) (a : MapApp) :
  (forall m, msg_text (f m) = msg_text m) ->
  textAt i (alterMessage i f a) = textAt i a.
Proof.
  intros Hf. unfold textAt, alterMessage. cbn [messages setMessages].
  rewrite list_lookup_alter_eq.
  destruct (messages a !! i) as [m|]; [apply Hf | reflexivity].
Qed.

Section TurnProperties.

Context `{Ext : Collaborators}.

Lemma openTurn_invariant (a : MapApp) :
  turnInvariant a {| app := fst (openTurn a); newCode := ""; thoughtAccumulator := "" |}.
Proof.
  unfold turnInvariant, openTurn, addMessage, setTextAt, alterMessage.
  cbn [fst app messages setMessages setChatState serviceHistory].
  split; [|split; [|reflexivity]].
  - apply extends_alter; [|lia|reflexivity].
    apply extends_snoc; [apply extends_refl | reflexivity].
  - rewrite length_alter, length_app. simpl. lia.
Qed.

Lemma explainFunctionCall_invariant (a : MapApp) (t : Turn) (fc : FunctionCall) :
  turnInvariant a t -> turnInvariant a (explainFunctionCall t fc).
Proof.
  intros (Hext & Hlen & Hsvc).
  unfold turnInvariant, explainFunctionCall, addMessage, setTextAt, alterMessage.
  cbn [fst app messages setMessages setChatState serviceHistory].
  split; [|split; [|assumption]].
  - apply extends_alter; [|lia|reflexivity].
    apply extends_snoc; [assumption | reflexivity].
  - rewrite length_alter, length_app. simpl. lia.
Qed.

Lemma processPart_invariant (a : MapApp) (t : Turn) (part : Part) :
  turnInvariant a t -> turnInvariant a (processPart (length (messages a)) t part).
Proof.
  intros Ht. unfold processPart.
  assert (Ht1 : turnInvariant a
                  match part_functionCall part with
                  | Some fc => explainFunctionCall t fc
                  | None => t
                  end).
  { destruct (part_functionCall part); [now apply explainFunctionCall_invariant | assumption]. }
  destruct Ht1 as (Hext & Hlen & Hsvc).
  destruct (JS.truthy (part_thought part)); [|destruct (JS.truthy (part_text part))];
    unfold turnInvariant, setTextAt, alterMessage;
    cbn [app messages setMessages setChatState serviceHistory];
    rewrite ?length_alter; repeat split; try assumption;
    apply extends_alter; solve [assumption | lia | reflexivity].
Qed.

Lemma streamed_invariant (a : MapApp) (ps : list Part) :
  turnInvariant a (streamed a ps).
Proof.
  unfold streamed.
  change (openTurn a) with (fst (openTurn a), length (messages a)). cbv iota beta.
  generalize (openTurn_invariant a).
  generalize {| app := fst (openTurn a); newCode := ""; thoughtAccumulator := "" |}.
  induction ps as [|p ps IH]; intros t Ht; simpl; [assumption|].
  apply IH. now apply processPart_invariant.
Qed.

Lemma settle_messages (a : MapApp) (t : Turn) (env : TurnEnv) :
  turnInvariant a t ->
  extends (messages a) (messages (settle (length (messages a)) t env))
  /\ (length (messages a) < length (messages (settle (length (messages a)) t env)))%nat
  /\ textAt (length (messages a)) (settle (length (messages a)) t env)
     = textAt (length (messages a)) (app t).
Proof.
  intros (Hext & Hlen & Hsvc).
  assert (Hmsgs :
    messages (settle (length (messages a)) t env)
    = alter (closeThinking (thoughtAccumulator t)) (length (messages a)) (messages (app t))).
  { unfold settle, alterMessage. cbn [messages setMessages].
    destruct (_ || _); destruct (extractConfirmation (newCode t)); reflexivity. }
  assert (Hrole : forall m, msg_role (closeThinking (thoughtAccumulator t) m) = msg_role m)
    by (intros m; unfold closeThinking; now destruct (msg_thinkingOpen m)).
  assert (Htext : forall m, msg_text (closeThinking (thoughtAccumulator t) m) = msg_text m)
    by (intros m; unfold closeThinking; now destruct (msg_thinkingOpen m)).
  rewrite Hmsgs. split; [|split].
  - apply extends_alter; [assumption | lia | assumption].
  - now rewrite length_alter.
  - unfold textAt. rewrite Hmsgs, list_lookup_alter_eq.
    destruct (messages (app t) !! length (messages a)) as [m|]; [apply Htext | reflexivity].
Qed.

End TurnProperties.

Section TurnTheorems.

Context `{Ext : Collaborators}.

Lemma eqb_append_prefix (p x y : string) : (p ++ x =? p ++ y) = (x =? y).
Proof.
  induction p as [|c p IH]; [reflexivity|].
  simpl. now rewrite Ascii.eqb_refl.
Qed.

Lemma hasClass_user (el : Message) :
  hasClass "role-user" el = (msg_role el =? "user").
Proof.
  unfold hasClass. change ("role-user" =? "turn") with false.
  change "role-user" with ("role-" ++ "user").
  rewrite eqb_append_prefix. apply String.eqb_sym.
Qed.

Lemma hasClass_error (el : Message) :
  hasClass "role-error" el = isErrorTurn el.
Proof.
  unfold hasClass, isErrorTurn. change ("role-error" =? "turn") with false.
  change "role-error" with ("role-" ++ "error").
  rewrite eqb_append_prefix. apply String.eqb_sym.
Qed.

Lemma chatHistory_projected (ms : list Message) :
  chatHistory ms = map projected (List.filter (fun el => negb (isErrorTurn el)) ms).
Proof.
  unfold chatHistory. induction ms as [|m ms IH]; [reflexivity|].
  simpl. rewrite hasClass_error.
  destruct (isErrorTurn m); simpl; [assumption|].
  rewrite IH. f_equal. unfold projectMessage, projected.
  rewrite hasClass_user. now destruct (msg_role m =? "user").
Qed.

Lemma openTurn_messages (a : MapApp) :
  messages (fst (openTurn a))
  = (messages a ++ [ {| msg_role := "assistant"; msg_thinkingHidden := false;
                        msg_thinkingOpen := false; msg_thinking := "";
                        msg_text := "..." |} ])%list.
Proof.
  unfold openTurn, addMessage, setTextAt, alterMessage.
  cbn [fst messages setMessages setChatState].
  rewrite alter_app_r_alt by lia. rewrite Nat.sub_diag. reflexivity.
Qed.

Lemma invocations_spokenText (t : Turn) : invocations (spokenText t) = [].
Proof.
  unfold spokenText, speakMessage.
  repeat match goal with |- context [if ?b then _ else _] => destruct b end;
    reflexivity.
Qed.

Lemma sendMessageHandler_eq (a : MapApp) (input role : string) (env : TurnEnv) :
  sendMessageHandler a input role env =
  let idx := length (messages a) in
  let t := streamed a (parts (stream env)) in
  let r :=
    match ending (stream env) with
    | Completed => completeTurn idx t env
    | Failed e => (reportError (app t) e, [])
    end in
  (setChatState IDLE (fst r),
   ModelTurn (removelast (chatHistory (messages (fst (openTurn a))))) input :: snd r).
Proof.
  unfold sendMessageHandler.
  change (openTurn a) with (fst (openTurn a), length (messages a)). cbv iota beta zeta.
  now destruct (ending (stream env)).
Qed.

Lemma sendMessageHandler_invocations (a : MapApp) (input role : string) (env : TurnEnv) :
  invocations (snd (sendMessageHandler a input role env))
  = [ (map projected (List.filter (fun el => negb (isErrorTurn el)) (messages a)),
       input) ].
Proof.
  rewrite sendMessageHandler_eq. cbv zeta. cbn [snd invocations].
  rewrite openTurn_messages, chatHistory_projected, List.filter_app, List.map_app.
  cbn [List.filter isErrorTurn msg_role String.eqb Ascii.eqb Bool.eqb negb map].
  rewrite removelast_last.
  destruct (ending (stream env)); cbn [snd completeTurn invocations];
    now rewrite ?invocations_spokenText.
Qed.

(** C7: of the turns rendered when the history is built, the last one being
    the reply under composition, the history handed to the model leaves out
    that last turn and every error turn, and gives each remaining turn as
    the role [user] for a user turn and [model] for any other, with its
    displayed text. *)
Theorem chatHistory_for_model (a : MapApp) (input role : string) (env : TurnEnv) :
  let rendered := messages (fst (openTurn a)) in
  invocations (snd (sendMessageHandler a input role env))
  = [ (map projected
         (List.filter (fun el => negb (isErrorTurn el)) (removelast rendered)),
       input) ].
Proof.
  cbv zeta. rewrite openTurn_messages, removelast_last.
  apply sendMessageHandler_invocations.
Qed.

Lemma reportError_messages (a : MapApp) (e : Thrown) :
  messages (reportError a e) = (messages a ++ [errorTurn e])%list.
Proof.
  unfold reportError, addMessage, setTextAt, alterMessage.
  cbn [messages setMessages].
  rewrite alter_app_r_alt by lia. rewrite Nat.sub_diag. reflexivity.
Qed.

(** C6: the handler always leaves the chat state [IDLE] and invokes the
    model once.  When the model interaction throws, an [Error] with the
    message [failure] or another value whose [String] is [failure], the
    model is invoked with the message of the turn and not again, and what
    the turn added to the chat is assistant turns followed by one turn of
    role [error], whose text is the rendering of [Error: ] followed by
    [failure], a text that contains [failure]. *)
Theorem sendMessageHandler_failure_and_idle (a : MapApp) (input role : string)
    (env : TurnEnv) :
  let result := sendMessageHandler a input role env in
  chatState (fst result) = IDLE
  /\ length (invocations (snd result)) = 1%nat
  /\ (forall e failure,
        ending (stream env) = Failed e ->
        e = ThrownError failure \/ e = ThrownValue failure ->
        (exists added,
            messages (fst result)
            = (messages a ++ added
                 ++ [ {| msg_role := "error";
                         msg_thinkingHidden := false;
                         msg_thinkingOpen := false;
                         msg_thinking := "";
                         msg_text := marked_parse ("Error: " ++ failure) |} ])%list
            /\ Forall isAssistant added)
        /\ JS.includes failure ("Error: " ++ failure) = true
        /\ exists history, snd result = [ModelTurn history input]).
Proof.
  cbv zeta. split; [|split].
  - rewrite sendMessageHandler_eq. reflexivity.
  - now rewrite sendMessageHandler_invocations.
  - intros e failure He Hthrown.
    assert (Hmsg : errorMessage e = failure) by (destruct Hthrown; subst; reflexivity).
    split; [|split].
    + rewrite sendMessageHandler_eq. cbv zeta. rewrite He.
      cbn [fst messages setChatState]. rewrite reportError_messages.
      destruct (streamed_invariant a (parts (stream env))) as ((added & -> & Hadded) & _).
      exists added. split; [|assumption].
      unfold errorTurn. rewrite Hmsg. now rewrite app_assoc.
    + apply (includes_append_r failure "Error: ").
      rewrite <- (append_nil_r failure) at 2. apply includes_prefixed.
    + rewrite sendMessageHandler_eq. cbv zeta. rewrite He. cbn [snd]. eauto.
Qed.

End TurnTheorems.

Section CompletionNotice.

Context `{Ext : Collaborators}.

Lemma occursIn_includes (p s : string) : occursIn p s -> JS.includes p s = true.
Proof.
  intros (pre & post & ->). apply includes_append_r, includes_prefixed.
Qed.

Lemma mentionsFunctionCall_text (m : Message) :
  occursIn "Calling function:" (msg_text m) -> mentionsFunctionCall m.
Proof.
  intros (pre & post & Htext). apply includes_sound.
  unfold elInnerHTML. rewrite Htext, !append_assoc.
  repeat (first [apply includes_prefixed | apply includes_append_r]).
Qed.

Lemma hasFunctionCallMessage_mentions (ms : list Message) :
  hasFunctionCallMessage ms = true <-> Exists mentionsFunctionCall ms.
Proof.
  unfold hasFunctionCallMessage. rewrite existsb_exists, List.Exists_exists.
  split; intros (m & Hin & Hm); exists m; (split; [assumption|]).
  - now apply includes_sound.
  - now apply occursIn_includes.
Qed.

(** The explanation of a function call is a turn of its own, after the
    placeholder of the reply, and stays as it is to the end of the turn. *)
Lemma explainFunctionCall_mentions (idx : nat) (t : Turn) (fc : FunctionCall) :
  rendersExplanations ->
  (idx < length (messages (app t)))%nat ->
  exists j m, j <> idx /\ messages (app (explainFunctionCall t fc)) !! j = Some m
              /\ mentionsFunctionCall m.
Proof.
  intros Hrenders Hlen. exists (length (messages (app t))).
  eexists. split; [lia|]. split.
  - unfold explainFunctionCall, addMessage, setTextAt, alterMessage.
    cbn [fst app messages setMessages]. rewrite list_lookup_alter_eq.
    rewrite lookup_app_r by lia. rewrite Nat.sub_diag. reflexivity.
  - apply mentionsFunctionCall_text. cbn [msg_text setText]. apply Hrenders.
Qed.

Lemma explainFunctionCall_keeps (idx : nat) (t : Turn) (fc : FunctionCall) :
  (exists j m, j <> idx /\ messages (app t) !! j = Some m /\ mentionsFunctionCall m) ->
  exists j m, j <> idx /\ messages (app (explainFunctionCall t fc)) !! j = Some m
              /\ mentionsFunctionCall m.
Proof.
  intros (j & m & Hj & Hm & Hshown). exists j, m. split; [assumption|].
  split; [|assumption].
  pose proof (lookup_lt_Some _ _ _ Hm) as Hlt.
  unfold explainFunctionCall, addMessage, setTextAt, alterMessage.
  cbn [fst app messages setMessages].
  rewrite list_lookup_alter_ne by lia. now rewrite lookup_app_l.
Qed.

Lemma processPart_mentions (a : MapApp) (t : Turn) (part : Part) :
  rendersExplanations -> turnInvariant a t ->
  callsFunction part
  \/ (exists j m, j <> length (messages a) /\ messages (app t) !! j = Some m
                  /\ mentionsFunctionCall m) ->
  exists j m, j <> length (messages a)
              /\ messages (app (processPart (length (messages a)) t part)) !! j = Some m
              /\ mentionsFunctionCall m.
Proof.
  intros Hrenders (_ & Hlen & _) Hcase. unfold processPart.
  assert (Ht1 : exists j m, j <> length (messages a)
                  /\ messages (app match part_functionCall part with
                                   | Some fc => explainFunctionCall t fc
                                   | None => t
                                   end) !! j = Some m
                  /\ mentionsFunctionCall m).
  { unfold callsFunction in Hcase. destruct (part_functionCall part) as [fc|].
    - destruct Hcase as [_ | Hkept];
        [now apply explainFunctionCall_mentions | now apply explainFunctionCall_keeps].
    - destruct Hcase as [Hcalls | Hkept]; [now contradict Hcalls | assumption]. }
  destruct Ht1 as (j & m & Hj & Hm & Hshown). exists j, m.
  split; [assumption|]. split; [|assumption].
  destruct (JS.truthy (part_thought part)); [|destruct (JS.truthy (part_text part))];
    unfold setTextAt, alterMessage; cbn [app messages setMessages setChatState];
    rewrite ?list_lookup_alter_ne by congruence; assumption.
Qed.

Lemma streamed_mentions (a : MapApp) (ps : list Part) :
  rendersExplanations -> Exists callsFunction ps ->
  exists j m, j <> length (messages a) /\ messages (app (streamed a ps)) !! j = Some m
              /\ mentionsFunctionCall m.
Proof.
  intros Hrenders Hcalls. unfold streamed.
  change (openTurn a) with (fst (openTurn a), length (messages a)). cbv iota beta.
  assert (Hcase : Exists callsFunction ps
                  \/ exists j m, j <> length (messages a)
                       /\ messages (app {| app := fst (openTurn a); newCode := "";
                                           thoughtAccumulator := "" |}) !! j = Some m
                       /\ mentionsFunctionCall m) by now left.
  clear Hcalls. revert Hcase.
  generalize (openTurn_invariant a).
  generalize {| app := fst (openTurn a); newCode := ""; thoughtAccumulator := "" |}.
  induction ps as [|p ps IH]; intros t Ht Hcase; simpl.
  - destruct Hcase as [Hnone | Hkept]; [inversion Hnone | assumption].
  - apply IH; [now apply processPart_invariant|].
    destruct Hcase as [Hcalls | Hkept].
    + inversion Hcalls as [? ? Hp | ? ? Hrest]; subst.
      * right. apply processPart_mentions; auto.
      * now left.
    + right. apply processPart_mentions; auto.
Qed.

Lemma settle_mentions (a : MapApp) (t : Turn) (env : TurnEnv) :
  (exists j m, j <> length (messages a) /\ messages (app t) !! j = Some m
               /\ mentionsFunctionCall m) ->
  Exists mentionsFunctionCall (messages (settle (length (messages a)) t env)).
Proof.
  intros (j & m & Hj & Hm & Hshown). apply List.Exists_exists. exists m.
  split; [|assumption]. apply list_elem_of_In, (list_elem_of_lookup_2 _ j).
  assert (Hmsgs :
    messages (settle (length (messages a)) t env)
    = alter (closeThinking (thoughtAccumulator t)) (length (messages a)) (messages (app t))).
  { unfold settle, alterMessage. cbn [messages setMessages].
    destruct (_ || _); destruct (extractConfirmation (newCode t)); reflexivity. }
  rewrite Hmsgs. now rewrite list_lookup_alter_ne by congruence.
Qed.

(** Lines 253-265 on an output that is the placeholder or blank. *)
Lemma completionNotice_outcome (idx : nat) (before : MapApp) :
  (idx < length (messages before))%nat ->
  JS.trim (textAt idx before) = "..." \/ JS.trim (textAt idx before) = "" ->
  if hasFunctionCallMessage (messages before)
  then outputLeftEmpty idx before (completionNotice idx before)
  else textAt idx (completionNotice idx before) = marked_parse "Done.".
Proof.
  intros Hlen Hshown. unfold completionNotice, outputLeftEmpty. cbv zeta.
  destruct (hasFunctionCallMessage (messages before)); cbn [negb];
    destruct Hshown as [Hs | Hs]; rewrite Hs;
    cbn [String.eqb Ascii.eqb Bool.eqb orb String.length Nat.eqb];
    rewrite ?textAt_setTextAt by assumption; auto.
Qed.

(** C8, as the code has it.  When the stream completes with the output
    still the placeholder or blank: the notice [Done.] is rendered if no
    turn on display, of this turn or of an earlier one, shows
    [Calling function:]; the output is left empty if a function call was
    explained during the turn, the renderer keeping the first line of an
    explanation, and also if a turn on display before this one shows
    [Calling function:].  The turns on display before the turn started are
    among those searched. *)
Theorem completion_notice_rule (a : MapApp) (input role : string) (env : TurnEnv) :
  ending (stream env) = Completed ->
  let idx := length (messages a) in
  let before := settle idx (streamed a (parts (stream env))) env in
  let final := fst (sendMessageHandler a input role env) in
  JS.trim (textAt idx before) = "..." \/ JS.trim (textAt idx before) = "" ->
  ((forall m, In m (messages before) -> ~ mentionsFunctionCall m) ->
     textAt idx final = marked_parse "Done.")
  /\ (rendersExplanations -> Exists callsFunction (parts (stream env)) ->
        outputLeftEmpty idx before final)
  /\ (Exists mentionsFunctionCall (messages a) -> outputLeftEmpty idx before final)
  /\ (forall m, In m (messages a) -> In m (messages before)).
Proof.
  intros Hend idx before final Hshown.
  destruct (settle_messages a _ env (streamed_invariant a (parts (stream env))))
    as (Hext & Hlen & _).
  fold idx in Hext, Hlen. fold before in Hext, Hlen.
  assert (Hfinal : textAt idx final = textAt idx (completionNotice idx before)).
  { unfold final. rewrite sendMessageHandler_eq. cbv zeta. now rewrite Hend. }
  pose proof (completionNotice_outcome idx before Hlen Hshown) as Hcase.
  assert (Hsearched : Exists mentionsFunctionCall (messages before) ->
                      outputLeftEmpty idx before final).
  { intros Hsome. apply hasFunctionCallMessage_mentions in Hsome.
    rewrite Hsome in Hcase. unfold outputLeftEmpty in *. now rewrite Hfinal. }
  split; [|split; [|split]].
  - intros Hnone.
    destruct (hasFunctionCallMessage (messages before)) eqn:Hsome.
    + apply hasFunctionCallMessage_mentions, List.Exists_exists in Hsome.
      destruct Hsome as (m & Hin & Hm). now destruct (Hnone m Hin).
    + now rewrite Hfinal.
  - intros Hrenders Hcalls. apply Hsearched.
    apply settle_mentions, streamed_mentions; assumption.
  - intros Hearlier. apply Hsearched.
    apply List.Exists_exists in Hearlier as (m & Hin & Hm).
    apply List.Exists_exists. exists m. split; [now apply extends_In with (base := messages a) | assumption].
  - intros m. now apply extends_In.
Qed.

End CompletionNotice.

Lemma sampleCollaborators_rendersExplanations :
  rendersExplanations (Ext := sampleCollaborators).
Proof.
  intros fc. unfold explanationOf.
  exists "<p>",
    (JS.LF ++ "```json" ++ JS.LF
       ++ stringifyCall (Collaborators := sampleCollaborators)
            (camelCaseToDash (fc_name fc)) (fc_args fc)
       ++ JS.LF ++ "```" ++ "</p>" ++ JS.LF).
  cbn [marked_parse sampleCollaborators].
  change ("Calling function:" ++ ?r)
    with (String "C" ("alling function:" ++ r)) at 1.
  cbn [String.eqb]. now rewrite !append_assoc.
Qed.

Lemma completion_notice_rule_witness :
  let env := sampleEnv [functionCallPart "viewLocationGoogleMaps" "{ query: Mazamitla }"]
               Completed in
  let before := settle 0 (streamed (Ext := sampleCollaborators) initialApp
                            (parts (stream env))) env in
  let final := fst (sendMessageHandler (Ext := sampleCollaborators) initialApp
                      "Estoy en Mazamitla" "user" env) in
  let quiet := sampleEnv [] Completed in
  (JS.trim (textAt 0 before) = "..."
   /\ Exists callsFunction (parts (stream env))
   /\ outputLeftEmpty 0 before final
   /\ textAt 0 final = "")
  /\ textAt 0 (fst (sendMessageHandler (Ext := sampleCollaborators) initialApp
                      "Hola" "user" quiet))
     = "<p>Done.</p>" ++ JS.LF.
Proof.
  cbv zeta. split.
  - assert (Hshown :
      JS.trim (textAt 0
                 (settle 0
                    (streamed (Ext := sampleCollaborators) initialApp
                       [functionCallPart "viewLocationGoogleMaps" "{ query: Mazamitla }"])
                    (sampleEnv
                       [functionCallPart "viewLocationGoogleMaps" "{ query: Mazamitla }"]
                       Completed))) = "...") by reflexivity.
    assert (Hcalls :
      Exists callsFunction
        [functionCallPart "viewLocationGoogleMaps" "{ query: Mazamitla }"])
      by (apply Exists_cons_hd; discriminate).
    split; [exact Hshown|]. split; [exact Hcalls|]. split; [|reflexivity].
    exact (proj1 (proj2 (completion_notice_rule (Ext := sampleCollaborators) initialApp
                           "Estoy en Mazamitla" "user"
                           (sampleEnv
                              [functionCallPart "viewLocationGoogleMaps"
                                 "{ query: Mazamitla }"]
                              Completed) eq_refl (or_introl Hshown)))
             sampleCollaborators_rendersExplanations Hcalls).
  - assert (Hshown :
      JS.trim (textAt 0
                 (settle 0 (streamed (Ext := sampleCollaborators) initialApp [])
                    (sampleEnv [] Completed))) = "...") by reflexivity.
    apply (proj1 (completion_notice_rule (Ext := sampleCollaborators) initialApp
                    "Hola" "user" (sampleEnv [] Completed) eq_refl (or_introl Hshown))).
    intros m [<- | []] Hm. apply occursIn_includes in Hm. vm_compute in Hm. discriminate.
Defined.

(** C8 read turn by turn fails: after a turn that called a tool, a later
    turn whose stream delivers nothing, hence no tool call, ends with an
    empty output and no notice. *)
Lemma completion_notice_counterexample :
  let env := sampleEnv [] Completed in
  let final := fst (sendMessageHandler (Ext := sampleCollaborators) afterToolTurn
                      "Gracias" "user" env) in
  let idx := length (messages afterToolTurn) in
  existsb (fun p => match part_functionCall p with Some _ => true | None => false end)
    (parts (stream env)) = false
  /\ textAt idx final = ""
  /\ textAt idx final <> marked_parse (Collaborators := sampleCollaborators) "Done.".
Proof.
  cbv zeta. split; [reflexivity|]. split; [reflexivity|].
  vm_compute. discriminate.
Qed.

(** ** The service history *)

Lemma NoDup_map_In_eq {A B : Type} (f : A -> B) (l : list A) (x y : A) :
  NoDup (map f l) -> In x l -> In y l -> f x = f y -> x = y.
Proof.
  induction l as [|z l IH]; simpl; [tauto|].
  intros Hnd Hx Hy Hf. apply NoDup_cons in Hnd as [Hz Hnd].
  rewrite list_elem_of_In in Hz.
  destruct Hx as [->|Hx], Hy as [->|Hy]; auto.
  - exfalso. apply Hz. rewrite Hf. now apply in_map.
  - exfalso. apply Hz. rewrite <- Hf. now apply in_map.
Qed.

Lemma Forall2_map_self {A : Type} (R : A -> A -> Prop) (g : A -> A) (l : list A) :
  (forall x, In x l -> R x (g x)) -> Forall2 R l (map g l).
Proof.
  induction l as [|x l IH]; intros HR; simpl; constructor.
  - apply HR. now left.
  - apply IH. intros y Hy. apply HR. now right.
Qed.

Lemma Forall2_compose {A : Type} (R S T : A -> A -> Prop) (l1 l2 l3 : list A) :
  (forall x y z, R x y -> S y z -> T x z) ->
  Forall2 R l1 l2 -> Forall2 S l2 l3 -> Forall2 T l1 l3.
Proof.
  intros HRS H12. revert l3. induction H12 as [|x y l1 l2 Hxy _ IH]; intros l3 H23.
  - inversion H23. constructor.
  - inversion H23 as [|y' z l2' l3' Hyz Hrest]; subst. constructor; eauto.
Qed.

Lemma itemStep_progress (s s' : ServiceHistoryItem) : itemStep s s' -> itemProgress s s'.
Proof.
  intros [->|(Hid & Hst & Hp & Hp')]; unfold itemProgress.
  - repeat split; [lia | now left].
  - split; [assumption|]. split; [lia|].
    destruct (svc_status s') eqn:Hs; try (right; now split);
      left; rewrite Hp; destruct (svc_price s') as [p|]; try reflexivity;
      exfalso; (assert (Some p <> None) as Hne by discriminate);
      apply Hp' in Hne; discriminate.
Qed.

Lemma itemProgress_trans (s1 s2 s3 : ServiceHistoryItem) :
  itemProgress s1 s2 -> itemProgress s2 s3 -> itemProgress s1 s3.
Proof.
  intros (Hid1 & Hst1 & Hp1) (Hid2 & Hst2 & Hp2). unfold itemProgress.
  split; [congruence|]. split; [lia|].
  destruct Hp2 as [Hp2|[Hp2 Ht3]], Hp1 as [Hp1|[Hp1 Ht2]].
  - left. congruence.
  - right. split; [assumption|]. rewrite Ht2 in Hst2.
    destruct (svc_status s3); simpl in Hst2; try lia. reflexivity.
  - right. split; [congruence | assumption].
  - right. now split.
Qed.

Lemma serviceActions_status (service : ServiceHistoryItem) (b : AdminButton) :
  existsb (buttonEqb b) (serviceActions service) = true ->
  match b with
  | Aprobar => svc_status service = Pendiente
  | BotonEnProceso => svc_status service = Aprobado
  | Terminar => svc_status service = EnProceso
  end.
Proof.
  unfold serviceActions.
  destruct (svc_status service), b; simpl; intros Hb; solve [reflexivity | discriminate].
Qed.

(** The effect of a handler on a well-formed history, for an update [f] that
    moves the service with the given id one stage on. *)
Lemma mapService_step (a : MapApp) (serviceId : string)
    (f : ServiceHistoryItem -> ServiceHistoryItem) :
  wellFormedHistory (serviceHistory a) ->
  (forall s, In s (serviceHistory a) -> svc_id s = serviceId ->
     svc_id (f s) = svc_id s /\ itemStep s (f s)
     /\ (svc_status (f s) <> Terminado -> svc_price (f s) = None)) ->
  Forall2 itemStep (serviceHistory a) (serviceHistory (mapService serviceId f a))
  /\ wellFormedHistory (serviceHistory (mapService serviceId f a)).
Proof.
  intros [Hnd Hprice] Hf. unfold mapService.
  cbn [serviceHistory setServiceHistory].
  set (g := fun service => if svc_id service =? serviceId then f service else service).
  assert (Hg : forall s, In s (serviceHistory a) ->
            svc_id (g s) = svc_id s /\ itemStep s (g s)
            /\ (svc_status (g s) <> Terminado -> svc_price (g s) = None)).
  { intros s Hs. unfold g. destruct (String.eqb_spec (svc_id s) serviceId) as [Heq|Hne].
    - now apply Hf.
    - split; [reflexivity|]. split; [now left|].
      rewrite Forall_forall in Hprice. apply Hprice. now apply list_elem_of_In. }
  split; [|split].
  - apply Forall2_map_self. intros s Hs. now apply Hg.
  - rewrite map_map. erewrite map_ext_in; [exact Hnd|].
    intros s Hs. now apply Hg.
  - rewrite Forall_forall. intros s' Hs'%list_elem_of_In.
    apply in_map_iff in Hs' as (s & <- & Hs). now apply Hg.
Qed.

Lemma setStatus_step (service : ServiceHistoryItem) (st : ServiceStatus) :
  svc_price service = None ->
  stage st = S (stage (svc_status service)) ->
  st <> Terminado ->
  svc_id (setStatus st service) = svc_id service
  /\ itemStep service (setStatus st service)
  /\ (svc_status (setStatus st service) <> Terminado ->
      svc_price (setStatus st service) = None).
Proof.
  intros Hprice Hstage Hst. split; [reflexivity|]. split; [|intros _; exact Hprice].
  right. cbn. rewrite Hprice. repeat split; try assumption; intros Hx; congruence.
Qed.

Lemma setTerminado_step (service : ServiceHistoryItem) (price : string) :
  svc_price service = None ->
  svc_status service = EnProceso ->
  svc_id (setTerminado price service) = svc_id service
  /\ itemStep service (setTerminado price service)
  /\ (svc_status (setTerminado price service) <> Terminado ->
      svc_price (setTerminado price service) = None).
Proof.
  intros Hprice Hstatus. split; [reflexivity|]. split; [|cbn; congruence].
  right. cbn. rewrite Hprice, Hstatus. repeat split; try reflexivity; discriminate.
Qed.

Lemma click_step (a : MapApp) (c : Click) :
  wellFormedHistory (serviceHistory a) ->
  Forall2 itemStep (serviceHistory a) (serviceHistory (click a c))
  /\ wellFormedHistory (serviceHistory (click a c)).
Proof.
  intros Hwf.
  assert (Hstay : Forall2 itemStep (serviceHistory a) (serviceHistory a)
                  /\ wellFormedHistory (serviceHistory a)).
  { split; [|assumption]. rewrite <- (map_id (serviceHistory a)) at 2.
    apply Forall2_map_self. intros; now left. }
  unfold click.
  destruct (serviceHistory a !! click_row c) as [service|] eqn:Hrow; [|assumption].
  destruct (existsb _ (serviceActions service)) eqn:Hbutton; [|assumption].
  apply serviceActions_status in Hbutton.
  assert (Hin : In service (serviceHistory a))
    by (apply list_elem_of_In; eapply list_elem_of_lookup_2; eassumption).
  assert (Hsame : forall s, In s (serviceHistory a) -> svc_id s = svc_id service ->
            s = service).
  { intros s Hs Hid. destruct Hwf as [Hnd _]. eapply NoDup_map_In_eq; eassumption. }
  assert (Hnone : svc_status service <> Terminado -> svc_price service = None).
  { destruct Hwf as [_ Hp]. rewrite Forall_forall in Hp.
    apply Hp. now apply list_elem_of_In. }
  destruct (click_button c).
  - unfold _handleApprove. destruct (findService _ a) as [item|]; [|assumption].
    apply mapService_step; [assumption|].
    intros s Hs Hid. rewrite (Hsame s Hs Hid).
    apply setStatus_step; [apply Hnone | |]; rewrite ?Hbutton; solve [reflexivity | discriminate].
  - unfold _handleProcess. destruct (findService _ a) as [item|]; [|assumption].
    apply mapService_step; [assumption|].
    intros s Hs Hid. rewrite (Hsame s Hs Hid).
    apply setStatus_step; [apply Hnone | |]; rewrite ?Hbutton; solve [reflexivity | discriminate].
  - unfold _handleFinish. destruct (findService _ a) as [item|]; [|assumption].
    destruct (click_prompt c) as [price|]; [|assumption].
    destruct (negb (JS.trim price =? "")); [|assumption].
    apply mapService_step; [assumption|].
    intros s Hs Hid. rewrite (Hsame s Hs Hid).
    apply setTerminado_step; [apply Hnone; rewrite Hbutton; discriminate | assumption].
Qed.

Lemma clicks_progress (cs : list Click) (a : MapApp) :
  wellFormedHistory (serviceHistory a) ->
  Forall2 itemProgress (serviceHistory a) (serviceHistory (clicks a cs))
  /\ wellFormedHistory (serviceHistory (clicks a cs)).
Proof.
  revert a. induction cs as [|c cs IH]; intros a Hwf; simpl.
  - split; [|assumption]. rewrite <- (map_id (serviceHistory a)) at 2.
    apply Forall2_map_self. intros s _. apply itemStep_progress. now left.
  - destruct (click_step a c Hwf) as [Hstep Hwf'].
    destruct (IH (click a c) Hwf') as [Hrest Hwf''].
    split; [|assumption].
    eapply Forall2_compose; [|exact Hstep|exact Hrest].
    intros x y z Hxy Hyz. eapply itemProgress_trans; [|exact Hyz].
    now apply itemStep_progress.
Qed.

(** A new record keeps the history well formed when its id is not in use. *)
Lemma addServiceToHistory_wellFormed (a : MapApp) (d : ConfirmationRecord) (env : TurnEnv) :
  wellFormedHistory (serviceHistory a) ->
  ~ In (svc_id (newService d env)) (map svc_id (serviceHistory a)) ->
  wellFormedHistory (serviceHistory (addServiceToHistory a d env)).
Proof.
  intros [Hids Hprices] Hfresh. unfold addServiceToHistory.
  cbn [serviceHistory setServiceHistory]. split.
  - cbn [map]. apply NoDup_cons. split; [now rewrite list_elem_of_In | assumption].
  - constructor; [reflexivity | assumption].
Qed.

(** C9, as the code has it: on a history with distinct ids in which only
    finished services have a price, whatever buttons of the history tab are
    clicked and in whatever order, every further click leaves each service
    as it is or moves it to the next status of the chain Pendiente,
    Aprobado, En Proceso, Terminado, the price being set, from unset,
    exactly on the move into Terminado; over the whole sequence no status
    moves backward.  Such a history stays so under the clicks, and under a
    new record whose id is not in use. *)
Theorem status_only_advances (a : MapApp) (cs : list Click) (c : Click) :
  wellFormedHistory (serviceHistory a) ->
  Forall2 itemStep (serviceHistory (clicks a cs)) (serviceHistory (click (clicks a cs) c))
  /\ Forall2 itemProgress (serviceHistory a) (serviceHistory (clicks a cs))
  /\ wellFormedHistory (serviceHistory (clicks a cs))
  /\ (forall d env,
        ~ In (svc_id (newService d env)) (map svc_id (serviceHistory (clicks a cs))) ->
        wellFormedHistory (serviceHistory (addServiceToHistory (clicks a cs) d env))).
Proof.
  intros Hwf. destruct (clicks_progress cs a Hwf) as [Hprogress Hwf'].
  split; [now apply click_step|]. split; [assumption|]. split; [assumption|].
  intros d env. now apply addServiceToHistory_wellFormed.
Qed.

Lemma sampleHistory_wellFormed : wellFormedHistory sampleHistory.
Proof.
  split.
  - apply NoDup_cons. split; [|apply NoDup_singleton].
    rewrite list_elem_of_In. simpl. intros [Heq|[]]. discriminate.
  - repeat constructor.
Qed.

Lemma status_only_advances_witness :
  let a := setServiceHistory sampleHistory initialApp in
  let cs := [ {| click_row := 0; click_button := Aprobar; click_prompt := None |};
              {| click_row := 0; click_button := Terminar; click_prompt := Some "250" |} ] in
  let c := {| click_row := 1; click_button := Terminar; click_prompt := Some "250.00" |} in
  wellFormedHistory (serviceHistory a)
  /\ Forall2 itemStep (serviceHistory (clicks a cs)) (serviceHistory (click (clicks a cs) c))
  /\ map svc_status (serviceHistory (click (clicks a cs) c)) = [Aprobado; Terminado].
Proof.
  cbv zeta. split; [exact sampleHistory_wellFormed|]. split; [|reflexivity].
  exact (proj1 (status_only_advances (setServiceHistory sampleHistory initialApp) _ _
                  sampleHistory_wellFormed)).
Defined.

(** C9 read on the handlers fails, for they do not look at the status:
    called on a pending service [_handleFinish] finishes it at once, and
    [_handleApprove] then moves the finished service back to approved, its
    price staying. *)
Lemma status_only_advances_counterexample :
  let a := setServiceHistory [sampleService "1-a" Pendiente None] initialApp in
  let a1 := runStatusCall a (CallFinish "1-a" (Some "250.00")) in
  let a2 := runStatusCall a1 (CallApprove "1-a") in
  wellFormedHistory (serviceHistory a)
  /\ map svc_status (serviceHistory a1) = [Terminado]
  /\ map svc_status (serviceHistory a2) = [Aprobado]
  /\ map svc_price (serviceHistory a2) = [Some "250.00"]
  /\ ~ Forall2 itemStep (serviceHistory a) (serviceHistory a1)
  /\ ~ Forall2 itemProgress (serviceHistory a1) (serviceHistory a2).
Proof.
  cbv zeta. split; [|split; [reflexivity|split; [reflexivity|split; [reflexivity|split]]]].
  - split; [apply NoDup_singleton | repeat constructor].
  - intros H. inversion H as [|? ? ? ? Hstep _]; subst.
    destruct Hstep as [Heq | (_ & Hstage & _)]; [discriminate Heq | discriminate Hstage].
  - intros H. inversion H as [|? ? ? ? Hprog _]; subst.
    destruct Hprog as (_ & Hstage & _). cbn in Hstage. lia.
Qed.

(** The distinct ids are needed: with two services of one id, the button
    rendered for the first moves the second backward. *)
Remark click_equal_ids_moves_backward :
  let a := setServiceHistory
             [sampleService "1-a" Pendiente None; sampleService "1-a" EnProceso None]
             initialApp in
  map svc_status
    (serviceHistory
       (click a {| click_row := 0; click_button := Aprobar; click_prompt := None |}))
  = [Aprobado; Aprobado].
Proof. reflexivity. Qed.

(** The handlers themselves do not look at the status: it is the rendering
    of the buttons that keeps the chain. *)
Remark _handleApprove_unguarded :
  map svc_status
    (serviceHistory
       (_handleApprove
          (setServiceHistory [sampleService "1-a" Terminado (Some "250.00")] initialApp)
          "1-a"))
  = [Aprobado].
Proof. reflexivity. Qed.

(** ** The confirmation record *)

Section Confirmation.

Context `{Ext : Collaborators}.

Lemma completionNotice_serviceHistory (idx : nat) (a : MapApp) :
  serviceHistory (completionNotice idx a) = serviceHistory a.
Proof.
  unfold completionNotice.
  repeat match goal with |- context [if ?b then _ else _] => destruct b end;
    reflexivity.
Qed.

(** The service history after a completed turn: the record extracted from
    the accumulated text, if any, in front of the history the turn started
    with. *)
Lemma sendMessageHandler_serviceHistory (a : MapApp) (input role : string) (env : TurnEnv) :
  ending (stream env) = Completed ->
  serviceHistory (fst (sendMessageHandler a input role env))
  = match extractConfirmation (newCode (streamed a (parts (stream env)))) with
    | Some d => newService d env :: serviceHistory a
    | None => serviceHistory a
    end.
Proof.
  intros Hend. rewrite sendMessageHandler_eq. cbv zeta. rewrite Hend.
  cbn [fst completeTurn serviceHistory setChatState].
  rewrite completionNotice_serviceHistory.
  destruct (streamed_invariant a (parts (stream env))) as (_ & _ & Hsvc).
  unfold settle, alterMessage. cbn [serviceHistory setMessages].
  destruct (extractConfirmation _); destruct (_ || _);
    cbn [serviceHistory addServiceToHistory setServiceHistory enableLocationSelectionMode];
    now rewrite Hsvc.
Qed.

End Confirmation.

(** The scenario of the specification: a complete block gives one record,
    pending and without a price, and the block is not in the rendered text. *)
Example confirmation_complete_block :
  let env := sampleEnv [textPart ("Gracias, Juan. "
                          ++ confirmationBlock " Juan" " 3334854080" " llanta ponchada"
                               " Calle 5, Mazamitla"
                          ++ " La ayuda va en camino.")] Completed in
  let final := fst (sendMessageHandler (Ext := sampleCollaborators) initialApp "hola" "user" env) in
  serviceHistory final
  = [ {| svc_id := "1730000000000-k3j9x2"; svc_name := "Juan";
         svc_phone := "3334854080"; svc_address := "Calle 5, Mazamitla";
         svc_details := Some "llanta ponchada"; svc_timestamp := 1730000000001;
         svc_status := Pendiente; svc_price := None |} ]
  /\ textAt 0 final = "<p>Gracias, Juan.  La ayuda va en camino.</p>" ++ JS.LF.
Proof. split; reflexivity. Qed.

(** A block without a [Details] line commits with the placeholder. *)
Example confirmation_details_absent :
  extractConfirmation
    (OPEN_TAG ++ JS.LF ++ "Name: Juan" ++ JS.LF ++ "Phone: 3334854080" ++ JS.LF
       ++ "Address: Calle 5, Mazamitla" ++ JS.LF ++ CLOSE_TAG)
  = Some {| cr_name := "Juan"; cr_address := "Calle 5, Mazamitla";
            cr_phone := "3334854080"; cr_details := "No especificado" |}.
Proof. reflexivity. Qed.

(** An empty [Address] on the last line commits nothing. *)
Example confirmation_address_empty :
  extractConfirmation (confirmationBlock " Juan" " 3334854080" " llanta ponchada" " ")
  = None.
Proof. reflexivity. Qed.

(** C2 at a block whose [Name] value is empty: the white space run of the
    field expression runs over the end of the line, the text of the next
    line is taken as the name, and a record is committed. *)
Theorem confirmation_empty_name_commits (X : Collaborators) :
  let newCode := confirmationBlock " " " 3334854080" " llanta ponchada"
                   " Calle 5, Mazamitla" in
  let env := sampleEnv [textPart newCode] Completed in
  extractConfirmation newCode
  = Some {| cr_name := "Phone: 3334854080"; cr_address := "Calle 5, Mazamitla";
            cr_phone := "3334854080"; cr_details := "llanta ponchada" |}
  /\ map svc_name
       (serviceHistory (fst (sendMessageHandler (Ext := X) initialApp "hola" "user" env)))
     = ["Phone: 3334854080"].
Proof.
  cbv zeta. split; [reflexivity|].
  rewrite sendMessageHandler_serviceHistory by reflexivity. reflexivity.
Qed.

(** An empty [Details] value followed by the address line is not replaced by
    the placeholder either. *)
Example confirmation_empty_details :
  extractConfirmation (confirmationBlock " Juan" " 3334854080" "" " Calle 5, Mazamitla")
  = Some {| cr_name := "Juan"; cr_address := "Calle 5, Mazamitla";
            cr_phone := "3334854080"; cr_details := "Address: Calle 5, Mazamitla" |}.
Proof. reflexivity. Qed.

(** ** Witnesses of the send action and of the failing turn *)

Lemma sendMessageAction_busy_witness :
  let a := setChatState GENERATING initialApp in
  chatState a <> IDLE
  /\ sendMessageAction (Ext := sampleCollaborators) a (Some "hola") None
       (sampleEnv [textPart "Hola"] Completed) = (a, []).
Proof.
  cbv zeta.
  assert (Hbusy : chatState (setChatState GENERATING initialApp) <> IDLE) by discriminate.
  split; [exact Hbusy|].
  exact (sendMessageAction_busy (Ext := sampleCollaborators) _ _ _ _ Hbusy).
Defined.

Lemma sendMessageAction_admin_keyword_witness :
  let a := setInputMessage "  Soy Administrador " initialApp in
  let result := sendMessageAction (Ext := sampleCollaborators) a None None
                  (sampleEnv [textPart "Hola"] Completed) in
  JS.toLowerCase (JS.trim (inputMessage a)) = ADMIN_KEYWORD
  /\ currentView (fst result) = ViewAdmin
  /\ currentAdminTab (fst result) = TabHistory
  /\ inputMessage (fst result) = ""
  /\ messages (fst result) = []
  /\ chatState (fst result) = IDLE
  /\ invocations (snd result) = [].
Proof.
  cbv zeta. split; [reflexivity|].
  exact (sendMessageAction_admin_keyword (Ext := sampleCollaborators)
           (setInputMessage "  Soy Administrador " initialApp) None None
           (sampleEnv [textPart "Hola"] Completed) eq_refl eq_refl eq_refl).
Defined.

Lemma sendMessageHandler_failure_and_idle_witness :
  let env := sampleEnv [functionCallPart "viewLocationGoogleMaps" "{ query: Mazamitla }"]
               (Failed (ThrownError "Failed to fetch")) in
  let result := sendMessageHandler (Ext := sampleCollaborators) initialApp "hola" "user" env in
  chatState (fst result) = IDLE
  /\ length (invocations (snd result)) = 1%nat
  /\ (exists added,
         messages (fst result)
         = ([] ++ added
              ++ [ {| msg_role := "error";
                      msg_thinkingHidden := false;
                      msg_thinkingOpen := false;
                      msg_thinking := "";
                      msg_text := "<p>Error: Failed to fetch</p>" ++ JS.LF |} ])%list
         /\ Forall isAssistant added)
  /\ JS.includes "Failed to fetch" "Error: Failed to fetch" = true
  /\ exists history, snd result = [ModelTurn history "hola"].
Proof.
  cbv zeta.
  pose proof (sendMessageHandler_failure_and_idle (Ext := sampleCollaborators) initialApp
                "hola" "user"
                (sampleEnv [functionCallPart "viewLocationGoogleMaps" "{ query: Mazamitla }"]
                   (Failed (ThrownError "Failed to fetch")))) as (Hidle & Honce & Hfail).
  split; [exact Hidle|]. split; [exact Honce|].
  exact (Hfail (ThrownError "Failed to fetch") "Failed to fetch" eq_refl (or_introl eq_refl)).
Defined.

(** * Further properties *)

(** ** The tool-name rename *)

Lemma replaceLowerUpper_eq2 (c1 c2 : ascii) (r : string) :
  replaceLowerUpper (String c1 (String c2 r))
  = if JS.isAsciiLower c1 && JS.isAsciiUpper c2
    then String c1 (String "-" (String c2 (replaceLowerUpper r)))
    else String c1 (replaceLowerUpper (String c2 r)).
Proof. reflexivity. Qed.

Lemma replaceUpperUpperLower_eq3 (c1 c2 c3 : ascii) (r : string) :
  replaceUpperUpperLower (String c1 (String c2 (String c3 r)))
  = if JS.isAsciiUpper c1 && JS.isAsciiUpper c2 && JS.isAsciiLower c3
    then String c1 (String "-" (String c2 (String c3 (replaceUpperUpperLower r))))
    else String c1 (replaceUpperUpperLower (String c2 (String c3 r))).
Proof. reflexivity. Qed.

Lemma withoutDashes_cons (c : ascii) (s t : string) :
  withoutDashes s = withoutDashes t ->
  withoutDashes (String c s) = withoutDashes (String c t).
Proof. intros Hst. simpl. now rewrite Hst. Qed.

Lemma replaceLowerUpper_dashes (s : string) :
  withoutDashes (replaceLowerUpper s) = withoutDashes s
  /\ (String.length s <= String.length (replaceLowerUpper s))%nat.
Proof.
  enough (Haux : forall n s, (String.length s <= n)%nat ->
            withoutDashes (replaceLowerUpper s) = withoutDashes s
            /\ (String.length s <= String.length (replaceLowerUpper s))%nat)
    by (apply (Haux (String.length s)); lia).
  clear s. induction n as [|n IH]; intros s Hle.
  - destruct s; [split; [reflexivity | simpl; lia] | simpl in Hle; lia].
  - destruct s as [|c1 [|c2 r]]; [split; [reflexivity | simpl; lia]..|].
    rewrite replaceLowerUpper_eq2. simpl in Hle.
    destruct (JS.isAsciiLower c1 && JS.isAsciiUpper c2).
    + destruct (IH r ltac:(lia)) as [Hd Hl]. split.
      * apply withoutDashes_cons.
        change (withoutDashes (String "-" (String c2 (replaceLowerUpper r))))
          with (withoutDashes (String c2 (replaceLowerUpper r))).
        now apply withoutDashes_cons.
      * simpl. lia.
    + destruct (IH (String c2 r) ltac:(simpl; lia)) as [Hd Hl]. split.
      * now apply withoutDashes_cons.
      * simpl in *. lia.
Qed.

Lemma replaceUpperUpperLower_dashes (s : string) :
  withoutDashes (replaceUpperUpperLower s) = withoutDashes s
  /\ (String.length s <= String.length (replaceUpperUpperLower s))%nat.
Proof.
  enough (Haux : forall n s, (String.length s <= n)%nat ->
            withoutDashes (replaceUpperUpperLower s) = withoutDashes s
            /\ (String.length s <= String.length (replaceUpperUpperLower s))%nat)
    by (apply (Haux (String.length s)); lia).
  clear s. induction n as [|n IH]; intros s Hle.
  - destruct s; [split; [reflexivity | simpl; lia] | simpl in Hle; lia].
  - destruct s as [|c1 [|c2 [|c3 r]]]; [split; [reflexivity | simpl; lia]..|].
    rewrite replaceUpperUpperLower_eq3. simpl in Hle.
    destruct (JS.isAsciiUpper c1 && JS.isAsciiUpper c2 && JS.isAsciiLower c3).
    + destruct (IH r ltac:(lia)) as [Hd Hl]. split.
      * apply withoutDashes_cons.
        change (withoutDashes (String "-" (String c2 (String c3 (replaceUpperUpperLower r)))))
          with (withoutDashes (String c2 (String c3 (replaceUpperUpperLower r)))).
        now do 2 apply withoutDashes_cons.
      * simpl. lia.
    + destruct (IH (String c2 (String c3 r)) ltac:(simpl; lia)) as [Hd Hl]. split.
      * now apply withoutDashes_cons.
      * simpl in *. lia.
Qed.

Lemma toLowerChar_dash (c : ascii) :
  Ascii.eqb (JS.toLowerChar c) "-" = Ascii.eqb c "-".
Proof. destruct c as [[] [] [] [] [] [] [] []]; reflexivity. Qed.

Lemma withoutDashes_toLowerCase (s : string) :
  withoutDashes (JS.toLowerCase s) = JS.toLowerCase (withoutDashes s).
Proof.
  induction s as [|c r IH]; [reflexivity|].
  simpl. rewrite toLowerChar_dash. destruct (Ascii.eqb c "-"); simpl; now rewrite IH.
Qed.

Lemma length_toLowerCase (s : string) :
  String.length (JS.toLowerCase s) = String.length s.
Proof. induction s as [|c r IH]; simpl; [reflexivity | now rewrite IH]. Qed.

(** X1: the rename only inserts dashes and lowers the case: without its
    dashes the result is the lower-cased name without its dashes, and the
    result is never shorter than the name. *)
Theorem camelCaseToDash_only_adds_dashes (str : string) :
  withoutDashes (camelCaseToDash str) = JS.toLowerCase (withoutDashes str)
  /\ (String.length str <= String.length (camelCaseToDash str))%nat.
Proof.
  unfold camelCaseToDash. split.
  - rewrite withoutDashes_toLowerCase.
    rewrite (proj1 (replaceUpperUpperLower_dashes _)).
    now rewrite (proj1 (replaceLowerUpper_dashes _)).
  - rewrite length_toLowerCase.
    pose proof (proj2 (replaceUpperUpperLower_dashes (replaceLowerUpper str))).
    pose proof (proj2 (replaceLowerUpper_dashes str)). lia.
Qed.


(** ** Searching a text *)

Lemma includes_false_here (p s : string) :
  JS.includes p s = false -> JS.stripPrefix p s = None.
Proof. rewrite includes_eq. now destruct (JS.stripPrefix p s). Qed.

Lemma includes_false_tail (p : string) (c : ascii) (r : string) :
  JS.includes p (String c r) = false -> JS.includes p r = false.
Proof. rewrite includes_eq. now destruct (JS.stripPrefix p (String c r)). Qed.

Lemma charIn_cons (c a : ascii) (p : string) :
  charIn c (String a p) = false -> Ascii.eqb a c = false /\ charIn c p = false.
Proof.
  change (charIn c (String a p)) with (Ascii.eqb c a || charIn c p).
  intros Hc. apply orb_false_elim in Hc as [Hca Hcp].
  split; [now rewrite Ascii.eqb_sym | assumption].
Qed.

(** A pattern without the character [c] does not match across [c]. *)
Lemma stripPrefix_separator (p x v : string) (c : ascii) :
  charIn c p = false ->
  JS.stripPrefix p x = None -> JS.stripPrefix p (x ++ String c v) = None.
Proof.
  revert x. induction p as [|a p IH]; intros x Hc Hx; [discriminate|].
  apply charIn_cons in Hc as [Hca Hcp].
  destruct x as [|b x].
  - change ("" ++ String c v) with (String c v).
    change (JS.stripPrefix (String a p) (String c v))
      with (if Ascii.eqb a c then JS.stripPrefix p v else None).
    now rewrite Hca.
  - change (JS.stripPrefix (String a p) (String b x ++ String c v))
      with (if Ascii.eqb a b then JS.stripPrefix p (x ++ String c v) else None).
    change (JS.stripPrefix (String a p) (String b x))
      with (if Ascii.eqb a b then JS.stripPrefix p x else None) in Hx.
    destruct (Ascii.eqb a b); [now apply IH | reflexivity].
Qed.

(** A pattern whose first character does not occur again in it does not
    match before its own occurrence, unless it matches the text before. *)
Lemma stripPrefix_no_straddle (a : ascii) (t x z : string) :
  charIn a t = false -> x <> "" ->
  JS.stripPrefix (String a t) x = None ->
  JS.stripPrefix (String a t) (x ++ String a z) = None.
Proof.
  intros Ht Hx Hnone. destruct x as [|c x]; [contradiction|].
  simpl in *. destruct (Ascii.eqb a c); [|reflexivity].
  now apply stripPrefix_separator.
Qed.

Lemma lazyUntil_first (a : ascii) (t body post : string) :
  charIn a t = false ->
  JS.includes (String a t) body = false ->
  lazyUntil (String a t) (body ++ String a t ++ post) = Some (body, post).
Proof.
  intros Ht. induction body as [|c r IH]; intros Hbody; rewrite lazyUntil_eq.
  - change ("" ++ String a t ++ post) with (String a t ++ post).
    now rewrite stripPrefix_append.
  - change (String a t ++ post) with (String a (t ++ post)).
    rewrite (stripPrefix_no_straddle a t (String c r) (t ++ post) Ht);
      [|discriminate|now apply includes_false_here].
    change (String c r ++ String a (t ++ post)) with (String c (r ++ String a t ++ post)).
    cbv iota. rewrite IH; [reflexivity|]. now apply includes_false_tail in Hbody.
Qed.

(** The engine matches the first opening tag and the first closing tag
    after it. *)
Lemma matchConfirmation_first (pre body post : string) :
  JS.includes OPEN_TAG pre = false ->
  JS.includes CLOSE_TAG body = false ->
  matchConfirmation (pre ++ OPEN_TAG ++ body ++ CLOSE_TAG ++ post)
  = Some (pre, body, post).
Proof.
  intros Hpre Hbody. induction pre as [|c r IH]; rewrite matchConfirmation_eq.
  - change ("" ++ OPEN_TAG ++ body ++ CLOSE_TAG ++ post)
      with (OPEN_TAG ++ body ++ CLOSE_TAG ++ post).
    rewrite stripPrefix_append.
    change CLOSE_TAG with (String "<" "/service_confirmation>") at 1 2.
    rewrite lazyUntil_first; [reflexivity | reflexivity | exact Hbody].
  - replace (JS.stripPrefix OPEN_TAG (String c r ++ OPEN_TAG ++ body ++ CLOSE_TAG ++ post))
      with (@None string).
    2:{ symmetry. change OPEN_TAG with (String "<" "service_confirmation>").
        change (String "<" "service_confirmation>" ++ body ++ CLOSE_TAG ++ post)
          with (String "<" ("service_confirmation>" ++ body ++ CLOSE_TAG ++ post)).
        apply stripPrefix_no_straddle; [reflexivity | discriminate |].
        now apply includes_false_here. }
    change (String c r ++ OPEN_TAG ++ body ++ CLOSE_TAG ++ post)
      with (String c (r ++ OPEN_TAG ++ body ++ CLOSE_TAG ++ post)).
    cbv iota. rewrite IH; [reflexivity|]. now apply includes_false_tail in Hpre.
Qed.

(** X2: the redaction removes the first block only: with no opening tag
    before it and no closing tag inside it, the block goes and everything
    after it stays, a further block included. *)
Theorem redactConfirmation_first_block (pre body post : string) :
  JS.includes OPEN_TAG pre = false ->
  JS.includes CLOSE_TAG body = false ->
  redactConfirmation (pre ++ OPEN_TAG ++ body ++ CLOSE_TAG ++ post) = pre ++ post.
Proof.
  intros Hpre Hbody. unfold redactConfirmation.
  now rewrite matchConfirmation_first.
Qed.

Lemma redactConfirmation_first_block_witness :
  JS.includes OPEN_TAG "Listo. " = false
  /\ JS.includes CLOSE_TAG "Name: Juan" = false
  /\ redactConfirmation
       ("Listo. " ++ OPEN_TAG ++ "Name: Juan" ++ CLOSE_TAG
          ++ " y <service_confirmation>Name: Ana</service_confirmation>")
     = "Listo.  y <service_confirmation>Name: Ana</service_confirmation>".
Proof.
  split; [reflexivity|]. split; [reflexivity|].
  exact (redactConfirmation_first_block "Listo. " "Name: Juan"
           " y <service_confirmation>Name: Ana</service_confirmation>" eq_refl eq_refl).
Defined.

(** X3: a text in which a tag is missing, as while a block is still being
    streamed, is not changed by the redaction. *)
Theorem redactConfirmation_needs_both_tags (s : string) :
  JS.includes OPEN_TAG s = false \/ JS.includes CLOSE_TAG s = false ->
  redactConfirmation s = s.
Proof.
  intros Hmissing. unfold redactConfirmation.
  destruct (matchConfirmation s) as [[[pre body] post]|] eqn:Hm; [|reflexivity].
  apply matchConfirmation_sound in Hm. unfold isBlock in Hm. exfalso.
  destruct Hmissing as [Ho|Hc]; rewrite Hm in *.
  - assert (Hin : JS.includes OPEN_TAG (pre ++ OPEN_TAG ++ body ++ CLOSE_TAG ++ post) = true)
      by (apply includes_append_r, includes_prefixed).
    congruence.
  - assert (Hin : JS.includes CLOSE_TAG (pre ++ OPEN_TAG ++ body ++ CLOSE_TAG ++ post) = true)
      by (do 3 apply includes_append_r; apply includes_prefixed).
    congruence.
Qed.

Lemma redactConfirmation_needs_both_tags_witness :
  JS.includes CLOSE_TAG "Un momento <service_confirmation>Name: Ju" = false
  /\ redactConfirmation "Un momento <service_confirmation>Name: Ju"
     = "Un momento <service_confirmation>Name: Ju".
Proof.
  split; [reflexivity|].
  exact (redactConfirmation_needs_both_tags "Un momento <service_confirmation>Name: Ju"
           (or_intror (eq_refl false))).
Defined.


(** ** The wire format of the confirmation block *)

Lemma stripPrefix_extend (p x y r : string) :
  JS.stripPrefix p x = Some r -> JS.stripPrefix p (x ++ y) = Some (r ++ y).
Proof.
  revert x. induction p as [|a p IH]; intros x; simpl.
  - now intros [= ->].
  - destruct x as [|b x]; [discriminate|]. simpl.
    destruct (Ascii.eqb a b); [apply IH | discriminate].
Qed.

Lemma includes_separator (p u v : string) (c : ascii) :
  charIn c p = false ->
  JS.includes p (u ++ String c v) = JS.includes p u || JS.includes p v.
Proof.
  intros Hc. induction u as [|d u IH].
  - change ("" ++ String c v) with (String c v).
    rewrite (includes_eq p (String c v)), (includes_eq p "").
    destruct p as [|a p]; [reflexivity|].
    apply charIn_cons in Hc as [Hca _].
    change (JS.stripPrefix (String a p) (String c v))
      with (if Ascii.eqb a c then JS.stripPrefix p v else None).
    rewrite Hca. reflexivity.
  - rewrite (includes_eq p (String d u ++ String c v)), (includes_eq p (String d u)).
    destruct (JS.stripPrefix p (String d u)) as [r|] eqn:Hd.
    + now rewrite (stripPrefix_extend _ _ _ _ Hd).
    + rewrite (stripPrefix_separator _ _ _ _ Hc Hd). exact IH.
Qed.

Lemma includes_lines (p u w : string) :
  charIn (ascii_of_nat 10) p = false ->
  JS.includes p (u ++ JS.LF ++ w) = JS.includes p u || JS.includes p w.
Proof. intros Hc. now apply includes_separator. Qed.

Lemma includes_skip (a : ascii) (t u v : string) :
  charIn a u = false ->
  JS.includes (String a t) (u ++ v) = JS.includes (String a t) v.
Proof.
  induction u as [|d u IH]; intros Hu; [reflexivity|].
  change (charIn a (String d u)) with (Ascii.eqb a d || charIn a u) in Hu.
  apply orb_false_elim in Hu as [Had Hu].
  rewrite includes_eq.
  change (JS.stripPrefix (String a t) (String d u ++ v))
    with (if Ascii.eqb a d then JS.stripPrefix t (u ++ v) else None).
  rewrite Had. now apply IH.
Qed.

Lemma matchField_eq (label text : string) :
  matchField label text =
  match JS.stripPrefix label text with
  | Some after => Some (restOfLine (skipWhiteSpace after))
  | None =>
      match text with
      | EmptyString => None
      | String _ r => matchField label r
      end
  end.
Proof. destruct text; reflexivity. Qed.

(** A label that is not in the text before its line is found on its line. *)
Lemma matchField_first (label u rest : string) :
  charIn (ascii_of_nat 10) label = false ->
  JS.includes label u = false ->
  matchField label (u ++ JS.LF ++ label ++ rest)
  = Some (restOfLine (skipWhiteSpace rest)).
Proof.
  intros Hc. induction u as [|d u IH]; intros Hu.
  - change ("" ++ JS.LF ++ label ++ rest) with (String (ascii_of_nat 10) (label ++ rest)).
    rewrite matchField_eq.
    destruct label as [|a l]; [discriminate|].
    apply charIn_cons in Hc as [Hca _].
    change (JS.stripPrefix (String a l) (String (ascii_of_nat 10) (String a l ++ rest)))
      with (if Ascii.eqb a (ascii_of_nat 10)
            then JS.stripPrefix l (String a l ++ rest) else None).
    rewrite Hca. cbv iota.
    rewrite matchField_eq. now rewrite stripPrefix_append.
  - rewrite matchField_eq.
    change (String d u ++ JS.LF ++ label ++ rest)
      with (String d u ++ String (ascii_of_nat 10) (label ++ rest)).
    rewrite (stripPrefix_separator _ _ _ _ Hc (includes_false_here _ _ Hu)).
    change (String d u ++ String (ascii_of_nat 10) (label ++ rest))
      with (String d (u ++ JS.LF ++ label ++ rest)).
    cbv iota. apply IH. now apply includes_false_tail in Hu.
Qed.

Lemma skipWhiteSpace_trimStart (s : string) : skipWhiteSpace s = JS.trimStart s.
Proof.
  induction s as [|c r IH]; [reflexivity|].
  simpl. now rewrite IH.
Qed.

Lemma trimStart_idempotent (s : string) : JS.trimStart (JS.trimStart s) = JS.trimStart s.
Proof.
  induction s as [|c r IH]; [reflexivity|].
  simpl. destruct (JS.isWhiteSpace c) eqn:Hc; [exact IH|].
  simpl. now rewrite Hc.
Qed.

Lemma trimStart_append (v w : string) :
  JS.trimStart v <> "" -> JS.trimStart (v ++ w) = JS.trimStart v ++ w.
Proof.
  induction v as [|c r IH]; intros Hv; [contradiction|].
  simpl in *. destruct (JS.isWhiteSpace c); [now apply IH | reflexivity].
Qed.

Lemma singleLine_trimStart (s : string) :
  singleLine s = true -> singleLine (JS.trimStart s) = true.
Proof.
  induction s as [|c r IH]; [reflexivity|].
  intros Hs. simpl. destruct (JS.isWhiteSpace c); [|exact Hs].
  simpl in Hs. apply andb_prop in Hs as [_ Hr]. now apply IH.
Qed.

Lemma restOfLine_line (x rest : string) :
  singleLine x = true -> restOfLine (x ++ JS.LF ++ rest) = x.
Proof.
  induction x as [|c r IH]; intros Hx; [reflexivity|].
  simpl in Hx. apply andb_prop in Hx as [Hc Hr]. apply negb_true_iff in Hc.
  change (restOfLine (String c r ++ JS.LF ++ rest))
    with (if JS.isLineTerminator c then "" else String c (restOfLine (r ++ JS.LF ++ rest))).
  rewrite Hc. now rewrite IH.
Qed.

Lemma trim_not_blank (v : string) : JS.trim v <> "" -> JS.trimStart v <> "".
Proof. unfold JS.trim. intros Hv Hs. apply Hv. now rewrite Hs. Qed.

(** The value of a field whose label is not in the text before its line:
    the rest of the line, trimmed. *)
Lemma trimmedField_line (label u v rest : string) :
  charIn (ascii_of_nat 10) label = false ->
  JS.includes label u = false ->
  singleLine v = true -> JS.trim v <> "" ->
  trimmedField label (u ++ JS.LF ++ (label ++ v) ++ JS.LF ++ rest) = Some (JS.trim v).
Proof.
  intros Hc Hu Hline Hv. unfold trimmedField.
  rewrite (append_assoc label v). rewrite matchField_first by assumption.
  rewrite skipWhiteSpace_trimStart, trimStart_append by now apply trim_not_blank.
  rewrite restOfLine_line by now apply singleLine_trimStart.
  unfold JS.trim. now rewrite trimStart_idempotent.
Qed.

Lemma confirmationBlock_body (name phone details address : string) :
  confirmationBlock name phone details address
  = OPEN_TAG ++ blockBody name phone details address ++ CLOSE_TAG.
Proof. unfold confirmationBlock, blockBody. now rewrite !append_assoc. Qed.

Lemma truthy_not_blank (v : string) : v <> "" -> JS.truthy (Some v) = true.
Proof. intros Hv. simpl. now destruct (String.eqb_spec v ""). Qed.

(** X4: the wire format is read back: a block written with four values
    that are each on one line, not blank and without the closing tag, no
    value containing the label of a later field, and with no opening tag
    before the block, gives the record of the four trimmed values. *)
Theorem extractConfirmation_wire_format (pre post name phone details address : string) :
  JS.includes OPEN_TAG pre = false ->
  wireValue name -> wireValue phone -> wireValue details -> wireValue address ->
  noLabel "Phone:" [name] ->
  noLabel "Details:" [name; phone] ->
  noLabel "Address:" [name; phone; details] ->
  extractConfirmation (pre ++ confirmationBlock name phone details address ++ post)
  = Some {| cr_name := JS.trim name; cr_address := JS.trim address;
            cr_phone := JS.trim phone; cr_details := JS.trim details |}.
Proof.
  intros Hpre (Hn1 & Hn2 & Hn3) (Hp1 & Hp2 & Hp3) (Hd1 & Hd2 & Hd3) (Ha1 & Ha2 & Ha3)
    HPhone HDetails HAddress.
  apply Forall_cons in HPhone as [HPn _].
  apply Forall_cons in HDetails as [HDn HDetails].
  apply Forall_cons in HDetails as [HDp _].
  apply Forall_cons in HAddress as [HAn HAddress].
  apply Forall_cons in HAddress as [HAp HAddress].
  apply Forall_cons in HAddress as [HAd _].
  assert (Hbody : JS.includes CLOSE_TAG (blockBody name phone details address) = false).
  { unfold blockBody.
    change (JS.LF ++ ("Name:" ++ name) ++ JS.LF ++ ("Phone:" ++ phone) ++ JS.LF
              ++ ("Details:" ++ details) ++ JS.LF ++ ("Address:" ++ address) ++ JS.LF)
      with ("" ++ JS.LF ++ ("Name:" ++ name) ++ JS.LF ++ ("Phone:" ++ phone) ++ JS.LF
              ++ ("Details:" ++ details) ++ JS.LF ++ ("Address:" ++ address) ++ JS.LF ++ "").
    rewrite !includes_lines by reflexivity.
    change CLOSE_TAG with (String "<" "/service_confirmation>").
    rewrite !includes_skip by reflexivity.
    change (String "<" "/service_confirmation>") with CLOSE_TAG.
    now rewrite Hn2, Hp2, Hd2, Ha2. }
  unfold extractConfirmation.
  rewrite confirmationBlock_body, !append_assoc.
  rewrite matchConfirmation_first by assumption.
  change (negb (blockBody name phone details address =? "")) with true. cbv iota.
  assert (HN : trimmedField "Name:" (blockBody name phone details address)
               = Some (JS.trim name)).
  { apply (trimmedField_line "Name:" ""); solve [reflexivity | assumption]. }
  assert (HP : trimmedField "Phone:" (blockBody name phone details address)
               = Some (JS.trim phone)).
  { unfold blockBody.
    rewrite <- (append_assoc JS.LF ("Name:" ++ name)).
    apply trimmedField_line; solve [reflexivity | assumption]. }
  assert (HD : trimmedField "Details:" (blockBody name phone details address)
               = Some (JS.trim details)).
  { unfold blockBody.
    rewrite <- (append_assoc ("Name:" ++ name) JS.LF).
    rewrite <- (append_assoc (("Name:" ++ name) ++ JS.LF)).
    rewrite <- (append_assoc JS.LF ((("Name:" ++ name) ++ JS.LF) ++ "Phone:" ++ phone)).
    apply trimmedField_line; try solve [reflexivity | assumption].
    rewrite !append_assoc.
    change (JS.LF ++ "Name:" ++ name ++ JS.LF ++ "Phone:" ++ phone)
      with ("" ++ JS.LF ++ ("Name:" ++ name) ++ JS.LF ++ ("Phone:" ++ phone)).
    rewrite !includes_lines by reflexivity.
    rewrite (includes_skip "D" "etails:" "Name:" name) by reflexivity.
    rewrite (includes_skip "D" "etails:" "Phone:" phone) by reflexivity.
    now rewrite HDn, HDp. }
  assert (HA : trimmedField "Address:" (blockBody name phone details address)
               = Some (JS.trim address)).
  { unfold blockBody.
    replace (JS.LF ++ ("Name:" ++ name) ++ JS.LF ++ ("Phone:" ++ phone) ++ JS.LF
               ++ ("Details:" ++ details) ++ JS.LF ++ ("Address:" ++ address) ++ JS.LF)
      with ((JS.LF ++ ("Name:" ++ name) ++ JS.LF ++ ("Phone:" ++ phone) ++ JS.LF
               ++ ("Details:" ++ details)) ++ JS.LF ++ ("Address:" ++ address) ++ JS.LF ++ "")
      by now rewrite !append_assoc.
    apply trimmedField_line; try solve [reflexivity | assumption].
    change (JS.LF ++ ("Name:" ++ name) ++ JS.LF ++ ("Phone:" ++ phone) ++ JS.LF
              ++ ("Details:" ++ details))
      with ("" ++ JS.LF ++ ("Name:" ++ name) ++ JS.LF ++ ("Phone:" ++ phone) ++ JS.LF
              ++ ("Details:" ++ details)).
    rewrite !includes_lines by reflexivity.
    rewrite (includes_skip "A" "ddress:" "Name:" name) by reflexivity.
    rewrite (includes_skip "A" "ddress:" "Phone:" phone) by reflexivity.
    rewrite (includes_skip "A" "ddress:" "Details:" details) by reflexivity.
    now rewrite HAn, HAp, HAd. }
  rewrite HN, HP, HD, HA.
  rewrite !truthy_not_blank by assumption. reflexivity.
Qed.

Lemma wireValue_sample (v : string) :
  singleLine v = true -> JS.includes CLOSE_TAG v = false ->
  negb (JS.trim v =? "") = true -> wireValue v.
Proof.
  intros Hline Hclose Hblank. repeat split; try assumption.
  intros Hv. rewrite Hv in Hblank. discriminate.
Qed.

Lemma extractConfirmation_wire_format_witness :
  wireValue " Juan" /\ wireValue " 3334854080" /\ wireValue " llanta ponchada"
  /\ wireValue " Calle 5, Mazamitla"
  /\ extractConfirmation
       ("Gracias. " ++ confirmationBlock " Juan" " 3334854080" " llanta ponchada"
                         " Calle 5, Mazamitla" ++ " La ayuda va en camino.")
     = Some {| cr_name := JS.trim " Juan"; cr_address := JS.trim " Calle 5, Mazamitla";
               cr_phone := JS.trim " 3334854080";
               cr_details := JS.trim " llanta ponchada" |}.
Proof.
  assert (Hn : wireValue " Juan") by (apply wireValue_sample; reflexivity).
  assert (Hp : wireValue " 3334854080") by (apply wireValue_sample; reflexivity).
  assert (Hd : wireValue " llanta ponchada") by (apply wireValue_sample; reflexivity).
  assert (Ha : wireValue " Calle 5, Mazamitla") by (apply wireValue_sample; reflexivity).
  repeat (split; [assumption|]).
  apply (extractConfirmation_wire_format "Gracias. " " La ayuda va en camino.");
    try assumption; try reflexivity; repeat constructor.
Defined.

(** ** What a turn changes and what it leaves *)

Lemma settings_fields (x y : MapApp) :
  settings x = settings y ->
  inputMessage x = inputMessage y /\ currentView x = currentView y
  /\ currentAdminTab x = currentAdminTab y /\ isMuted x = isMuted y
  /\ sendMessageHandlerSet x = sendMessageHandlerSet y.
Proof.
  intros Hxy. repeat split.
  - exact (f_equal inputMessage Hxy).
  - exact (f_equal currentView Hxy).
  - exact (f_equal currentAdminTab Hxy).
  - exact (f_equal isMuted Hxy).
  - exact (f_equal sendMessageHandlerSet Hxy).
Qed.

Lemma settings_selection (x y : MapApp) :
  settings x = settings y ->
  isLocationSelectionMode x = isLocationSelectionMode y
  /\ locationSelectionMessage x = locationSelectionMessage y
  /\ selectionMarker x = selectionMarker y
  /\ serviceHistory x = serviceHistory y.
Proof.
  intros Hxy. repeat split.
  - exact (f_equal isLocationSelectionMode Hxy).
  - exact (f_equal locationSelectionMessage Hxy).
  - exact (f_equal selectionMarker Hxy).
  - exact (f_equal serviceHistory Hxy).
Qed.

Section TurnFrame.

Context `{Ext : Collaborators}.

Lemma explainFunctionCall_frame (t : Turn) (fc : FunctionCall) :
  settings (app (explainFunctionCall t fc)) = settings (app t)
  /\ newCode (explainFunctionCall t fc) = newCode t
  /\ thoughtAccumulator (explainFunctionCall t fc) = thoughtAccumulator t.
Proof. repeat split. Qed.

Lemma processPart_frame (idx : nat) (t : Turn) (part : Part) :
  settings (app (processPart idx t part)) = settings (app t)
  /\ newCode (processPart idx t part) = newCode t ++ partText part.
Proof.
  unfold processPart, partText.
  destruct (part_functionCall part) as [fc|];
    destruct (JS.truthy (part_thought part));
    try destruct (JS.truthy (part_text part));
    cbn [app newCode explainFunctionCall addMessage];
    rewrite ?append_nil_r; split; reflexivity.
Qed.

Lemma fold_processPart_frame (idx : nat) (ps : list Part) (t : Turn) :
  settings (app (fold_left (processPart idx) ps t)) = settings (app t)
  /\ newCode (fold_left (processPart idx) ps t) = newCode t ++ accumulatedText ps.
Proof.
  revert t. induction ps as [|p ps IH]; intros t; simpl.
  - now rewrite append_nil_r.
  - destruct (IH (processPart idx t p)) as [Hs Hc].
    destruct (processPart_frame idx t p) as [Hs' Hc'].
    rewrite Hs, Hc, Hs', Hc'. now rewrite append_assoc.
Qed.

Lemma streamed_frame (a : MapApp) (ps : list Part) :
  settings (app (streamed a ps)) = settings a
  /\ newCode (streamed a ps) = accumulatedText ps.
Proof.
  unfold streamed.
  change (openTurn a) with (fst (openTurn a), length (messages a)). cbv iota beta.
  destruct (fold_processPart_frame (length (messages a)) ps
              {| app := fst (openTurn a); newCode := ""; thoughtAccumulator := "" |})
    as [Hs Hc].
  now rewrite Hs, Hc.
Qed.

Lemma completionNotice_messages (idx : nat) (a : MapApp) (base : list Message) :
  extends base (messages a) -> (length base <= idx)%nat ->
  extends base (messages (completionNotice idx a)).
Proof.
  intros Hext Hidx. unfold completionNotice.
  repeat match goal with |- context [if ?b then _ else _] => destruct b end;
    try assumption;
    unfold setTextAt, alterMessage; cbn [messages setMessages];
    apply extends_alter; solve [assumption | reflexivity].
Qed.

Lemma completionNotice_settings (idx : nat) (a : MapApp) :
  settings (completionNotice idx a) = settings a.
Proof.
  unfold completionNotice.
  repeat match goal with |- context [if ?b then _ else _] => destruct b end;
    reflexivity.
Qed.

Lemma extends_reply (base ms : list Message) :
  extends base ms -> (length base < length ms)%nat ->
  exists added, ms = (base ++ added)%list /\ added <> [] /\ Forall isReplyTurn added.
Proof.
  intros (added & -> & Hadded) Hlen. exists added. split; [reflexivity|]. split.
  - intros ->. rewrite app_nil_r in Hlen. lia.
  - eapply Forall_impl; [exact Hadded|]. intros m Hm. now left.
Qed.

Lemma sendMessageHandler_kept (a : MapApp) (input role : string) (env : TurnEnv) :
  let final := fst (sendMessageHandler a input role env) in
  (exists added,
      messages final = (messages a ++ added)%list
      /\ added <> [] /\ Forall isReplyTurn added)
  /\ inputMessage final = inputMessage a
  /\ currentView final = currentView a
  /\ currentAdminTab final = currentAdminTab a
  /\ isMuted final = isMuted a
  /\ sendMessageHandlerSet final = sendMessageHandlerSet a.
Proof.
  cbv zeta. rewrite sendMessageHandler_eq. cbv zeta. cbn [fst].
  pose proof (streamed_invariant a (parts (stream env))) as Hinv.
  destruct (streamed_frame a (parts (stream env))) as [Hset _].
  destruct (ending (stream env)) as [|e]; cbn [fst completeTurn].
  - destruct (settle_messages a _ env Hinv) as (Hext & Hlen & _).
    split.
    + cbn [messages setChatState]. apply extends_reply.
      * now apply completionNotice_messages.
      * unfold completionNotice.
        repeat match goal with |- context [if ?b then _ else _] => destruct b end;
          unfold setTextAt, alterMessage; cbn [messages setMessages];
          rewrite ?length_alter; exact Hlen.
    + destruct (settings_fields _ _ Hset) as (H1 & H2 & H3 & H4 & H5).
      destruct (settings_fields _ _
                  (completionNotice_settings (length (messages a))
                     (settle (length (messages a)) (streamed a (parts (stream env))) env)))
        as (N1 & N2 & N3 & N4 & N5).
      cbn [inputMessage currentView currentAdminTab isMuted sendMessageHandlerSet
           setChatState].
      rewrite N1, N2, N3, N4, N5. unfold settle.
      destruct (_ || _); destruct (extractConfirmation _);
        cbn [inputMessage currentView currentAdminTab isMuted sendMessageHandlerSet
             alterMessage setMessages addServiceToHistory setServiceHistory
             enableLocationSelectionMode];
        now rewrite H1, H2, H3, H4, H5.
  - split.
    + cbn [messages setChatState]. rewrite reportError_messages.
      destruct Hinv as ((added & -> & Hadded) & _). exists (added ++ [errorTurn e])%list.
      split; [now rewrite app_assoc|]. split.
      * intros Hnil. apply app_eq_nil in Hnil as [_ Hnil]. discriminate.
      * apply Forall_app. split.
        -- eapply Forall_impl; [exact Hadded|]. intros m Hm. now left.
        -- constructor; [now right | constructor].
    + destruct (settings_fields _ _ Hset) as (H1 & H2 & H3 & H4 & H5).
      unfold reportError, addMessage, setTextAt.
      cbn [inputMessage currentView currentAdminTab isMuted sendMessageHandlerSet
           alterMessage setMessages setChatState].
      now rewrite H1, H2, H3, H4, H5.
Qed.

(** X5: a turn leaves the turns already in the chat as they are and adds
    at least one turn after them, none of them a user turn; it leaves the
    input field, the view, the admin tab, the mute switch and the installed
    handler as they are. *)
Theorem sendMessageHandler_frame (a : MapApp) (input role : string) (env : TurnEnv) :
  let final := fst (sendMessageHandler a input role env) in
  (exists added,
      messages final = (messages a ++ added)%list
      /\ added <> [] /\ Forall isReplyTurn added)
  /\ inputMessage final = inputMessage a
  /\ currentView final = currentView a
  /\ currentAdminTab final = currentAdminTab a
  /\ isMuted final = isMuted a
  /\ sendMessageHandlerSet final = sendMessageHandlerSet a.
Proof. apply sendMessageHandler_kept. Qed.

End TurnFrame.

Lemma truthy_default (o : option string) : JS.truthy o = true -> default "" o <> "".
Proof.
  destruct o as [v|]; [|discriminate]. simpl.
  destruct (String.eqb_spec v ""); [discriminate | intros _; assumption].
Qed.

(** A record is extracted only with its four fields filled. *)
Lemma extractConfirmation_fields (newCode : string) (d : ConfirmationRecord) :
  extractConfirmation newCode = Some d ->
  cr_name d <> "" /\ cr_phone d <> "" /\ cr_address d <> "" /\ cr_details d <> "".
Proof.
  unfold extractConfirmation.
  destruct (matchConfirmation newCode) as [[[pre detailsText] post]|]; [|discriminate].
  destruct (negb (detailsText =? "")); [|discriminate].
  destruct (JS.truthy (trimmedField "Name:" detailsText)) eqn:Hn; [|discriminate].
  destruct (JS.truthy (trimmedField "Address:" detailsText)) eqn:Ha; [|discriminate].
  destruct (JS.truthy (trimmedField "Phone:" detailsText)) eqn:Hp; [|discriminate].
  cbn [andb]. intros [= <-]. cbn [cr_name cr_phone cr_address cr_details].
  repeat split; try now apply truthy_default.
  destruct (JS.truthy (trimmedField "Details:" detailsText)) eqn:Hd;
    [now apply truthy_default | discriminate].
Qed.

Section TurnOutcome.

Context `{Ext : Collaborators}.

(** X6: a turn whose stream throws skips what follows the stream: no
    service record is committed, even when a complete block had arrived,
    the location selection is not armed, and nothing is spoken. *)
Theorem failed_turn_commits_nothing (a : MapApp) (input role : string) (env : TurnEnv)
    (e : Thrown) :
  ending (stream env) = Failed e ->
  let result := sendMessageHandler a input role env in
  serviceHistory (fst result) = serviceHistory a
  /\ isLocationSelectionMode (fst result) = isLocationSelectionMode a
  /\ locationSelectionMessage (fst result) = locationSelectionMessage a
  /\ List.filter isSpeech (snd result) = [].
Proof.
  intros Hend. cbv zeta. rewrite sendMessageHandler_eq. cbv zeta. rewrite Hend.
  destruct (streamed_frame a (parts (stream env))) as [Hset _].
  destruct (settings_selection _ _ Hset) as (H1 & H2 & H3 & H4).
  unfold reportError, addMessage, setTextAt.
  cbn [fst snd serviceHistory isLocationSelectionMode locationSelectionMessage
       alterMessage setMessages setChatState List.filter isSpeech].
  now rewrite H1, H2, H4.
Qed.

(** X7: a completed turn leaves the service history as it is or puts one
    record in front of it, pending, without a price and with its name,
    phone, address and details filled. *)
Theorem completed_turn_commits_at_most_one (a : MapApp) (input role : string)
    (env : TurnEnv) :
  ending (stream env) = Completed ->
  let final := fst (sendMessageHandler a input role env) in
  serviceHistory final = serviceHistory a
  \/ exists item,
       serviceHistory final = item :: serviceHistory a /\ freshRecord item.
Proof.
  intros Hend. cbv zeta. rewrite (sendMessageHandler_serviceHistory a input role env Hend).
  destruct (extractConfirmation _) as [d|] eqn:Hd; [|now left].
  right. exists (newService d env). split; [reflexivity|].
  apply extractConfirmation_fields in Hd as (Hn & Hp & Ha & Hdet).
  unfold freshRecord, newService. cbn. repeat split; try assumption.
  now exists (cr_details d).
Qed.

(** X8: a muted assistant does not speak, however the turn ends. *)
Theorem muted_turn_is_silent (a : MapApp) (input role : string) (env : TurnEnv) :
  isMuted a = true ->
  List.filter isSpeech (snd (sendMessageHandler a input role env)) = [].
Proof.
  intros Hmuted. rewrite sendMessageHandler_eq. cbv zeta.
  destruct (streamed_frame a (parts (stream env))) as [Hset _].
  destruct (settings_fields _ _ Hset) as (_ & _ & _ & Hm & _).
  destruct (ending (stream env)); cbn [snd completeTurn List.filter isSpeech];
    [|reflexivity].
  unfold spokenText, speakMessage. rewrite Hm, Hmuted. cbn [orb].
  now destruct (_ =? "").
Qed.

(** X9: what an assistant that is not muted speaks after a completed
    stream is the accumulated text with the redaction applied twice, each
    time followed by a trim; it says nothing when either result is empty. *)
Theorem completed_turn_speech (a : MapApp) (input role : string) (env : TurnEnv) :
  ending (stream env) = Completed ->
  isMuted a = false ->
  let shown := JS.trim (redactConfirmation (accumulatedText (parts (stream env)))) in
  let said := JS.trim (redactConfirmation shown) in
  List.filter isSpeech (snd (sendMessageHandler a input role env))
  = if (shown =? "") || (said =? "") then [] else [SpeechCancel; Speak said].
Proof.
  intros Hend Hmuted. cbv zeta. rewrite sendMessageHandler_eq. cbv zeta. rewrite Hend.
  destruct (streamed_frame a (parts (stream env))) as [Hset Hcode].
  destruct (settings_fields _ _ Hset) as (_ & _ & _ & Hm & _).
  cbn [snd completeTurn List.filter isSpeech].
  unfold spokenText, speakMessage. rewrite Hm, Hmuted, Hcode. cbn [orb].
  destruct (JS.trim (redactConfirmation (accumulatedText (parts (stream env)))) =? "");
    [reflexivity|].
  cbn [orb]. now destruct (_ =? "").
Qed.

(** X10: after a completed stream the location selection is armed exactly
    when the accumulated text contains, in any case, one of the two phrases
    asking for a click on the map; otherwise it is left as it was. *)
Theorem completed_turn_location_selection (a : MapApp) (input role : string)
    (env : TurnEnv) :
  ending (stream env) = Completed ->
  let final := fst (sendMessageHandler a input role env) in
  if asksForMapClick (accumulatedText (parts (stream env)))
  then isLocationSelectionMode final = true
       /\ locationSelectionMessage final = LOCATION_PROMPT
       /\ selectionMarker final = false
  else isLocationSelectionMode final = isLocationSelectionMode a
       /\ locationSelectionMessage final = locationSelectionMessage a
       /\ selectionMarker final = selectionMarker a.
Proof.
  intros Hend. cbv zeta. rewrite sendMessageHandler_eq. cbv zeta. rewrite Hend.
  destruct (streamed_frame a (parts (stream env))) as [Hset Hcode].
  destruct (settings_selection _ _ Hset) as (H1 & H2 & H3 & _).
  destruct (settings_selection _ _
              (completionNotice_settings (length (messages a))
                 (settle (length (messages a)) (streamed a (parts (stream env))) env)))
    as (N1 & N2 & N3 & _).
  cbn [fst completeTurn isLocationSelectionMode locationSelectionMessage selectionMarker
       setChatState].
  rewrite N1, N2, N3. unfold settle, asksForMapClick. rewrite Hcode.
  destruct (_ || _); destruct (extractConfirmation _);
    cbn [isLocationSelectionMode locationSelectionMessage selectionMarker
         alterMessage setMessages addServiceToHistory setServiceHistory
         enableLocationSelectionMode];
    rewrite ?H1, ?H2, ?H3; repeat split.
Qed.

End TurnOutcome.

Lemma failed_turn_commits_nothing_witness :
  let env := sampleEnv [textPart (confirmationBlock " Juan" " 3334854080"
                                    " llanta ponchada" " Calle 5, Mazamitla")]
               (Failed (ThrownError "Failed to fetch")) in
  let result := sendMessageHandler (Ext := sampleCollaborators) initialApp "hola" "user" env in
  serviceHistory (fst result) = []
  /\ isLocationSelectionMode (fst result) = false
  /\ locationSelectionMessage (fst result) = ""
  /\ List.filter isSpeech (snd result) = [].
Proof.
  exact (failed_turn_commits_nothing (Ext := sampleCollaborators) initialApp "hola" "user"
           (sampleEnv [textPart (confirmationBlock " Juan" " 3334854080"
                                   " llanta ponchada" " Calle 5, Mazamitla")]
              (Failed (ThrownError "Failed to fetch")))
           (ThrownError "Failed to fetch") eq_refl).
Defined.

Lemma completed_turn_commits_at_most_one_witness :
  let env := sampleEnv [textPart (confirmationBlock " Juan" " 3334854080"
                                    " llanta ponchada" " Calle 5, Mazamitla")]
               Completed in
  let final := fst (sendMessageHandler (Ext := sampleCollaborators) initialApp "hola" "user"
                      env) in
  serviceHistory final = serviceHistory initialApp
  \/ exists item,
       serviceHistory final = item :: serviceHistory initialApp /\ freshRecord item.
Proof.
  exact (completed_turn_commits_at_most_one (Ext := sampleCollaborators) initialApp
           "hola" "user"
           (sampleEnv [textPart (confirmationBlock " Juan" " 3334854080"
                                   " llanta ponchada" " Calle 5, Mazamitla")] Completed)
           eq_refl).
Defined.

Lemma muted_turn_is_silent_witness :
  isMuted mutedApp = true
  /\ List.filter isSpeech
       (snd (sendMessageHandler (Ext := sampleCollaborators) mutedApp "hola" "user"
               (sampleEnv [textPart "Hola, soy el asistente."] Completed)))
     = [].
Proof.
  split; [reflexivity|].
  exact (muted_turn_is_silent (Ext := sampleCollaborators) mutedApp "hola" "user"
           (sampleEnv [textPart "Hola, soy el asistente."] Completed) eq_refl).
Defined.

Lemma completed_turn_speech_witness :
  List.filter isSpeech
    (snd (sendMessageHandler (Ext := sampleCollaborators) initialApp "hola" "user"
            (sampleEnv [textPart "Listo. ";
                        textPart (confirmationBlock " Juan" " 33" " x" " Calle 5");
                        textPart (" y " ++ confirmationBlock " Ana" " 44" " y" " Calle 6")]
               Completed)))
  = [SpeechCancel; Speak "Listo.  y"].
Proof.
  exact (completed_turn_speech (Ext := sampleCollaborators) initialApp "hola" "user"
           (sampleEnv [textPart "Listo. ";
                       textPart (confirmationBlock " Juan" " 33" " x" " Calle 5");
                       textPart (" y " ++ confirmationBlock " Ana" " 44" " y" " Calle 6")]
              Completed) eq_refl eq_refl).
Defined.

Lemma completed_turn_location_selection_witness :
  let final := fst (sendMessageHandler (Ext := sampleCollaborators) initialApp "hola" "user"
                      (sampleEnv [textPart "Por favor, haz Clic en el Mapa."] Completed)) in
  isLocationSelectionMode final = true
  /\ locationSelectionMessage final = LOCATION_PROMPT
  /\ selectionMarker final = false.
Proof.
  exact (completed_turn_location_selection (Ext := sampleCollaborators) initialApp
           "hola" "user"
           (sampleEnv [textPart "Por favor, haz Clic en el Mapa."] Completed) eq_refl).
Defined.

(** ** The send action, further *)

Section SendActionFurther.

Context `{Ext : Collaborators}.

Lemma addMessage_setTextAt (a : MapApp) (role message v : string) :
  setTextAt (snd (addMessage a role message)) v (fst (addMessage a role message))
  = setMessages (messages a ++ [ {| msg_role := JS.trim role;
                                    msg_thinkingHidden := false;
                                    msg_thinkingOpen := false;
                                    msg_thinking := "";
                                    msg_text := v |} ]) a.
Proof.
  unfold addMessage, setTextAt, alterMessage. cbn [fst snd messages setMessages].
  rewrite alter_app_r_alt by lia. rewrite Nat.sub_diag. reflexivity.
Qed.

Lemma length_zero_eqb (s : string) : s <> "" -> (String.length s =? 0)%nat = false.
Proof. destruct s; [contradiction | reflexivity]. Qed.

Lemma eqb_empty_false (s : string) : s <> "" -> (s =? "") = false.
Proof. intros Hs. now apply String.eqb_neq. Qed.

(** What [sendMessageAction] does with a message that is not empty, for the
    roles it is called with. *)
Lemma deliver_rendered (a : MapApp) (msg msgRole : string) (env : TurnEnv) :
  msg <> "" -> msgRole = "user" \/ msgRole = "system" ->
  deliver a msg msgRole env
  = let shown := if msgRole =? "system" then "assistant" else "user" in
    let a1 := setMessages (messages a ++ [renderedTurn shown msg]) a in
    if sendMessageHandlerSet a then sendMessageHandler a1 msg "user" env else (a1, []).
Proof.
  intros Hmsg Hrole. unfold deliver.
  rewrite (length_zero_eqb msg Hmsg), (eqb_empty_false msg Hmsg).
  destruct Hrole as [-> | ->]; cbn [String.eqb Ascii.eqb Bool.eqb orb andb negb];
    cbv zeta.
  - change (addMessage a "user" "...")
      with (fst (addMessage a "user" "..."), snd (addMessage a "user" "...")).
    cbv iota beta. rewrite addMessage_setTextAt. reflexivity.
  - change (addMessage a "assistant" "...")
      with (fst (addMessage a "assistant" "..."), snd (addMessage a "assistant" "...")).
    cbv iota beta. rewrite addMessage_setTextAt. reflexivity.
Qed.

(** X11: the send action returns with the chat state it was called with:
    a busy chat stays as it is, and an idle chat is idle again when the turn
    it started is over. *)
Theorem sendMessageAction_chatState (a : MapApp) (message role : option string)
    (env : TurnEnv) :
  chatState (fst (sendMessageAction a message role env)) = chatState a.
Proof.
  unfold sendMessageAction. destruct (chatState a) eqn:Hstate; cbn [isIdle negb];
    try (cbn [fst]; exact Hstate).
  assert (Hdeliver : forall x msg msgRole,
            chatState x = IDLE -> chatState (fst (deliver x msg msgRole env)) = IDLE).
  { intros x msg msgRole Hx. unfold deliver.
    destruct (_ =? 0)%nat; [exact Hx|].
    match goal with |- context [sendMessageHandlerSet ?y] =>
      destruct (sendMessageHandlerSet y) eqn:Hset; [|] end.
    - rewrite sendMessageHandler_eq. reflexivity.
    - cbn [fst]. destruct (_ || _); [|exact Hx].
      match goal with |- context [addMessage x ?r ?m] =>
        change (addMessage x r m) with (fst (addMessage x r m), snd (addMessage x r m))
      end.
      cbv iota beta. rewrite addMessage_setTextAt. exact Hx. }
  assert (Ha1 : chatState (if isLocationSelectionMode a && negb (JS.truthy message)
                           then disableLocationSelectionMode a else a) = IDLE)
    by (destruct (_ && _); exact Hstate).
  destruct (JS.truthy message).
  - destruct (deliver _ _ _ env) as [a2 evs] eqn:Hd. cbn [fst].
    change a2 with (fst (a2, evs)). rewrite <- Hd. now apply Hdeliver.
  - destruct (_ =? ADMIN_KEYWORD).
    + cbn [fst chatState setInputMessage openAdmin]. exact Ha1.
    + destruct (deliver _ _ _ env) as [a2 evs] eqn:Hd. cbn [fst].
      change a2 with (fst (a2, evs)). rewrite <- Hd. apply Hdeliver.
      destruct (_ <? _)%nat; exact Ha1.
Qed.

(** The first steps of the send action on an idle chat with no message
    argument: the selection mode is left, and a typed text is taken. *)
Lemma sendMessageAction_typed_eq (a : MapApp) (message role : option string)
    (env : TurnEnv) :
  chatState a = IDLE -> absent message -> absent role ->
  JS.trim (inputMessage a) <> "" ->
  JS.toLowerCase (JS.trim (inputMessage a)) <> ADMIN_KEYWORD ->
  let a1 := if isLocationSelectionMode a then disableLocationSelectionMode a else a in
  let a2 := setMessages
              (messages a ++ [renderedTurn "user" (JS.trim (inputMessage a))])
              (setInputMessage "" a1) in
  sendMessageAction a message role env
  = if sendMessageHandlerSet a
    then (fst (sendMessageHandler a2 (JS.trim (inputMessage a)) "user" env),
          SpeechCancel :: snd (sendMessageHandler a2 (JS.trim (inputMessage a)) "user" env))
    else (a2, [SpeechCancel]).
Proof.
  intros Hidle Hmsg Hrole Hblank Hadmin. unfold absent in *. cbv zeta.
  unfold sendMessageAction. rewrite Hidle, Hmsg, Hrole. cbn [isIdle negb].
  rewrite andb_true_r.
  assert (Hin : inputMessage (if isLocationSelectionMode a
                              then disableLocationSelectionMode a else a)
                = inputMessage a) by now destruct (isLocationSelectionMode a).
  rewrite Hin.
  apply String.eqb_neq in Hadmin. rewrite Hadmin.
  assert (Hlen : (0 <? String.length (JS.trim (inputMessage a)))%nat = true).
  { destruct (JS.trim (inputMessage a)); [contradiction | reflexivity]. }
  rewrite Hlen, deliver_rendered by (assumption || now left).
  cbv zeta. cbn [String.eqb Ascii.eqb Bool.eqb].
  assert (Hset : sendMessageHandlerSet
                   (setInputMessage ""
                      (if isLocationSelectionMode a
                       then disableLocationSelectionMode a else a))
                 = sendMessageHandlerSet a) by now destruct (isLocationSelectionMode a).
  assert (Hms : messages
                  (setInputMessage ""
                     (if isLocationSelectionMode a
                      then disableLocationSelectionMode a else a))
                = messages a) by now destruct (isLocationSelectionMode a).
  rewrite Hset, Hms.
  destruct (sendMessageHandlerSet a); [|reflexivity].
  now destruct (sendMessageHandler _ _ _ env).
Qed.

Lemma sendMessageAction_blank_eq (a : MapApp) (message role : option string)
    (env : TurnEnv) :
  chatState a = IDLE -> absent message ->
  JS.trim (inputMessage a) = "" ->
  sendMessageAction a message role env
  = (if isLocationSelectionMode a then disableLocationSelectionMode a else a,
     [SpeechCancel]).
Proof.
  intros Hidle Hmsg Hblank. unfold absent in Hmsg.
  unfold sendMessageAction. rewrite Hidle, Hmsg. cbn [isIdle negb].
  rewrite andb_true_r.
  assert (Hin : inputMessage (if isLocationSelectionMode a
                              then disableLocationSelectionMode a else a)
                = inputMessage a) by now destruct (isLocationSelectionMode a).
  rewrite Hin, Hblank. reflexivity.
Qed.

(** X12: sending while the typed text is blank adds no turn and invokes no
    model; it only cancels the speech in progress and leaves the location
    selection. *)
Theorem sendMessageAction_blank (a : MapApp) (message role : option string)
    (env : TurnEnv) :
  chatState a = IDLE -> absent message ->
  JS.trim (inputMessage a) = "" ->
  sendMessageAction a message role env
  = (if isLocationSelectionMode a then disableLocationSelectionMode a else a,
     [SpeechCancel]).
Proof. apply sendMessageAction_blank_eq. Qed.

(** X13: sending a typed text, on an idle chat with the handler installed,
    clears the input field, appends the text as a user turn followed by the
    turns of the reply, and invokes the model once with the trimmed text;
    the history of that invocation ends with the same text, as the user
    turn just rendered. *)
Theorem sendMessageAction_typed (a : MapApp) (message role : option string)
    (env : TurnEnv) :
  chatState a = IDLE -> sendMessageHandlerSet a = true ->
  absent message -> absent role ->
  JS.trim (inputMessage a) <> "" ->
  JS.toLowerCase (JS.trim (inputMessage a)) <> ADMIN_KEYWORD ->
  let msg := JS.trim (inputMessage a) in
  let result := sendMessageAction a message role env in
  (exists added,
      messages (fst result) = (messages a ++ renderedTurn "user" msg :: added)%list
      /\ added <> [] /\ Forall isReplyTurn added)
  /\ inputMessage (fst result) = ""
  /\ invocations (snd result)
     = [ ((map projected (List.filter (fun el => negb (isErrorTurn el)) (messages a))
           ++ [ {| content_role := "user";
                   content_text := JS.trim (textContent (marked_parse msg)) |} ])%list,
          msg) ].
Proof.
  intros Hidle Hset Hmsg Hrole Hblank Hadmin. cbv zeta.
  rewrite (sendMessageAction_typed_eq a message role env Hidle Hmsg Hrole Hblank Hadmin).
  cbv zeta. rewrite Hset. cbn [fst snd invocations].
  match goal with |- context [sendMessageHandler ?x _ _ env] => set (a2 := x) end.
  destruct (sendMessageHandler_kept a2 (JS.trim (inputMessage a)) "user" env)
    as ((added & Hadded & Hne & Hroles) & Hinput & _).
  split; [|split].
  - exists added. rewrite Hadded. unfold a2. cbn [messages setMessages].
    split; [now rewrite <- app_assoc | now split].
  - rewrite Hinput. unfold a2. now destruct (isLocationSelectionMode a).
  - rewrite sendMessageHandler_invocations. unfold a2. cbn [messages setMessages].
    rewrite List.filter_app, List.map_app. reflexivity.
Qed.

(** X14: a typed text sent before the handler is installed is rendered as
    a user turn and the input field is cleared, but no model is invoked. *)
Theorem sendMessageAction_without_handler (a : MapApp) (message role : option string)
    (env : TurnEnv) :
  chatState a = IDLE -> sendMessageHandlerSet a = false ->
  absent message -> absent role ->
  JS.trim (inputMessage a) <> "" ->
  JS.toLowerCase (JS.trim (inputMessage a)) <> ADMIN_KEYWORD ->
  let result := sendMessageAction a message role env in
  messages (fst result)
  = (messages a ++ [renderedTurn "user" (JS.trim (inputMessage a))])%list
  /\ inputMessage (fst result) = ""
  /\ snd result = [SpeechCancel].
Proof.
  intros Hidle Hset Hmsg Hrole Hblank Hadmin. cbv zeta.
  rewrite (sendMessageAction_typed_eq a message role env Hidle Hmsg Hrole Hblank Hadmin).
  cbv zeta. rewrite Hset. cbn [fst snd messages setMessages inputMessage].
  split; [reflexivity|]. split; reflexivity.
Qed.

End SendActionFurther.

Section SendActionRoles.

Context `{Ext : Collaborators}.

Lemma toLowerCase_not_empty (r : string) : JS.toLowerCase r <> "" -> JS.truthy (Some r) = true.
Proof. destruct r; [contradiction | reflexivity]. Qed.

Lemma trim_not_empty (m : string) : JS.trim m <> "" -> JS.truthy (Some m) = true.
Proof. destruct m; [intros Hm; now contradiction Hm | reflexivity]. Qed.

(** X15: a message sent with the role [system], as the initial greeting
    is, is rendered as an assistant turn and handed to the model as the
    message of the user; in the history of that invocation it is a turn of
    the model.  The input field is left as it is. *)
Theorem sendMessageAction_system (a : MapApp) (m r : string) (env : TurnEnv) :
  chatState a = IDLE -> sendMessageHandlerSet a = true ->
  JS.trim m <> "" -> JS.toLowerCase r = "system" ->
  let msg := JS.trim m in
  let result := sendMessageAction a (Some m) (Some r) env in
  (exists added,
      messages (fst result) = (messages a ++ renderedTurn "assistant" msg :: added)%list
      /\ added <> [] /\ Forall isReplyTurn added)
  /\ inputMessage (fst result) = inputMessage a
  /\ invocations (snd result)
     = [ ((map projected (List.filter (fun el => negb (isErrorTurn el)) (messages a))
           ++ [ {| content_role := "model";
                   content_text := JS.trim (textContent (marked_parse msg)) |} ])%list,
          msg) ].
Proof.
  intros Hidle Hset Hm Hr. cbv zeta. unfold sendMessageAction.
  rewrite Hidle, (trim_not_empty m Hm). cbn [isIdle negb andb default].
  rewrite andb_false_r.
  rewrite (toLowerCase_not_empty r) by (rewrite Hr; discriminate).
  change (id r) with r. change (id m) with m.
  rewrite Hr, deliver_rendered by (assumption || now right).
  cbv zeta. cbn [String.eqb Ascii.eqb Bool.eqb]. rewrite Hset.
  match goal with |- context [sendMessageHandler ?x _ _ env] => set (a2 := x) end.
  destruct (sendMessageHandler a2 (JS.trim m) "user" env) as [final evs] eqn:Hrun.
  cbn [fst snd invocations].
  pose proof (sendMessageHandler_kept a2 (JS.trim m) "user" env) as Hkept.
  pose proof (sendMessageHandler_invocations a2 (JS.trim m) "user" env) as Hinv.
  rewrite Hrun in Hkept, Hinv. cbn [fst snd] in Hkept, Hinv. cbv zeta in Hkept.
  destruct Hkept as ((added & Hadded & Hne & Hroles) & Hinput & _).
  split; [|split].
  - exists added. rewrite Hadded. unfold a2. cbn [messages setMessages].
    split; [now rewrite <- app_assoc | now split].
  - rewrite Hinput. reflexivity.
  - rewrite Hinv. unfold a2. cbn [messages setMessages].
    rewrite List.filter_app, List.map_app. reflexivity.
Qed.

Lemma deliver_inputMessage (x : MapApp) (msg msgRole : string) (env : TurnEnv) :
  inputMessage (fst (deliver x msg msgRole env)) = inputMessage x.
Proof.
  unfold deliver. destruct (_ =? 0)%nat; [reflexivity|].
  match goal with |- context [sendMessageHandlerSet ?y] => set (a1 := y) end.
  assert (Ha1 : inputMessage a1 = inputMessage x).
  { unfold a1. destruct (_ || _); [|reflexivity].
    match goal with |- context [addMessage x ?r ?m] =>
      change (addMessage x r m) with (fst (addMessage x r m), snd (addMessage x r m))
    end.
    cbv iota beta. rewrite addMessage_setTextAt. reflexivity. }
  destruct (sendMessageHandlerSet a1); [|exact Ha1].
  destruct (sendMessageHandler_kept a1 msg (if msgRole =? "system" then "user" else msgRole)
              env) as (_ & Hinput & _).
  now rewrite Hinput.
Qed.

(** X16: a send with a message argument, as after a click on the map or
    for the greeting, never touches what is being typed in the input
    field, whatever the role and the state of the chat. *)
Theorem sendMessageAction_explicit_keeps_input (a : MapApp) (m : string)
    (role : option string) (env : TurnEnv) :
  m <> "" ->
  inputMessage (fst (sendMessageAction a (Some m) role env)) = inputMessage a.
Proof.
  intros Hm. unfold sendMessageAction.
  destruct (isIdle (chatState a)); cbn [negb]; [|reflexivity].
  assert (Ht : JS.truthy (Some m) = true) by now apply truthy_not_blank.
  rewrite Ht. cbn [negb]. rewrite andb_false_r.
  destruct (deliver a _ _ env) as [a2 evs] eqn:Hd. cbn [fst].
  change a2 with (fst (a2, evs)). rewrite <- Hd. apply deliver_inputMessage.
Qed.

(** X17: while the send button is disabled the Enter key, like any other
    key, adds no turn, invokes no model and leaves the input field and the
    chat state as they are. *)
Theorem inputKeyDownAction_disabled (a : MapApp) (key : string) (shiftKey : bool)
    (env : TurnEnv) :
  sendButtonDisabled a = true ->
  let result := inputKeyDownAction a key shiftKey env in
  messages (fst result) = messages a
  /\ inputMessage (fst result) = inputMessage a
  /\ chatState (fst result) = chatState a
  /\ invocations (snd result) = [].
Proof.
  intros Hdisabled. cbv zeta. unfold inputKeyDownAction.
  destruct (_ && _); [|now repeat split].
  unfold sendButtonDisabled in Hdisabled.
  destruct (isIdle (chatState a)) eqn:Hidle.
  - cbn [negb orb] in Hdisabled. apply String.eqb_eq in Hdisabled.
    assert (Hstate : chatState a = IDLE) by now destruct (chatState a).
    rewrite (sendMessageAction_blank_eq a None None env Hstate eq_refl Hdisabled).
    cbn [fst snd invocations]. now destruct (isLocationSelectionMode a).
  - unfold sendMessageAction. rewrite Hidle. now repeat split.
Qed.

(** X18: with the send button enabled, Enter without Shift always takes
    the typed text: the input field is cleared, and either the admin panel
    opens with the chat untouched or the trimmed text is appended as a user
    turn. *)
Theorem inputKeyDownAction_enabled (a : MapApp) (env : TurnEnv) :
  sendButtonDisabled a = false ->
  let result := inputKeyDownAction a "Enter" false env in
  inputMessage (fst result) = ""
  /\ ((currentView (fst result) = ViewAdmin /\ messages (fst result) = messages a)
      \/ exists rest,
           messages (fst result)
           = (messages a ++ renderedTurn "user" (JS.trim (inputMessage a)) :: rest)%list).
Proof.
  intros Henabled. cbv zeta. unfold inputKeyDownAction. cbn [String.eqb Ascii.eqb Bool.eqb andb negb].
  unfold sendButtonDisabled in Henabled. apply orb_false_elim in Henabled as [Hidle Hblank].
  apply negb_false_iff in Hidle. apply String.eqb_neq in Hblank.
  assert (Hstate : chatState a = IDLE) by now destruct (chatState a).
  destruct (String.eqb_spec (JS.toLowerCase (JS.trim (inputMessage a))) ADMIN_KEYWORD)
    as [Hadmin|Hadmin].
  - unfold sendMessageAction. rewrite Hstate. cbn [isIdle negb JS.truthy andb].
    rewrite andb_true_r.
    assert (Hin : inputMessage (if isLocationSelectionMode a
                                then disableLocationSelectionMode a else a)
                  = inputMessage a) by now destruct (isLocationSelectionMode a).
    rewrite Hin, Hadmin, String.eqb_refl. cbn [fst inputMessage setInputMessage].
    split; [reflexivity|]. left. now destruct (isLocationSelectionMode a).
  - rewrite (sendMessageAction_typed_eq a None None env Hstate eq_refl eq_refl Hblank Hadmin).
    cbv zeta.
    destruct (sendMessageHandlerSet a).
    + cbn [fst].
      match goal with |- context [sendMessageHandler ?x _ _ env] => set (a2 := x) end.
      destruct (sendMessageHandler_kept a2 (JS.trim (inputMessage a)) "user" env)
        as ((added & Hadded & _) & Hinput & _).
      split.
      * rewrite Hinput. reflexivity.
      * right. exists added. rewrite Hadded. unfold a2. cbn [messages setMessages].
        now rewrite <- app_assoc.
    + cbn [fst]. split; [reflexivity|]. right. now exists [].
Qed.

End SendActionRoles.

Ltac differ := let H := fresh in intros H; vm_compute in H; discriminate H.

Lemma sendMessageAction_blank_witness :
  sendMessageAction (Ext := sampleCollaborators) blankSelectingApp None None
    (sampleEnv [textPart "Hola"] Completed)
  = (disableLocationSelectionMode blankSelectingApp, [SpeechCancel]).
Proof.
  exact (sendMessageAction_blank (Ext := sampleCollaborators) blankSelectingApp None None
           (sampleEnv [textPart "Hola"] Completed) eq_refl eq_refl eq_refl).
Defined.

Lemma sendMessageAction_typed_witness :
  let result := sendMessageAction (Ext := sampleCollaborators) typingApp None None
                  (sampleEnv [textPart "Claro."] Completed) in
  (exists added,
      messages (fst result)
      = ([] ++ renderedTurn (Ext := sampleCollaborators) "user" "Necesito ayuda" :: added)%list
      /\ added <> [] /\ Forall isReplyTurn added)
  /\ inputMessage (fst result) = ""
  /\ invocations (snd result)
     = [ ([ {| content_role := "user"; content_text := "<p>Necesito ayuda</p>" |} ],
          "Necesito ayuda") ].
Proof.
  assert (Hblank : JS.trim (inputMessage typingApp) <> "") by differ.
  assert (Hadmin : JS.toLowerCase (JS.trim (inputMessage typingApp)) <> ADMIN_KEYWORD)
    by differ.
  exact (sendMessageAction_typed (Ext := sampleCollaborators) typingApp None None
           (sampleEnv [textPart "Claro."] Completed) eq_refl eq_refl eq_refl eq_refl
           Hblank Hadmin).
Defined.

Lemma sendMessageAction_without_handler_witness :
  let result := sendMessageAction (Ext := sampleCollaborators) unconnectedApp None None
                  (sampleEnv [textPart "Claro."] Completed) in
  messages (fst result) = [renderedTurn (Ext := sampleCollaborators) "user" "hola"]
  /\ inputMessage (fst result) = ""
  /\ snd result = [SpeechCancel].
Proof.
  assert (Hblank : JS.trim (inputMessage unconnectedApp) <> "") by differ.
  assert (Hadmin : JS.toLowerCase (JS.trim (inputMessage unconnectedApp)) <> ADMIN_KEYWORD)
    by differ.
  exact (sendMessageAction_without_handler (Ext := sampleCollaborators) unconnectedApp
           None None (sampleEnv [textPart "Claro."] Completed) eq_refl eq_refl eq_refl
           eq_refl Hblank Hadmin).
Defined.

Lemma sendMessageAction_system_witness :
  let result := sendMessageAction (Ext := sampleCollaborators) typingApp
                  (Some " Saluda al usuario. ") (Some "System")
                  (sampleEnv [textPart "Hola."] Completed) in
  (exists added,
      messages (fst result)
      = ([] ++ renderedTurn (Ext := sampleCollaborators) "assistant" "Saluda al usuario."
            :: added)%list
      /\ added <> [] /\ Forall isReplyTurn added)
  /\ inputMessage (fst result) = "  Necesito ayuda "
  /\ invocations (snd result)
     = [ ([ {| content_role := "model"; content_text := "<p>Saluda al usuario.</p>" |} ],
          "Saluda al usuario.") ].
Proof.
  assert (Hm : JS.trim " Saluda al usuario. " <> "") by differ.
  exact (sendMessageAction_system (Ext := sampleCollaborators) typingApp
           " Saluda al usuario. " "System" (sampleEnv [textPart "Hola."] Completed)
           eq_refl eq_refl Hm eq_refl).
Defined.

Lemma sendMessageAction_explicit_keeps_input_witness :
  "Calle 5, Mazamitla" <> ""
  /\ inputMessage
       (fst (sendMessageAction (Ext := sampleCollaborators) typingApp
               (Some "Calle 5, Mazamitla") (Some "user")
               (sampleEnv [textPart "Gracias."] Completed)))
     = "  Necesito ayuda ".
Proof.
  assert (Hm : "Calle 5, Mazamitla" <> "") by discriminate.
  split; [exact Hm|].
  exact (sendMessageAction_explicit_keeps_input (Ext := sampleCollaborators) typingApp
           "Calle 5, Mazamitla" (Some "user") (sampleEnv [textPart "Gracias."] Completed) Hm).
Defined.

Lemma inputKeyDownAction_disabled_witness :
  let result := inputKeyDownAction (Ext := sampleCollaborators) blankSelectingApp
                  "Enter" false (sampleEnv [textPart "Hola"] Completed) in
  sendButtonDisabled blankSelectingApp = true
  /\ messages (fst result) = []
  /\ inputMessage (fst result) = "   "
  /\ chatState (fst result) = IDLE
  /\ invocations (snd result) = [].
Proof.
  cbv zeta. split; [reflexivity|].
  exact (inputKeyDownAction_disabled (Ext := sampleCollaborators) blankSelectingApp
           "Enter" false (sampleEnv [textPart "Hola"] Completed) eq_refl).
Defined.

Lemma inputKeyDownAction_enabled_witness :
  let result := inputKeyDownAction (Ext := sampleCollaborators) typingApp "Enter" false
                  (sampleEnv [textPart "Claro."] Completed) in
  sendButtonDisabled typingApp = false
  /\ inputMessage (fst result) = ""
  /\ ((currentView (fst result) = ViewAdmin /\ messages (fst result) = messages typingApp)
      \/ exists rest,
           messages (fst result)
           = (messages typingApp
                ++ renderedTurn (Ext := sampleCollaborators) "user"
                     (JS.trim (inputMessage typingApp)) :: rest)%list).
Proof.
  cbv zeta. split; [reflexivity|].
  exact (inputKeyDownAction_enabled (Ext := sampleCollaborators) typingApp
           (sampleEnv [textPart "Claro."] Completed) eq_refl).
Defined.

(** ** The service history, further *)

Lemma mapService_customerData (a : MapApp) (serviceId : string)
    (f : ServiceHistoryItem -> ServiceHistoryItem) :
  (forall s, customerData (f s) = customerData s) ->
  map customerData (serviceHistory (mapService serviceId f a))
  = map customerData (serviceHistory a)
  /\ setServiceHistory [] (mapService serviceId f a) = setServiceHistory [] a.
Proof.
  intros Hf. unfold mapService. cbn [serviceHistory setServiceHistory].
  split; [|reflexivity].
  rewrite map_map. apply map_ext. intros s.
  destruct (svc_id s =? serviceId); [apply Hf | reflexivity].
Qed.

(** X19: whatever status handler is called, with whatever id and answer,
    the services of the history keep their number, their order and their
    id, name, phone, address, details and timestamp, and nothing but the
    history changes in the state. *)
Theorem runStatusCall_keeps_customer_data (a : MapApp) (c : StatusCall) :
  map customerData (serviceHistory (runStatusCall a c))
  = map customerData (serviceHistory a)
  /\ setServiceHistory [] (runStatusCall a c) = setServiceHistory [] a.
Proof.
  destruct c as [serviceId|serviceId|serviceId promptAnswer]; cbn [runStatusCall].
  - unfold _handleApprove. destruct (findService serviceId a); [|now split].
    now apply mapService_customerData.
  - unfold _handleProcess. destruct (findService serviceId a); [|now split].
    now apply mapService_customerData.
  - unfold _handleFinish. destruct (findService serviceId a); [|now split].
    destruct promptAnswer as [price|]; [|now split].
    destruct (negb (JS.trim price =? "")); [|now split].
    now apply mapService_customerData.
Qed.

Lemma itemStep_finished (s s' : ServiceHistoryItem) :
  svc_status s = Terminado -> itemStep s s' -> s' = s.
Proof.
  intros Hs [Heq | (_ & Hstage & _)]; [assumption|].
  rewrite Hs in Hstage. destruct (svc_status s'); discriminate.
Qed.

(** X20: on a history with distinct ids a finished service is final: no
    sequence of clicks changes it, its price included; and the history
    keeps distinct ids and prices on finished services only. *)
Theorem finished_service_is_final (a : MapApp) (cs : list Click) (i : nat)
    (s : ServiceHistoryItem) :
  wellFormedHistory (serviceHistory a) ->
  serviceHistory a !! i = Some s -> svc_status s = Terminado ->
  serviceHistory (clicks a cs) !! i = Some s
  /\ wellFormedHistory (serviceHistory (clicks a cs)).
Proof.
  revert a. induction cs as [|c cs IH]; intros a Hwf Hi Hs; [now split|].
  simpl. destruct (click_step a c Hwf) as [Hstep Hwf'].
  apply IH; [assumption | | assumption].
  destruct (Forall2_lookup_l _ _ _ _ _ Hstep Hi) as (s' & Hi' & Hss').
  now rewrite Hi', (itemStep_finished s s' Hs Hss').
Qed.

Lemma map_only_row (h : list ServiceHistoryItem) (i : nat) (s : ServiceHistoryItem)
    (f : ServiceHistoryItem -> ServiceHistoryItem) :
  NoDup (map svc_id h) -> h !! i = Some s ->
  map (fun service => if svc_id service =? svc_id s then f service else service) h
  = <[i := f s]> h.
Proof.
  revert i. induction h as [|x h IH]; intros i Hnd Hi; [discriminate|].
  cbn [map] in Hnd. apply NoDup_cons in Hnd as [Hx Hnd].
  destruct i as [|i]; cbn [map].
  - injection Hi as ->. rewrite String.eqb_refl. cbn. f_equal.
    rewrite <- (map_id h) at 2. apply map_ext_in. intros y Hy.
    destruct (String.eqb_spec (svc_id y) (svc_id s)) as [Heq|]; [|reflexivity].
    exfalso. apply Hx. rewrite <- Heq. apply list_elem_of_In. now apply in_map.
  - cbn in Hi. cbn. f_equal; [|now apply IH].
    destruct (String.eqb_spec (svc_id x) (svc_id s)) as [Heq|]; [|reflexivity].
    exfalso. apply Hx. rewrite Heq. apply list_elem_of_In. apply in_map.
    apply list_elem_of_In. eapply list_elem_of_lookup_2. eassumption.
Qed.

Lemma findService_known (a : MapApp) (i : nat) (s : ServiceHistoryItem) :
  serviceHistory a !! i = Some s -> findService (svc_id s) a <> None.
Proof.
  unfold findService. intros Hi Hnone.
  apply list_elem_of_lookup_2, list_elem_of_In in Hi.
  apply (find_none _ _ Hnone) in Hi. now rewrite String.eqb_refl in Hi.
Qed.

(** X21: on a history with distinct ids, a click on a button that is
    rendered in a row changes that row only, into what the button makes of
    it; every other row and the rest of the state stay as they are. *)
Theorem click_changes_its_row (a : MapApp) (c : Click) (s : ServiceHistoryItem) :
  NoDup (map svc_id (serviceHistory a)) ->
  serviceHistory a !! click_row c = Some s ->
  existsb (buttonEqb (click_button c)) (serviceActions s) = true ->
  click a c
  = setServiceHistory
      (<[click_row c := advanced (click_button c) (click_prompt c) s]> (serviceHistory a)) a.
Proof.
  intros Hnd Hrow Hbutton. unfold click. rewrite Hrow, Hbutton.
  pose proof (findService_known a _ s Hrow) as Hfound.
  assert (Hsame : a = setServiceHistory (<[click_row c := s]> (serviceHistory a)) a).
  { rewrite list_insert_id by assumption. now destruct a. }
  unfold advanced, _handleApprove, _handleProcess, _handleFinish.
  destruct (click_button c); destruct (findService (svc_id s) a); try contradiction;
    unfold mapService.
  - now rewrite (map_only_row _ _ _ _ Hnd Hrow).
  - now rewrite (map_only_row _ _ _ _ Hnd Hrow).
  - destruct (click_prompt c) as [price|]; [|exact Hsame].
    destruct (negb (JS.trim price =? "")); [|exact Hsame].
    now rewrite (map_only_row _ _ _ _ Hnd Hrow).
Qed.

Lemma finished_service_is_final_witness :
  let a := setServiceHistory [sampleService "2-b" Pendiente None;
                              sampleService "1-a" Terminado (Some "250.00")] initialApp in
  let cs := [ {| click_row := 1; click_button := Aprobar; click_prompt := None |};
              {| click_row := 0; click_button := Aprobar; click_prompt := None |};
              {| click_row := 1; click_button := Terminar; click_prompt := Some "1" |} ] in
  serviceHistory (clicks a cs) !! 1%nat = Some (sampleService "1-a" Terminado (Some "250.00"))
  /\ wellFormedHistory (serviceHistory (clicks a cs)).
Proof.
  apply (finished_service_is_final
           (setServiceHistory [sampleService "2-b" Pendiente None;
                               sampleService "1-a" Terminado (Some "250.00")] initialApp)
           _ 1 (sampleService "1-a" Terminado (Some "250.00")));
    [|reflexivity|reflexivity].
  split.
  - apply NoDup_cons. split; [|apply NoDup_singleton].
    rewrite list_elem_of_In. simpl. intros [Heq|[]]. discriminate.
  - repeat constructor. cbn. congruence.
Defined.

Lemma click_changes_its_row_witness :
  click (setServiceHistory sampleHistory initialApp)
    {| click_row := 1; click_button := Terminar; click_prompt := Some " 250.00" |}
  = setServiceHistory
      [sampleService "2-b" Pendiente None; sampleService "1-a" Terminado (Some " 250.00")]
      initialApp.
Proof.
  apply (click_changes_its_row (setServiceHistory sampleHistory initialApp)
           {| click_row := 1; click_button := Terminar; click_prompt := Some " 250.00" |}
           (sampleService "1-a" EnProceso None));
    [|reflexivity|reflexivity].
  exact (proj1 sampleHistory_wellFormed).
Defined.

(** ** The map *)

Lemma length_substring (n : nat) (s : string) :
  (n <= String.length s)%nat -> String.length (String.substring 0 n s) = n.
Proof.
  revert s. induction n as [|n IH]; intros s Hn.
  - now destruct s.
  - destruct s as [|c r]; [simpl in Hn; lia|].
    simpl in *. rewrite IH; [reflexivity | lia].
Qed.

Lemma markerLabel_bounded_lemma (locationQuery : string) :
  (String.length (markerLabel locationQuery) <= 30)%nat
  /\ ((String.length locationQuery <= 30)%nat -> markerLabel locationQuery = locationQuery).
Proof.
  unfold markerLabel.
  destruct (Nat.ltb_spec 30 (String.length locationQuery)) as [Hlong|Hshort].
  - split; [|lia]. rewrite length_append, length_substring by lia. simpl. lia.
  - now split.
Qed.

(** X22: the label of the marker of a viewed location is at most 30
    characters long; a query of at most 30 characters is its own label. *)
Theorem markerLabel_bounded (locationQuery : string) :
  (String.length (markerLabel locationQuery) <= 30)%nat
  /\ ((String.length locationQuery <= 30)%nat -> markerLabel locationQuery = locationQuery).
Proof. apply markerLabel_bounded_lemma. Qed.

Section MapProperties.

Context {Position : Type} `{Ext : Collaborators}.

Lemma addErrorMessage_eq (a : MapApp) (raw : string) :
  addErrorMessage a raw = setMessages (messages a ++ [renderedTurn "error" raw]) a.
Proof.
  unfold addErrorMessage.
  change (addMessage a "error" "Processing error...")
    with (fst (addMessage a "error" "Processing error..."),
          snd (addMessage a "error" "Processing error...")).
  cbv iota beta. now rewrite addMessage_setTextAt.
Qed.

(** X23: while the map API is not loaded a map query makes no request and
    leaves the map as it is.  The chat is left as it is when a map error is
    on display or the query asks for no operation; otherwise it gets exactly
    one error turn, rendered from the text that says the map is not ready
    for the operation asked for. *)
Theorem performMapQuery_not_loaded (a : MapApp) (m : MapSurface Position)
    (params : MapParams) :
  mapInitialized Position m = false ->
  let '(a', m', requests) := performMapQuery Position a m params in
  m' = m /\ requests = []
  /\ (mapError Position m <> "" \/ handleMapQuery params = [] -> a' = a)
  /\ (mapError Position m = "" ->
      (forall locationQuery,
          handleMapQuery params = [ViewLocation locationQuery] ->
          a' = setMessages (messages a ++ [renderedTurn "error" VIEW_NOT_READY]) a)
      /\ (forall originQuery destinationQuery,
            handleMapQuery params = [Directions originQuery destinationQuery] ->
            a' = setMessages (messages a ++ [renderedTurn "error" DIRECTIONS_NOT_READY]) a))
  /\ (handleMapQuery params = []
      \/ (exists locationQuery, handleMapQuery params = [ViewLocation locationQuery])
      \/ (exists originQuery destinationQuery,
            handleMapQuery params = [Directions originQuery destinationQuery])).
Proof.
  intros Hload. unfold performMapQuery.
  assert (Hops : handleMapQuery params = []
                 \/ (exists q, handleMapQuery params = [ViewLocation q])
                 \/ (exists o d, handleMapQuery params = [Directions o d])).
  { unfold handleMapQuery.
    repeat match goal with |- context [if ?b then _ else _] => destruct b end; eauto. }
  destruct Hops as [Hq | [(q & Hq) | (o & d & Hq)]]; rewrite Hq; cbn [fold_left].
  - split; [reflexivity|]. split; [reflexivity|]. split; [reflexivity|].
    split; [|now left]. intros _. split; intros; discriminate.
  - unfold _handleViewLocation. rewrite Hload. cbn [negb orb app].
    split; [reflexivity|]. split; [reflexivity|]. split; [|split; [|eauto]].
    + intros [Herr | Hnone]; [|discriminate].
      now destruct (String.eqb_spec (mapError Position m) "").
    + intros Herr. rewrite Herr. cbn [String.eqb]. rewrite addErrorMessage_eq.
      split; [reflexivity | intros; discriminate].
  - unfold _handleDirections. rewrite Hload. cbn [negb orb app].
    split; [reflexivity|]. split; [reflexivity|]. split; [|split; [|eauto]].
    + intros [Herr | Hnone]; [|discriminate].
      now destruct (String.eqb_spec (mapError Position m) "").
    + intros Herr. rewrite Herr. cbn [String.eqb]. rewrite addErrorMessage_eq.
      split; [intros; discriminate | reflexivity].
Qed.

(** X24: on a map that is ready, a query with a location clears the
    marker, the route elements and the selection marker, and asks for the
    geocoding of that location within Mexico; the chat is not touched. *)
Theorem performMapQuery_view_ready (a : MapApp) (m : MapSurface Position)
    (params : MapParams) (loc : string) :
  present (location params) loc ->
  mapInitialized Position m = true -> mapElement Position m = true ->
  geocoder Position m = true -> Marker3DElement Position m = true ->
  let '(a', m', requests) := performMapQuery Position a m params in
  requests = [GeocodeAddress loc "MX"]
  /\ marker Position m' = None /\ routePolyline Position m' = false
  /\ originMarker Position m' = false /\ destinationMarker Position m' = false
  /\ selectionMarker a' = false
  /\ messages a' = messages a /\ chatState a' = chatState a.
Proof.
  intros Hloc H1 H2 H3 H4. unfold performMapQuery.
  destruct (present_truthy _ _ Hloc) as [Htruthy Hvalue].
  unfold handleMapQuery. rewrite Htruthy, Hvalue. cbn [fold_left].
  unfold _handleViewLocation. rewrite H1, H2, H3, H4. cbn [negb orb].
  repeat split.
Qed.

End MapProperties.

Section MapCallbacks.

Context {Position : Type} `{Ext : Collaborators}.

(** X25: the outcome of the geocoding of a viewed location.  When it
    fails, by its status or for want of a result, the chat gets one error
    turn, rendered from a message that quotes the query and gives the
    status, the map is left as it is and no request is made.  When it
    succeeds on a map that is there, the camera flies to the position found
    and one marker is put there, labelled with the query cut to 30
    characters at most; the chat is left as it is. *)
Theorem viewLocationCallback_outcome (a : MapApp) (m : MapSurface Position)
    (locationQuery status : string) (firstResult : option Position) :
  (firstResult = None \/ status <> "OK" ->
     viewLocationCallback Position a m locationQuery firstResult status
     = (setMessages
          (messages a ++ [renderedTurn "error" (geocodeFailureMessage locationQuery status)])
          a, m, [])
     /\ JS.includes locationQuery (geocodeFailureMessage locationQuery status) = true
     /\ JS.includes status (geocodeFailureMessage locationQuery status) = true)
  /\ (forall location,
        firstResult = Some location -> status = "OK" -> mapElement Position m = true ->
        viewLocationCallback Position a m locationQuery firstResult status
        = (a,
           setMarker Position
             (Some {| marker_position := location;
                      marker_label := markerLabel locationQuery |}) m,
           [FlyCameraTo location])
        /\ (String.length (markerLabel locationQuery) <= 30)%nat).
Proof.
  split.
  - intros Hfail. split; [|split].
    + unfold viewLocationCallback.
      destruct firstResult as [location|].
      * destruct Hfail as [Hnone|Hstatus]; [discriminate|].
        apply String.eqb_neq in Hstatus. rewrite Hstatus. cbn [andb].
        now rewrite addErrorMessage_eq.
      * now rewrite addErrorMessage_eq.
    + unfold geocodeFailureMessage.
      repeat (first [apply includes_prefixed | apply includes_append_r]).
    + unfold geocodeFailureMessage.
      repeat (first [apply includes_prefixed | apply includes_append_r]).
  - intros location -> -> Hmap. split; [|apply markerLabel_bounded_lemma].
    unfold viewLocationCallback. rewrite Hmap. reflexivity.
Qed.

End MapCallbacks.

Section LocationSelection.

Context `{Ext : Collaborators}.


(** X27: a reverse geocoding that fails keeps the location selection as it
    was, so that the user can click again, removes the selection marker,
    shows a message that gives the status, and sends nothing. *)
Theorem reverseGeocodeCallback_failure (a : MapApp) (firstAddress : option string)
    (status : string) (env : TurnEnv) :
  firstAddress = None \/ status <> "OK" ->
  let result := reverseGeocodeCallback a firstAddress status env in
  snd result = []
  /\ isLocationSelectionMode (fst result) = isLocationSelectionMode a
  /\ selectionMarker (fst result) = false
  /\ locationSelectionMessage (fst result) = reverseGeocodeFailureMessage status
  /\ JS.includes status (reverseGeocodeFailureMessage status) = true
  /\ messages (fst result) = messages a.
Proof.
  intros Hfail. cbv zeta.
  assert (Hresult : reverseGeocodeCallback a firstAddress status env
                    = (setSelectionMarker false
                         (setLocationSelectionMessage (reverseGeocodeFailureMessage status) a),
                       [])).
  { unfold reverseGeocodeCallback. destruct firstAddress as [address|]; [|reflexivity].
    destruct Hfail as [Hnone|Hstatus]; [discriminate|].
    apply String.eqb_neq in Hstatus. now rewrite Hstatus. }
  rewrite Hresult. cbn [fst snd]. repeat split.
  unfold reverseGeocodeFailureMessage.
  repeat (first [apply includes_prefixed | apply includes_append_r]).
Qed.

End LocationSelection.

(** ** The inventory *)

Lemma runInventoryOp_persisted (st : InventoryState) (op : InventoryOp) :
  storedInventory st = Some (inventory st) ->
  storedInventory (runInventoryOp st op) = Some (inventory (runInventoryOp st op)).
Proof.
  intros Hst. destruct op as [|form now random36|itemToEdit|itemId confirmed|];
    cbn [runInventoryOp].
  - unfold _loadInventory. rewrite Hst. cbn. exact Hst.
  - reflexivity.
  - exact Hst.
  - unfold _deleteInventoryItem. destruct confirmed; [reflexivity | exact Hst].
  - exact Hst.
Qed.

Lemma inventorySession_persisted (stored : option (list InventoryItem))
    (ops : list InventoryOp) :
  storedInventory (inventorySession stored ops)
  = Some (inventory (inventorySession stored ops)).
Proof.
  unfold inventorySession.
  assert (Hstart : storedInventory (_loadInventory (freshInventory stored))
                   = Some (inventory (_loadInventory (freshInventory stored))))
    by now destruct stored.
  revert Hstart. generalize (_loadInventory (freshInventory stored)).
  induction ops as [|op ops IH]; intros st Hst; [exact Hst|].
  simpl. apply IH. now apply runInventoryOp_persisted.
Qed.

(** X28: the inventory is saved whenever it changes: at any time after the
    start-up what is stored is the inventory in use, so that a component
    started afterwards finds that inventory again, an emptied inventory
    included: the default items come back only when nothing was ever
    stored. *)
Theorem inventory_is_persisted (stored : option (list InventoryItem))
    (ops : list InventoryOp) :
  let st := inventorySession stored ops in
  storedInventory st = Some (inventory st)
  /\ inventory (inventorySession (storedInventory st) []) = inventory st
  /\ inventory (inventorySession None []) = DEFAULT_INVENTORY.
Proof.
  cbv zeta. pose proof (inventorySession_persisted stored ops) as Hst.
  split; [exact Hst|]. split; [|reflexivity].
  rewrite Hst. reflexivity.
Qed.

(** X29: a confirmed deletion removes every item with the given id and no
    other, keeping the order of the rest; an id that no item has removes
    nothing, and a deletion that is not confirmed changes nothing. *)
Theorem deleteInventoryItem_removes (st : InventoryState) (itemId : string) :
  let st' := _deleteInventoryItem st itemId true in
  Forall (fun item => inv_id item <> itemId) (inventory st')
  /\ List.filter (fun item => negb (inv_id item =? itemId)) (inventory st) = inventory st'
  /\ (forall item, inv_id item <> itemId ->
        (In item (inventory st') <-> In item (inventory st)))
  /\ (Forall (fun item => inv_id item <> itemId) (inventory st) ->
        inventory st' = inventory st)
  /\ _deleteInventoryItem st itemId false = st.
Proof.
  cbv zeta. unfold _deleteInventoryItem. cbn [inventory _saveInventory setInventory].
  split; [|split; [reflexivity | split; [|split; [|reflexivity]]]].
  - rewrite Forall_forall. intros item Hitem%list_elem_of_In.
    apply filter_In in Hitem as [_ Hid]. apply negb_true_iff in Hid.
    now apply String.eqb_neq.
  - intros item Hid. rewrite filter_In. apply String.eqb_neq in Hid. rewrite Hid.
    cbn. tauto.
  - intros Hall. induction (inventory st) as [|item l IH]; [reflexivity|].
    apply Forall_cons in Hall as [Hitem Hl]. simpl.
    apply String.eqb_neq in Hitem. rewrite Hitem. cbn. now rewrite IH.
Qed.

(** X30: saving the form while an item is being edited adds no item: it
    keeps the number and the order of the items, puts the values of the
    form in every item that has the id of the edited one and leaves the
    other items as they are; the ids are kept when the id of the edited
    item is not empty, and when no item has that id the inventory is left
    as it is, the values of the form being lost.  Saving the form while no
    item is being edited adds one item at the end.  In every case the edit
    is over and an empty field gets its default. *)
Theorem handleInventorySubmit_outcome (st : InventoryState) (form : InventoryForm)
    (now : N) (random36 : string) :
  let st' := _handleInventorySubmit st form now random36 in
  let newItem := submittedItem st form now random36 in
  editingInventoryItem st' = None
  /\ (forall editing, editingInventoryItem st = Some editing ->
        length (inventory st') = length (inventory st)
        /\ (forall i item, inventory st !! i = Some item ->
              inventory st' !! i
              = Some (if inv_id item =? inv_id editing then newItem else item))
        /\ (inv_id editing <> "" ->
              map inv_id (inventory st') = map inv_id (inventory st))
        /\ (Forall (fun item => inv_id item <> inv_id editing) (inventory st) ->
              inventory st' = inventory st))
  /\ (editingInventoryItem st = None ->
        inventory st' = (inventory st ++ [newItem])%list)
  /\ (form_type form = None -> inv_type newItem = "Servicio")
  /\ (form_price form = Some "" -> inv_price newItem = "0").
Proof.
  cbv zeta. unfold _handleInventorySubmit.
  split; [reflexivity|]. split; [|split; [|split]].
  - intros editing Hedit. rewrite Hedit.
    cbn [inventory setEditing _saveInventory setInventory].
    split; [apply length_map|]. split; [|split].
    + intros i item Hi.
      change (map ?f ?l) with (f <$> l). rewrite list_lookup_fmap, Hi. reflexivity.
    + intros Hid. rewrite map_map. apply map_ext. intros item.
      destruct (String.eqb_spec (inv_id item) (inv_id editing)) as [Heq|]; [|reflexivity].
      unfold submittedItem. rewrite Hedit. cbn [inv_id].
      apply String.eqb_neq in Hid. rewrite Hid. cbn. now rewrite Heq.
    + intros Hother. rewrite <- (map_id (inventory st)) at 2.
      apply map_ext_Forall. eapply Forall_impl; [exact Hother|].
      intros item Hitem. cbv beta. apply String.eqb_neq in Hitem. now rewrite Hitem.
  - intros Hnone. rewrite Hnone. reflexivity.
  - intros Htype. unfold submittedItem, orElse. cbn [inv_type]. now rewrite Htype.
  - intros Hprice. unfold submittedItem, orElse. cbn [inv_price]. now rewrite Hprice.
Qed.

(** ** Witnesses of the map and of the inventory *)

Lemma markerLabel_bounded_witness :
  (String.length "Calle 5, Mazamitla" <= 30)%nat
  /\ markerLabel "Calle 5, Mazamitla" = "Calle 5, Mazamitla".
Proof.
  assert (Hshort : (String.length "Calle 5, Mazamitla" <= 30)%nat) by (simpl; lia).
  split; [exact Hshort|].
  exact (proj2 (markerLabel_bounded "Calle 5, Mazamitla") Hshort).
Defined.

Lemma performMapQuery_not_loaded_witness :
  mapInitialized N (unloadedMap N) = false
  /\ mapError N (unloadedMap N) = ""
  /\ handleMapQuery sampleParams = [ViewLocation "Mazamitla, Jalisco"]
  /\ fst (fst (performMapQuery N (Ext := sampleCollaborators) initialApp (unloadedMap N)
                 sampleParams))
     = setMessages
         [renderedTurn (Ext := sampleCollaborators) "error" VIEW_NOT_READY] initialApp.
Proof.
  split; [reflexivity|]. split; [reflexivity|]. split; [reflexivity|].
  pose proof (performMapQuery_not_loaded (Ext := sampleCollaborators) initialApp
                (unloadedMap N) sampleParams eq_refl) as Hquery.
  destruct (performMapQuery N (Ext := sampleCollaborators) initialApp (unloadedMap N)
              sampleParams) as [[a' m'] requests].
  destruct Hquery as (_ & _ & _ & Hreported & _).
  exact (proj1 (Hreported eq_refl) "Mazamitla, Jalisco" eq_refl).
Defined.

Lemma performMapQuery_view_ready_witness :
  present (location sampleParams) "Mazamitla, Jalisco"
  /\ (let '(a', m', requests) :=
        performMapQuery N (Ext := sampleCollaborators) selectingApp (readyMap N)
          sampleParams in
      requests = [GeocodeAddress "Mazamitla, Jalisco" "MX"]
      /\ marker N m' = None /\ routePolyline N m' = false
      /\ originMarker N m' = false /\ destinationMarker N m' = false
      /\ selectionMarker a' = false
      /\ messages a' = messages selectingApp /\ chatState a' = chatState selectingApp).
Proof.
  assert (Hloc : present (location sampleParams) "Mazamitla, Jalisco")
    by (split; [reflexivity | discriminate]).
  split; [exact Hloc|].
  exact (performMapQuery_view_ready (Ext := sampleCollaborators) selectingApp (readyMap N)
           sampleParams "Mazamitla, Jalisco" Hloc eq_refl eq_refl eq_refl eq_refl).
Defined.

Lemma viewLocationCallback_outcome_witness :
  viewLocationCallback N (Ext := sampleCollaborators) initialApp (readyMap N)
    "Mazamitla, Jalisco" None "ZERO_RESULTS"
  = (setMessages
       [renderedTurn (Ext := sampleCollaborators) "error"
          (geocodeFailureMessage "Mazamitla, Jalisco" "ZERO_RESULTS")] initialApp,
     readyMap N, [])
  /\ viewLocationCallback N (Ext := sampleCollaborators) initialApp (readyMap N)
       "Hotel Monte Verde, Mazamitla, Jalisco" (Some 7%N) "OK"
     = (initialApp,
        setMarker N (Some {| marker_position := 7%N;
                             marker_label := "Hotel Monte Verde, Mazamitl..." |})
          (readyMap N),
        [FlyCameraTo 7%N]).
Proof.
  split.
  - exact (proj1 (proj1 (viewLocationCallback_outcome (Ext := sampleCollaborators)
                           initialApp (readyMap N) "Mazamitla, Jalisco" "ZERO_RESULTS" None)
                    (or_introl eq_refl))).
  - exact (proj1 (proj2 (viewLocationCallback_outcome (Ext := sampleCollaborators)
                           initialApp (readyMap N)
                           "Hotel Monte Verde, Mazamitla, Jalisco" "OK" (Some 7%N))
                    7%N eq_refl eq_refl eq_refl)).
Defined.


Lemma reverseGeocodeCallback_failure_witness :
  let result := reverseGeocodeCallback (Ext := sampleCollaborators) selectingApp None
                  "ZERO_RESULTS" (sampleEnv [] Completed) in
  snd result = []
  /\ isLocationSelectionMode (fst result) = true
  /\ selectionMarker (fst result) = false
  /\ locationSelectionMessage (fst result) = reverseGeocodeFailureMessage "ZERO_RESULTS"
  /\ JS.includes "ZERO_RESULTS" (reverseGeocodeFailureMessage "ZERO_RESULTS") = true
  /\ messages (fst result) = [].
Proof.
  exact (reverseGeocodeCallback_failure (Ext := sampleCollaborators) selectingApp None
           "ZERO_RESULTS" (sampleEnv [] Completed) (or_introl eq_refl)).
Defined.

Lemma deleteInventoryItem_removes_witness :
  map inv_name (inventory (_deleteInventoryItem editingState "2" true)) = ["Ponchadura"]
  /\ inventory (_deleteInventoryItem editingState "9" true) = inventory editingState.
Proof.
  split; [reflexivity|].
  apply (proj1 (proj2 (proj2 (proj2 (deleteInventoryItem_removes editingState "9"))))).
  repeat constructor; discriminate.
Defined.

Lemma handleInventorySubmit_outcome_witness :
  let st' := _handleInventorySubmit editingState sampleForm 1730000000000 "0.k3j9x2" in
  length (inventory st') = 2%nat
  /\ map inv_id (inventory st') = ["1"; "2"]
  /\ inv_type (submittedItem editingState sampleForm 1730000000000 "0.k3j9x2") = "Servicio"
  /\ inv_price (submittedItem editingState sampleForm 1730000000000 "0.k3j9x2") = "0".
Proof.
  pose proof (handleInventorySubmit_outcome editingState sampleForm 1730000000000
                "0.k3j9x2") as (_ & Hedit & _ & Htype & Hprice).
  destruct (Hedit (sampleItem "2" "Cambio") eq_refl) as (Hlength & _ & Hids & _).
  cbv zeta. split; [|split; [|split]].
  - exact Hlength.
  - apply Hids. discriminate.
  - exact (Htype eq_refl).
  - exact (Hprice eq_refl).
Defined.

(** An edited item whose id is empty, with no such item in the inventory:
    the form is saved into nothing. *)
Remark handleInventorySubmit_empty_id :
  let st := setEditing (Some (sampleItem "" "Nuevo")) editingState in
  inventory (_handleInventorySubmit st sampleForm 1730000000000 "0.k3j9x2")
  = inventory st.
Proof. reflexivity. Qed.
